(** * Verification of the API-orchestration core of open-webui

    A shallow embedding of [src/lib/apis/index.ts]: the model catalogue
    builder [getModels], the six task-completion operations
    ([generateTitle], [generateFollowUps], [generateTags], [generateEmoji],
    [generateQueries], [generateAutoCompletion]), the tool invoker
    [executeToolServer], the loaders [getToolServerData] and
    [getToolServersData], [generateMoACompletion], and the plain calls of
    chats, tasks, pipelines and configuration; with them the base URLs of
    [src/lib/constants].  [uploadPipeline], which sends a form, is left
    out.

    The program is JavaScript, so the embedding has a first layer that
    models the part of the language the functions rely on: strings as
    sequences of UTF-16 code units, dynamically typed values, the order of
    the own properties of an object, optional chaining, truthiness,
    [JSON.parse], [encodeURIComponent], [URLSearchParams] and
    exceptions.  What the engine does with data-dependent regular
    expressions, number formatting and Unicode tables is a parameter of
    the model ([Host]).  The network is a parameter too: a function from
    requests to outcomes.

    Sections 1 to 15 are definitions: the language layer, the functions
    of the program in the order of the source file, and the vocabulary of
    the statements.  Sections 16 onwards are the results. *)

From Stdlib Require Import String Ascii DecimalString DecimalPos DecimalN.
From Stdlib Require Import List NArith ZArith Bool Lia.
Import ListNotations.

Set Implicit Arguments.
Local Open Scope N_scope.

(* ===================================================================== *)
(** * 1. Strings                                                           *)
(* ===================================================================== *)

(** A JavaScript string is a sequence of UTF-16 code units. *)
Definition char16 := N.
Definition jstring := list char16.

(** [lit "abc"] is the JavaScript string with the code units of an ASCII
    literal. *)
Definition lit (s : string) : jstring :=
  map N_of_ascii (list_ascii_of_string s).

(** [dq s] is [lit s] with a double quote in place of every number sign,
    so that JSON texts can be written as literals. *)
Definition dq (s : string) : jstring :=
  map (fun c => if c =? 35 then 34 else c) (lit s).

Fixpoint str_eqb (a b : jstring) : bool :=
  match a, b with
  | [], [] => true
  | x :: a', y :: b' => (x =? y) && str_eqb a' b'
  | _, _ => false
  end.

Definition c_quote : char16 := 34.      (* double quote *)
Definition c_apostrophe : char16 := 39. (* apostrophe *)
Definition c_backtick : char16 := 96.   (* backtick *)
Definition c_lsquo : char16 := 8216.    (* U+2018 *)
Definition c_rsquo : char16 := 8217.    (* U+2019 *)
Definition c_lbrace : char16 := 123.    (* { *)
Definition c_rbrace : char16 := 125.    (* } *)
Definition c_lbracket : char16 := 91.   (* [ *)
Definition c_rbracket : char16 := 93.   (* ] *)
Definition c_comma : char16 := 44.
Definition c_colon : char16 := 58.
Definition c_backslash : char16 := 92.
Definition c_dot : char16 := 46.

(** [String.prototype.indexOf(c)] for a one-unit needle: the position of
    the first occurrence, or -1. *)
Fixpoint indexOf_from (c : char16) (s : jstring) (i : Z) : Z :=
  match s with
  | [] => (-1)%Z
  | x :: r => if x =? c then i else indexOf_from c r (i + 1)%Z
  end.

Definition indexOf (c : char16) (s : jstring) : Z := indexOf_from c s 0%Z.

(** [String.prototype.lastIndexOf(c)]: the position of the last
    occurrence, or -1. *)
Fixpoint lastIndexOf_from (c : char16) (s : jstring) (i : Z) (found : Z) : Z :=
  match s with
  | [] => found
  | x :: r => lastIndexOf_from c r (i + 1)%Z (if x =? c then i else found)
  end.

Definition lastIndexOf (c : char16) (s : jstring) : Z :=
  lastIndexOf_from c s 0%Z (-1)%Z.

(** [String.prototype.substring(start, end)]: both positions are clamped
    to [0, length] and swapped when [start > end]. *)
Definition clamp (len i : Z) : Z := Z.min (Z.max i 0) len.

Definition substring (s : jstring) (istart iend : Z) : jstring :=
  let len := Z.of_nat (length s) in
  let a := clamp len istart in
  let b := clamp len iend in
  let from := Z.min a b in
  let to := Z.max a b in
  firstn (Z.to_nat (to - from)) (skipn (Z.to_nat from) s).

(** The replace call of the decoders, whose pattern is the character
    class of the apostrophe, U+2018, U+2019 and the backtick, with the g
    flag: every such unit becomes a double quote. *)
Definition is_quote_variant (c : char16) : bool :=
  (c =? c_apostrophe) || (c =? c_lsquo) || (c =? c_rsquo) || (c =? c_backtick).

Definition sanitize (s : jstring) : jstring :=
  map (fun c => if is_quote_variant c then c_quote else c) s.

(** The replace call of [generateEmoji]: double quotes and apostrophes
    are removed. *)
Definition strip_quotes (s : jstring) : jstring :=
  filter (fun c => negb ((c =? c_quote) || (c =? c_apostrophe))) s.

(** Decimal digits of a natural number, as in [String(i)] for an array
    index [i]. *)
Definition index_string (n : N) : jstring :=
  lit (NilZero.string_of_uint (N.to_uint n)).

Definition is_digit (c : char16) : bool := (48 <=? c) && (c <=? 57).

Fixpoint digits_value (s : jstring) (acc : N) : N :=
  match s with
  | [] => acc
  | c :: r => digits_value r (10 * acc + (c - 48))
  end.

(** An array index is a canonical numeric string below 2^32 - 1; such
    keys come first, in ascending order, among the own properties of an
    object. *)
Definition array_index (k : jstring) : option N :=
  match k with
  | [] => None
  | c :: r =>
      if forallb is_digit k && (negb (c =? 48) || match r with [] => true | _ => false end)
         && (Nat.leb (length k) 10)
      then let n := digits_value k 0 in
           if n <=? 4294967294 then Some n else None
      else None
  end.

(* ===================================================================== *)
(** * 2. Values                                                            *)
(* ===================================================================== *)

(** A number read from JSON text is kept as the decimal it was written
    as: [(-1)^neg * mant * 10^exp10].  JavaScript rounds it to the
    nearest double; the only thing the program asks of a number is
    whether it is zero (truthiness) and its string form, which is left
    to the host. *)
Record number := { num_neg : bool; num_mant : N; num_exp : Z }.

(** Runtime faults raised by the engine itself rather than by a [throw]
    of the program.  Each is an [Error] object whose message text is the
    engine's. *)
Inductive fault :=
| NullDeref        (* property read of undefined or null *)
| NotAFunction     (* call of a value that is not callable *)
| NotAnObject      (* [in] applied to a primitive, Object.entries(null) *)
| NotPrimitive     (* object that cannot be converted to a primitive *)
| JsonSyntax       (* JSON.parse, Response.json *)
| UriMalformed     (* encodeURIComponent on a lone surrogate *)
| RegExpSyntax.    (* new RegExp on an invalid pattern *)

Inductive message :=
| Text (s : jstring)          (* new Error(s), or a platform message *)
| Engine (f : fault).

#[warnings="-register-all"]
Inductive value :=
| VUndefined
| VNull
| VBool (b : bool)
| VNum (n : number)
| VStr (s : jstring)
| VArr (items : list value)
| VObj (props : list (jstring * value)).

Definition props := list (jstring * value).

(** What a [throw] carries: JavaScript can throw any value (the task
    operations throw the JSON body of a failed response), or an [Error]
    object. *)
Inductive exn :=
| ExnValue (v : value)
| ExnError (m : message).

(** Abrupt and normal completion of an expression or of an awaited
    promise. *)
Inductive completion (A : Type) :=
| Ret (a : A)
| Throw (e : exn).

Arguments Ret {A} a.
Arguments Throw {A} e.

Definition bind {A B} (c : completion A) (k : A -> completion B) : completion B :=
  match c with
  | Ret a => k a
  | Throw e => Throw e
  end.

Notation "x <- c ;; k" := (bind c (fun x => k))
  (at level 61, c at next level, right associativity).

Definition raise {A} (f : fault) : completion A := Throw (ExnError (Engine f)).

(** [throw new Error(s)] *)
Definition throw_error {A} (s : jstring) : completion A := Throw (ExnError (Text s)).

(** [try { body } catch (e) { handler }] *)
Definition try_catch {A} (body : completion A) (handler : exn -> completion A)
  : completion A :=
  match body with
  | Ret a => Ret a
  | Throw e => handler e
  end.

Fixpoint mapM {A B} (f : A -> completion B) (l : list A) : completion (list B) :=
  match l with
  | [] => Ret []
  | x :: r => y <- f x ;; ys <- mapM f r ;; Ret (y :: ys)
  end.

(** ** Own properties *)

Fixpoint obj_lookup (k : jstring) (o : props) : option value :=
  match o with
  | [] => None
  | (k', v) :: r => if str_eqb k k' then Some v else obj_lookup k r
  end.

Definition obj_has (k : jstring) (o : props) : bool :=
  match obj_lookup k o with Some _ => true | None => false end.

Fixpoint obj_replace (k : jstring) (v : value) (o : props) : props :=
  match o with
  | [] => []
  | (k', v') :: r =>
      if str_eqb k k' then (k', v) :: r else (k', v') :: obj_replace k v r
  end.

(** A new array-index key goes before the first key that is not an array
    index or is a larger one; any other new key goes last. *)
Fixpoint obj_insert_index (n : N) (k : jstring) (v : value) (o : props) : props :=
  match o with
  | [] => [(k, v)]
  | (k', v') :: r =>
      match array_index k' with
      | Some n' => if n' <? n then (k', v') :: obj_insert_index n k v r
                   else (k, v) :: o
      | None => (k, v) :: o
      end
  end.

(** [o[k] = v] on a plain object: an existing key keeps its place, a new
    one is placed by the own-property order.  Every key names an own data
    property; the accessor [__proto__] that plain objects inherit is not
    modelled. *)
Definition obj_set (k : jstring) (v : value) (o : props) : props :=
  if obj_has k o then obj_replace k v o
  else match array_index k with
       | Some n => obj_insert_index n k v o
       | None => o ++ [(k, v)]
       end.

(** An object literal or a spread: the entries are defined one after the
    other. *)
Definition obj_assign (o : props) (entries : props) : props :=
  fold_left (fun acc kv => obj_set (fst kv) (snd kv) acc) entries o.

Definition obj_of (entries : props) : props := obj_assign [] entries.

Fixpoint indexed (l : list value) (i : N) : props :=
  match l with
  | [] => []
  | v :: r => (index_string i, v) :: indexed r (i + 1)
  end.

(** The own enumerable string-keyed properties of a value, as
    [Object.entries] and spread see them.  [None] stands for undefined and
    null. *)
Definition own_props (v : value) : option props :=
  match v with
  | VUndefined | VNull => None
  | VObj o => Some o
  | VArr l => Some (indexed l 0)
  | VStr s => Some (indexed (map (fun c => VStr [c]) s) 0)
  | VBool _ | VNum _ => Some []
  end.

Definition Object_entries (v : value) : completion props :=
  match own_props v with
  | Some o => Ret o
  | None => raise NotAnObject
  end.

(** [{...v}]: spreading undefined or null adds nothing. *)
Definition spread (v : value) : props :=
  match own_props v with Some o => o | None => [] end.

Definition is_nullish (v : value) : bool :=
  match v with VUndefined | VNull => true | _ => false end.

(** [a ?? b] *)
Definition nullish_or (a b : value) : value := if is_nullish a then b else a.

(** A decimal rounds to the double zero when it is zero or at most
    2^-1075 in magnitude (the midpoint below the least subnormal, which
    rounds to even). *)
Definition rounds_to_zero (n : number) : bool :=
  (num_mant n =? 0) ||
  ((num_exp n <? 0)%Z &&
   (Z.of_N (num_mant n) * 2 ^ 1075 <=? 10 ^ (- num_exp n))%Z).

(** ToBoolean *)
Definition truthy (v : value) : bool :=
  match v with
  | VUndefined | VNull => false
  | VBool b => b
  | VNum n => negb (rounds_to_zero n)
  | VStr s => match s with [] => false | _ => true end
  | VArr _ | VObj _ => true
  end.

Definition truthy_exn (e : exn) : bool :=
  match e with
  | ExnValue v => truthy v
  | ExnError _ => true
  end.

Definition Array_isArray (v : value) : bool :=
  match v with VArr _ => true | _ => false end.

(* ===================================================================== *)
(** * 3. JSON.parse                                                        *)
(* ===================================================================== *)

(** The grammar of ECMA-404, which [JSON.parse] and [Response.json]
    accept: no comments, no trailing commas, strings in double quotes
    only. *)

Definition is_ws (c : char16) : bool :=
  (c =? 32) || (c =? 9) || (c =? 10) || (c =? 13).

Fixpoint skip_ws (s : jstring) : jstring :=
  match s with
  | c :: r => if is_ws c then skip_ws r else s
  | [] => []
  end.

Definition hex_value (c : char16) : option N :=
  if is_digit c then Some (c - 48)
  else if (97 <=? c) && (c <=? 102) then Some (c - 87)
  else if (65 <=? c) && (c <=? 70) then Some (c - 55)
  else None.

Definition hex4 (a b c d : char16) : option char16 :=
  match hex_value a, hex_value b, hex_value c, hex_value d with
  | Some x, Some y, Some z, Some w => Some (((x * 16 + y) * 16 + z) * 16 + w)
  | _, _, _, _ => None
  end.

Definition simple_escape (c : char16) : option char16 :=
  if c =? 34 then Some 34          (* double quote *)
  else if c =? 92 then Some 92     (* backslash *)
  else if c =? 47 then Some 47     (* solidus *)
  else if c =? 98 then Some 8      (* b *)
  else if c =? 102 then Some 12    (* f *)
  else if c =? 110 then Some 10    (* n *)
  else if c =? 114 then Some 13    (* r *)
  else if c =? 116 then Some 9     (* t *)
  else None.

(** The characters of a string literal after its opening quote, up to and
    including the closing one. *)
Fixpoint parse_chars (s : jstring) (acc : jstring) : option (jstring * jstring) :=
  match s with
  | [] => None
  | c :: r =>
      if c =? c_quote then Some (rev acc, r)
      else if c =? c_backslash then
        match r with
        | [] => None
        | e :: r1 =>
            if e =? 117 (* u *) then
              match r1 with
              | h1 :: h2 :: h3 :: h4 :: r2 =>
                  match hex4 h1 h2 h3 h4 with
                  | Some u => parse_chars r2 (u :: acc)
                  | None => None
                  end
              | _ => None
              end
            else
              match simple_escape e with
              | Some u => parse_chars r1 (u :: acc)
              | None => None
              end
        end
      else if c <? 32 then None
      else parse_chars r (c :: acc)
  end.

Fixpoint take_digits (s : jstring) (acc : jstring) : jstring * jstring :=
  match s with
  | c :: r => if is_digit c then take_digits r (c :: acc) else (rev acc, s)
  | [] => (rev acc, [])
  end.

(** number = [-] int [frac] [exp] *)
Definition parse_number (s : jstring) : option (number * jstring) :=
  let '(neg, s1) :=
    match s with
    | c :: r => if c =? 45 then (true, r) else (false, s)
    | [] => (false, s)
    end in
  let '(int_digits, s2) := take_digits s1 [] in
  match int_digits with
  | [] => None
  | d :: more =>
      if (d =? 48) && negb (match more with [] => true | _ => false end)
      then None
      else
        let frac :=
          match s2 with
          | c :: r =>
              if c =? c_dot then
                let '(fd, s3) := take_digits r [] in
                match fd with [] => None | _ => Some (fd, s3) end
              else Some ([], s2)
          | [] => Some ([], s2)
          end in
        match frac with
        | None => None
        | Some (frac_digits, s3) =>
            let mant := digits_value (int_digits ++ frac_digits) 0 in
            let scale := (- Z.of_nat (length frac_digits))%Z in
            match s3 with
            | c :: r =>
                if (c =? 101) || (c =? 69) then
                  let '(eneg, r1) :=
                    match r with
                    | sg :: r' => if sg =? 45 then (true, r')
                                  else if sg =? 43 then (false, r')
                                  else (false, r)
                    | [] => (false, r)
                    end in
                  let '(ed, s4) := take_digits r1 [] in
                  match ed with
                  | [] => None
                  | _ =>
                      let e := Z.of_N (digits_value ed 0) in
                      Some ({| num_neg := neg; num_mant := mant;
                               num_exp := ((if eneg then - e else e) + scale)%Z |}, s4)
                  end
                else Some ({| num_neg := neg; num_mant := mant; num_exp := scale |}, s3)
            | [] => Some ({| num_neg := neg; num_mant := mant; num_exp := scale |}, s3)
            end
        end
  end.

Fixpoint strip_prefix (p s : jstring) : option jstring :=
  match p, s with
  | [], _ => Some s
  | x :: p', y :: s' => if x =? y then strip_prefix p' s' else None
  | _ :: _, [] => None
  end.

Inductive presult :=
| POk (v : value) (rest : jstring)
| PError
| PFuel.

(** The three mutually recursive productions; [fuel] bounds the depth of
    the recursion and [JSON_parse] supplies enough of it
    ([parse_value_fuel] below). *)
Fixpoint parse_value (fuel : nat) (s : jstring) : presult :=
  match fuel with
  | O => PFuel
  | S f =>
      match skip_ws s with
      | [] => PError
      | c :: r =>
          if c =? c_lbrace then
            match skip_ws r with
            | c' :: r' => if c' =? c_rbrace then POk (VObj []) r'
                          else parse_members f r []
            | [] => PError
            end
          else if c =? c_lbracket then
            match skip_ws r with
            | c' :: r' => if c' =? c_rbracket then POk (VArr []) r'
                          else parse_elements f r []
            | [] => PError
            end
          else if c =? c_quote then
            match parse_chars r [] with
            | Some (str, r') => POk (VStr str) r'
            | None => PError
            end
          else if c =? 116 then
            match strip_prefix (lit "rue") r with
            | Some r' => POk (VBool true) r' | None => PError end
          else if c =? 102 then
            match strip_prefix (lit "alse") r with
            | Some r' => POk (VBool false) r' | None => PError end
          else if c =? 110 then
            match strip_prefix (lit "ull") r with
            | Some r' => POk VNull r' | None => PError end
          else
            match parse_number (c :: r) with
            | Some (n, r') => POk (VNum n) r'
            | None => PError
            end
      end
  end
with parse_elements (fuel : nat) (s : jstring) (acc : list value) : presult :=
  match fuel with
  | O => PFuel
  | S f =>
      match parse_value f s with
      | POk v r =>
          match skip_ws r with
          | c :: r' =>
              if c =? c_comma then parse_elements f r' (v :: acc)
              else if c =? c_rbracket then POk (VArr (rev (v :: acc))) r'
              else PError
          | [] => PError
          end
      | PError => PError
      | PFuel => PFuel
      end
  end
with parse_members (fuel : nat) (s : jstring) (acc : props) : presult :=
  match fuel with
  | O => PFuel
  | S f =>
      match skip_ws s with
      | c :: r =>
          if c =? c_quote then
            match parse_chars r [] with
            | Some (k, r1) =>
                match skip_ws r1 with
                | c2 :: r2 =>
                    if c2 =? c_colon then
                      match parse_value f r2 with
                      | POk v r3 =>
                          match skip_ws r3 with
                          | c3 :: r4 =>
                              if c3 =? c_comma
                              then parse_members f r4 (obj_set k v acc)
                              else if c3 =? c_rbrace
                              then POk (VObj (obj_set k v acc)) r4
                              else PError
                          | [] => PError
                          end
                      | PError => PError
                      | PFuel => PFuel
                      end
                    else PError
                | [] => PError
                end
            | None => PError
            end
          else PError
      | [] => PError
      end
  end.

Definition parse_fuel (s : jstring) : nat := 2 * length s + 1.

(** [JSON.parse(s)]: one value between optional white space, or a
    SyntaxError. *)
Definition JSON_parse (s : jstring) : completion value :=
  match parse_value (parse_fuel s) s with
  | POk v rest =>
      match skip_ws rest with
      | [] => Ret v
      | _ :: _ => raise JsonSyntax
      end
  | PError | PFuel => raise JsonSyntax
  end.


(* ===================================================================== *)
(** * 4. Percent-encoding                                                  *)
(* ===================================================================== *)

Definition is_high_surrogate (c : char16) : bool := (55296 <=? c) && (c <=? 56319).
Definition is_low_surrogate (c : char16) : bool := (56320 <=? c) && (c <=? 57343).

(** The code points of a string; [None] marks a surrogate without its
    partner. *)
Fixpoint code_points (s : jstring) : list (option N) :=
  match s with
  | [] => []
  | c :: r =>
      if is_high_surrogate c then
        match r with
        | d :: r' =>
            if is_low_surrogate d
            then Some (65536 + (c - 55296) * 1024 + (d - 56320)) :: code_points r'
            else None :: code_points r
        | [] => [None]
        end
      else if is_low_surrogate c then None :: code_points r
      else Some c :: code_points r
  end.

Definition utf8 (cp : N) : list N :=
  if cp <? 128 then [cp]
  else if cp <? 2048 then [192 + cp / 64; 128 + cp mod 64]
  else if cp <? 65536 then
    [224 + cp / 4096; 128 + (cp / 64) mod 64; 128 + cp mod 64]
  else
    [240 + cp / 262144; 128 + (cp / 4096) mod 64;
     128 + (cp / 64) mod 64; 128 + cp mod 64].

Definition hex_digit (n : N) : char16 := if n <? 10 then 48 + n else 55 + n.

Definition percent (byte : N) : jstring :=
  [37; hex_digit (byte / 16); hex_digit (byte mod 16)].

Definition is_alnum (c : N) : bool :=
  is_digit c || ((65 <=? c) && (c <=? 90)) || ((97 <=? c) && (c <=? 122)).

(** The characters [encodeURIComponent] leaves alone: letters, digits and
    - _ . ! ~ * ' ( ) *)
Definition uri_unreserved (c : N) : bool :=
  is_alnum c ||
  existsb (N.eqb c) [45; 95; 46; 33; 126; 42; 39; 40; 41].

Fixpoint encode_points (l : list (option N)) : completion jstring :=
  match l with
  | [] => Ret []
  | None :: _ => raise UriMalformed
  | Some cp :: r =>
      rest <- encode_points r ;;
      Ret ((if uri_unreserved cp then [cp] else flat_map percent (utf8 cp)) ++ rest)
  end.

(** [encodeURIComponent(s)] for a string [s]; a lone surrogate is a
    URIError. *)
Definition encodeURIComponent_string (s : jstring) : completion jstring :=
  encode_points (code_points s).

(** The application/x-www-form-urlencoded byte serializer of
    [URLSearchParams.prototype.toString]: a space becomes a plus sign,
    letters, digits and * - . _ stay, every other byte is
    percent-encoded; a lone surrogate is first replaced by U+FFFD. *)
Definition form_byte (b : N) : jstring :=
  if b =? 32 then [43]
  else if is_alnum b || existsb (N.eqb b) [42; 45; 46; 95] then [b]
  else percent b.

Definition form_encode (s : jstring) : jstring :=
  flat_map (fun p => flat_map form_byte
                       (utf8 (match p with Some cp => cp | None => 65533 end)))
           (code_points s).

Fixpoint join (sep : jstring) (l : list jstring) : jstring :=
  match l with
  | [] => []
  | [x] => x
  | x :: r => x ++ sep ++ join sep r
  end.

Definition URLSearchParams_toString (pairs : list (jstring * jstring)) : jstring :=
  join [38] (map (fun kv => form_encode (fst kv) ++ [61] ++ form_encode (snd kv)) pairs).

(* ===================================================================== *)
(** * 5. The host                                                          *)
(* ===================================================================== *)

(** What is taken from the JavaScript engine as given: the text of a
    number, regular expressions built from data, Unicode case mapping and
    character properties, and the wording of the engine's own error
    messages. *)
Record Host := {
  (** [String(n)] for a number *)
  Number_toString : number -> jstring;
  (** whether [new RegExp(source, 'g')] accepts [source]; it throws a
      SyntaxError otherwise *)
  RegExp_valid : jstring -> bool;
  (** [subject.replace(new RegExp(source, 'g'), replacement)] for an
      accepted [source], as a function of source, subject and
      replacement *)
  RegExp_replace_all : jstring -> jstring -> jstring -> jstring;
  toUpperCase : jstring -> jstring;
  toLowerCase : jstring -> jstring;
  (** the Unicode property Extended_Pictographic of a code point *)
  Extended_Pictographic : N -> bool;
  (** [e.message] of an error the engine raised *)
  fault_message : fault -> jstring
}.

Section Program.

Variable host : Host.

(** The constant [WEBUI_BASE_URL] of [$lib/constants]: either empty or
    the development server, decided by the build. *)
Variable WEBUI_BASE_URL : jstring.

Definition message_text (m : message) : jstring :=
  match m with
  | Text s => s
  | Engine f => fault_message host f
  end.

Definition number_of_nat (n : nat) : number :=
  {| num_neg := false; num_mant := N.of_nat n; num_exp := 0 |}.

(** ToString.  A plain object prints as [object Object] through
    Object.prototype.toString, unless an own data property shadows
    [toString]: then no conversion to a primitive exists and a TypeError
    is raised.  An array joins its elements with commas, undefined and
    null printing as nothing. *)
Fixpoint ToString (v : value) : completion jstring :=
  match v with
  | VUndefined => Ret (lit "undefined")
  | VNull => Ret (lit "null")
  | VBool true => Ret (lit "true")
  | VBool false => Ret (lit "false")
  | VNum n => Ret (Number_toString host n)
  | VStr s => Ret s
  | VArr l =>
      parts <- (fix each (l : list value) : completion (list jstring) :=
                  match l with
                  | [] => Ret []
                  | x :: r =>
                      a <- (if is_nullish x then Ret [] else ToString x) ;;
                      b <- each r ;;
                      Ret (a :: b)
                  end) l ;;
      Ret (join [c_comma] parts)
  | VObj o =>
      if obj_has (lit "toString") o then raise NotPrimitive
      else Ret (lit "[object Object]")
  end.

(** [v.k] for a value that is neither undefined nor null.  Only data
    properties are modelled: the own properties of an object, the
    elements and length of an array, the units and length of a string. *)
Definition get_nn (v : value) (k : jstring) : value :=
  match v with
  | VObj o => match obj_lookup k o with Some x => x | None => VUndefined end
  | VArr l =>
      if str_eqb k (lit "length") then VNum (number_of_nat (length l))
      else match array_index k with
           | Some i => nth (N.to_nat i) l VUndefined
           | None => VUndefined
           end
  | VStr s =>
      if str_eqb k (lit "length") then VNum (number_of_nat (length s))
      else match array_index k with
           | Some i => match nth_error s (N.to_nat i) with
                       | Some c => VStr [c]
                       | None => VUndefined
                       end
           | None => VUndefined
           end
  | _ => VUndefined
  end.

(** [v.k]: reading a property of undefined or null is a TypeError. *)
Definition get (v : value) (k : jstring) : completion value :=
  if is_nullish v then raise NullDeref else Ret (get_nn v k).

(** [v?.k] *)
Definition get_opt (v : value) (k : jstring) : value :=
  if is_nullish v then VUndefined else get_nn v k.

(** The own properties of an array or string of [n] elements: its
    indices and [length]. *)
Definition has_indexed (n : nat) (k : jstring) : bool :=
  str_eqb k (lit "length") ||
  match array_index k with
  | Some i => (N.to_nat i <? n)%nat
  | None => false
  end.

(** [k in v]: a TypeError unless [v] is an object. *)
Definition has_property (k : jstring) (v : value) : completion bool :=
  match v with
  | VObj o => Ret (obj_has k o)
  | VArr l => Ret (has_indexed (length l) k)
  | _ => raise NotAnObject
  end.

(** [encodeURIComponent(v)] *)
Definition encodeURIComponent (v : value) : completion jstring :=
  s <- ToString v ;; encodeURIComponent_string s.

(** [v.hasOwnProperty(name)]: the method is looked up on [v] first (an
    own property named hasOwnProperty shadows it with a value that cannot
    be called), then the argument is converted to a property key. *)
Definition hasOwnProperty (v : value) (name : value) : completion bool :=
  match v with
  | VUndefined | VNull => raise NullDeref
  | VObj o =>
      if obj_has (lit "hasOwnProperty") o then raise NotAFunction
      else k <- ToString name ;; Ret (obj_has k o)
  | VArr l => k <- ToString name ;; Ret (has_indexed (length l) k)
  | VStr s => k <- ToString name ;; Ret (has_indexed (length s) k)
  | VBool _ | VNum _ => k <- ToString name ;; Ret false
  end.

(* ===================================================================== *)
(** * 6. HTTP                                                              *)
(* ===================================================================== *)

(** The arguments of a [fetch] call.  [req_body] holds the value that the
    program passes to [JSON.stringify]. *)
Record request := {
  req_url : jstring;
  req_method : jstring;
  req_headers : list (jstring * jstring);
  req_body : option value
}.

Record response := { status : N; body : jstring }.

(** [res.ok] *)
Definition ok (r : response) : bool := (200 <=? status r) && (status r <=? 299).

(** A [fetch] promise either rejects (network failure: a TypeError with
    the platform's message) or resolves to a response. *)
Inductive fetch_result :=
| Rejected (why : jstring)
| Responded (r : response).

(** The network, as the program sees it. *)
Variable fetch : request -> fetch_result.

(** [...(token && { authorization: `Bearer ${token}` })]: the empty
    string is falsy and spreads to nothing. *)
Definition bearer_if_token (token : jstring) : list (jstring * jstring) :=
  match token with
  | [] => []
  | _ :: _ => [(lit "authorization", lit "Bearer " ++ token)]
  end.

(** [if (!res.ok) throw await res.json(); return res.json();] *)
Definition then_json (r : response) : completion value :=
  if negb (ok r) then err <- JSON_parse (body r) ;; Throw (ExnValue err)
  else JSON_parse (body r).

Definition await_then_json (f : fetch_result) : completion value :=
  match f with
  | Rejected why => Throw (ExnError (Text why))
  | Responded r => then_json r
  end.

(** ['detail' in err] and [err.detail] on a caught value. *)
Definition exn_has (k : jstring) (err : exn) : completion bool :=
  match err with
  | ExnValue v => has_property k v
  | ExnError _ => Ret false
  end.

Definition exn_get (err : exn) (k : jstring) : completion value :=
  match err with
  | ExnValue v => get v k
  | ExnError m =>
      if str_eqb k (lit "message") then Ret (VStr (message_text m))
      else Ret VUndefined
  end.


(* ===================================================================== *)
(** * 7. The task-completion operations                                    *)
(* ===================================================================== *)

(** The promise chain that the six task operations share word for word:
<<
   .then(async (res) => { if (!res.ok) throw await res.json();
                          return res.json(); })
   .catch((err) => { console.error(err);
                     if ('detail' in err) { error = err.detail; }
                     return null; });
>>
    The result is the pair of [res] and [error]; [error] starts as
    null.  The [in] test throws on a primitive, and that TypeError leaves
    the handler. *)
Definition task_settle (f : fetch_result) : completion (value * value) :=
  match await_then_json f with
  | Ret res => Ret (res, VNull)
  | Throw err =>
      has <- exn_has (lit "detail") err ;;
      if (has : bool) then detail <- exn_get err (lit "detail") ;; Ret (VNull, detail)
      else Ret (VNull, VNull)
  end.

(** [...(chat_id && { chat_id: chat_id })] *)
Definition optional_entry (k : jstring) (v : value) : props :=
  if truthy v then [(k, v)] else [].

Definition json_headers : list (jstring * jstring) :=
  [(lit "Accept", lit "application/json");
   (lit "Content-Type", lit "application/json")].

Definition task_request (path : string) (token : jstring) (fields : props) : request :=
  {| req_url := WEBUI_BASE_URL ++ lit path;
     req_method := lit "POST";
     req_headers := json_headers ++ [(lit "Authorization", lit "Bearer " ++ token)];
     req_body := Some (VObj (obj_of fields)) |}.

(** [res?.choices[0]?.message?.content]: only [res] and the first choice
    are guarded, so an answer without [choices] is a TypeError. *)
Definition completion_content (res : value) : completion value :=
  if is_nullish res then Ret VUndefined
  else
    first <- get (get_nn res (lit "choices")) (lit "0") ;;
    Ret (get_opt (get_opt first (lit "message")) (lit "content")).

(** A string method called on a value: anything but a string has no
    [replace] or [substring] to call. *)
Definition as_string (v : value) : completion jstring :=
  match v with
  | VStr s => Ret s
  | _ => raise NotAFunction
  end.

(** The span from the first opening brace to the last closing brace,
    parsed: the body of [if (jsonStartIndex !== -1 && jsonEndIndex !== -1)]
    up to [JSON.parse]; [None] when the test fails. *)
Definition parse_braces (text : jstring) : option (completion value) :=
  let jsonStartIndex := indexOf c_lbrace text in
  let jsonEndIndex := lastIndexOf c_rbrace text in
  if negb (jsonStartIndex =? -1)%Z && negb (jsonEndIndex =? -1)%Z then
    let jsonResponse := substring text jsonStartIndex (jsonEndIndex + 1)%Z in
    Some (JSON_parse jsonResponse)
  else None.

(** [parsed && parsed.key] *)
Definition has_truthy (parsed : value) (k : jstring) : bool :=
  truthy parsed && truthy (get_nn parsed k).

(** [Array.isArray(parsed.key) ? parsed.key : []] *)
Definition array_or_empty (v : value) : value :=
  if Array_isArray v then v else VArr [].

(** ** generateTitle *)

Definition generateTitle_request (token model : jstring) (messages chat_id : value)
  : request :=
  task_request "/api/v1/tasks/title/completions" token
    ([(lit "model", VStr model); (lit "messages", messages)]
       ++ optional_entry (lit "chat_id") chat_id).

Definition generateTitle_decode (res : value) : completion value :=
  try_catch
    (content <- completion_content res ;;
     let response := nullish_or content (VStr []) in
     text <- as_string response ;;
     let sanitizedResponse := sanitize text in
     match parse_braces sanitizedResponse with
     | Some parsing =>
         parsed <- parsing ;;
         if has_truthy parsed (lit "title") then Ret (get_nn parsed (lit "title"))
         else Ret VNull
     | None => Ret VNull
     end)
    (fun _ => Ret VNull).

Definition generateTitle (token model : jstring) (messages chat_id : value)
  : completion value :=
  settled <- task_settle (fetch (generateTitle_request token model messages chat_id)) ;;
  let '(res, error) := settled in
  if truthy error then Throw (ExnValue error)
  else generateTitle_decode res.

(** ** generateFollowUps *)

Definition generateFollowUps_request (token model : jstring) (messages chat_id : value)
  : request :=
  task_request "/api/v1/tasks/follow_ups/completions" token
    ([(lit "model", VStr model); (lit "messages", messages)]
       ++ optional_entry (lit "chat_id") chat_id).

Definition generateFollowUps_decode (res : value) : completion value :=
  try_catch
    (content <- completion_content res ;;
     let response := nullish_or content (VStr []) in
     text <- as_string response ;;
     let sanitizedResponse := sanitize text in
     match parse_braces sanitizedResponse with
     | Some parsing =>
         parsed <- parsing ;;
         if has_truthy parsed (lit "follow_ups")
         then Ret (array_or_empty (get_nn parsed (lit "follow_ups")))
         else Ret (VArr [])
     | None => Ret (VArr [])
     end)
    (fun _ => Ret (VArr [])).

Definition generateFollowUps (token model : jstring) (messages chat_id : value)
  : completion value :=
  settled <- task_settle (fetch (generateFollowUps_request token model messages chat_id)) ;;
  let '(res, error) := settled in
  if truthy error then Throw (ExnValue error)
  else generateFollowUps_decode res.

(** ** generateTags *)

Definition generateTags_request (token model : jstring) (messages chat_id : value)
  : request :=
  task_request "/api/v1/tasks/tags/completions" token
    ([(lit "model", VStr model); (lit "messages", messages)]
       ++ optional_entry (lit "chat_id") chat_id).

Definition generateTags_decode (res : value) : completion value :=
  try_catch
    (content <- completion_content res ;;
     let response := nullish_or content (VStr []) in
     text <- as_string response ;;
     let sanitizedResponse := sanitize text in
     match parse_braces sanitizedResponse with
     | Some parsing =>
         parsed <- parsing ;;
         if has_truthy parsed (lit "tags")
         then Ret (array_or_empty (get_nn parsed (lit "tags")))
         else Ret (VArr [])
     | None => Ret (VArr [])
     end)
    (fun _ => Ret (VArr [])).

Definition generateTags (token model : jstring) (messages chat_id : value)
  : completion value :=
  settled <- task_settle (fetch (generateTags_request token model messages chat_id)) ;;
  let '(res, error) := settled in
  if truthy error then Throw (ExnValue error)
  else generateTags_decode res.


(** ** generateEmoji *)

Definition generateEmoji_request (token model : jstring) (prompt chat_id : value)
  : request :=
  task_request "/api/v1/tasks/emoji/completions" token
    ([(lit "model", VStr model); (lit "prompt", prompt)]
       ++ optional_entry (lit "chat_id") chat_id).

Definition utf16 (cp : N) : jstring :=
  if cp <? 65536 then [cp]
  else [55296 + (cp - 65536) / 1024; 56320 + (cp - 65536) mod 1024].

(** The first code point with the property Extended_Pictographic, which
    is what [test] looks for and what [match(...)[0]] returns. *)
Fixpoint first_pictographic (l : list (option N)) : option jstring :=
  match l with
  | [] => None
  | Some cp :: r =>
      if Extended_Pictographic host cp then Some (utf16 cp) else first_pictographic r
  | None :: r => first_pictographic r
  end.

(** [res?.choices[0]?.message?.content.replace(...) ?? null]: here the
    content itself is not guarded, so a message without a string content
    is a TypeError, and nothing catches it. *)
Definition generateEmoji_decode (res : value) : completion value :=
  response <-
    (if is_nullish res then Ret VNull
     else
       first <- get (get_nn res (lit "choices")) (lit "0") ;;
       let message := get_opt first (lit "message") in
       if is_nullish message then Ret VNull
       else
         content <- get message (lit "content") ;;
         match content with
         | VUndefined | VNull => raise NullDeref
         | VStr text => Ret (VStr (strip_quotes text))
         | _ => raise NotAFunction
         end) ;;
  match response with
  | VStr (c :: text) =>
      match first_pictographic (code_points (c :: text)) with
      | Some emoji => Ret (VStr emoji)
      | None => Ret VNull
      end
  | _ => Ret VNull
  end.

Definition generateEmoji (token model : jstring) (prompt chat_id : value)
  : completion value :=
  settled <- task_settle (fetch (generateEmoji_request token model prompt chat_id)) ;;
  let '(res, error) := settled in
  if truthy error then Throw (ExnValue error)
  else generateEmoji_decode res.

(** ** generateQueries *)

Definition generateQueries_request (token model : jstring) (messages prompt type : value)
  : request :=
  task_request "/api/v1/tasks/queries/completions" token
    [(lit "model", VStr model); (lit "messages", messages);
     (lit "prompt", prompt); (lit "type", type)].

(** [response] is computed before the [try]; inside it the text is
    searched as it is, without replacing any quote.  An array has
    [indexOf] and [lastIndexOf] but no [substring], so for every content
    that is not a string the block ends in the handler or at the final
    [return], which return the same. *)
Definition generateQueries_decode (res : value) : completion value :=
  content <- completion_content res ;;
  let response := nullish_or content (VStr []) in
  try_catch
    (text <- as_string response ;;
     match parse_braces text with
     | Some parsing =>
         parsed <- parsing ;;
         if has_truthy parsed (lit "queries")
         then Ret (array_or_empty (get_nn parsed (lit "queries")))
         else Ret (VArr [])
     | None => Ret (VArr [response])
     end)
    (fun _ => Ret (VArr [response])).

Definition generateQueries (token model : jstring) (messages prompt type : value)
  : completion value :=
  settled <- task_settle (fetch (generateQueries_request token model messages prompt type)) ;;
  let '(res, error) := settled in
  if truthy error then Throw (ExnValue error)
  else generateQueries_decode res.

(** ** generateAutoCompletion *)

Definition generateAutoCompletion_request (token model : jstring)
    (prompt messages type : value) : request :=
  task_request "/api/v1/tasks/auto/completions" token
    ([(lit "model", VStr model); (lit "prompt", prompt)]
       ++ optional_entry (lit "messages") messages
       ++ [(lit "type", type); (lit "stream", VBool false)]).

Definition generateAutoCompletion_decode (res : value) : completion value :=
  content <- completion_content res ;;
  let response := nullish_or content (VStr []) in
  try_catch
    (text <- as_string response ;;
     match parse_braces text with
     | Some parsing =>
         parsed <- parsing ;;
         if has_truthy parsed (lit "text") then Ret (get_nn parsed (lit "text"))
         else Ret (VStr [])
     | None => Ret response
     end)
    (fun _ => Ret response).

Definition generateAutoCompletion (token model : jstring)
    (prompt messages type : value) : completion value :=
  settled <- task_settle
               (fetch (generateAutoCompletion_request token model prompt messages type)) ;;
  let '(res, error) := settled in
  if truthy error then Throw (ExnValue error)
  else generateAutoCompletion_decode res.


(* ===================================================================== *)
(** * 8. Tool servers                                                      *)
(* ===================================================================== *)

(** The request of [getToolServerData]; what it does with the answer
    goes through the YAML parser and [convertOpenApiToToolPayload], which
    are not part of this file. *)
Definition getToolServerData_request (token url : jstring) : request :=
  {| req_url := url;
     req_method := lit "GET";
     req_headers := json_headers ++ bearer_if_token token;
     req_body := None |}.

(** [Array.prototype.find] and [some] with a predicate that can throw:
    the scan stops at the first hit. *)
Fixpoint findM {A} (p : A -> completion bool) (l : list A) : completion (option A) :=
  match l with
  | [] => Ret None
  | x :: r =>
      hit <- p x ;;
      if (hit : bool) then Ret (Some x) else findM p r
  end.

Definition someM {A} (p : A -> completion bool) (l : list A) : completion bool :=
  found <- findM p l ;;
  Ret (match found with Some _ => true | None => false end).

(** [operation.operationId === name] *)
Definition is_operation (name : jstring) (entry : jstring * value) : completion bool :=
  id <- get (snd entry) (lit "operationId") ;;
  Ret (match id with VStr s => str_eqb s name | _ => false end).

Definition strict_eq_string (v : value) (s : string) : bool :=
  match v with VStr x => str_eqb x (lit s) | _ => false end.

(** One step of [operation.parameters.forEach]: a declared parameter
    that the arguments have is filed under path or query. *)
Definition file_parameter (params : value) (acc : props * props) (param : value)
  : completion (props * props) :=
  let '(pathParams, queryParams) := acc in
  paramName <- get param (lit "name") ;;
  paramIn <- get param (lit "in") ;;
  has <- hasOwnProperty params paramName ;;
  if (has : bool) then
    if strict_eq_string paramIn "path" then
      key <- ToString paramName ;;
      Ret (obj_set key (get_nn params key) pathParams, queryParams)
    else if strict_eq_string paramIn "query" then
      key <- ToString paramName ;;
      Ret (pathParams, obj_set key (get_nn params key) queryParams)
    else Ret acc
  else Ret acc.

Fixpoint foldM {A B} (f : A -> B -> completion A) (l : list B) (a : A) : completion A :=
  match l with
  | [] => Ret a
  | x :: r => a' <- f a x ;; foldM f r a'
  end.

(** [finalUrl.replace(new RegExp(`{${key}}`, 'g'), encodeURIComponent(value))]:
    the pattern is built first, then the value is encoded. *)
Definition substitute_path_param (finalUrl : jstring) (kv : jstring * value)
  : completion jstring :=
  let source := [c_lbrace] ++ fst kv ++ [c_rbrace] in
  if RegExp_valid host source then
    encoded <- encodeURIComponent (snd kv) ;;
    Ret (RegExp_replace_all host source finalUrl encoded)
  else raise RegExpSyntax.

(** [Object.entries(queryParams).map(([k, v]) => [k, String(v)])] *)
Definition query_pairs (queryParams : props) : completion (list (jstring * jstring)) :=
  mapM (fun kv => s <- ToString (snd kv) ;; Ret (fst kv, s)) queryParams.

Definition and_then (a b : value) : value := if truthy a then b else a.

(** The part of [executeToolServer] that leads to the [fetch] call. *)
Definition executeToolServer_request (token url name : jstring)
    (params serverData : value) : completion request :=
  openapi <- get serverData (lit "openapi") ;;
  paths <- get openapi (lit "paths") ;;
  routes <- Object_entries paths ;;
  matchingRoute <-
    findM (fun route => methods <- Object_entries (snd route) ;;
                        someM (is_operation name) methods) routes ;;
  match matchingRoute with
  | None => throw_error (lit "No matching route found for operationId: " ++ name)
  | Some (routePath, methods) =>
      entries <- Object_entries methods ;;
      methodEntry <- findM (is_operation name) entries ;;
      match methodEntry with
      | None => throw_error (lit "No matching method found for operationId: " ++ name)
      | Some (httpMethod, operation) =>
          parameters <- get operation (lit "parameters") ;;
          filed <-
            (if truthy parameters then
               match parameters with
               | VArr l => foldM (file_parameter params) l ([], [])
               | _ => raise NotAFunction
               end
             else Ret ([], [])) ;;
          let '(pathParams, queryParams) := (filed : props * props) in
          finalUrl <- foldM substitute_path_param pathParams (url ++ routePath) ;;
          finalUrl <-
            (match queryParams with
             | [] => Ret finalUrl
             | _ :: _ =>
                 pairs <- query_pairs queryParams ;;
                 Ret (finalUrl ++ [63] ++ URLSearchParams_toString pairs)
             end) ;;
          let requestBody := get_nn operation (lit "requestBody") in
          bodyParams <-
            (if truthy requestBody && truthy (get_nn requestBody (lit "content")) then
               match params with
               | VUndefined =>
                   throw_error (lit "Request body expected for operation '" ++ name
                                  ++ lit "' but none found.")
               | _ => Ret params
               end
             else Ret (VObj [])) ;;
          let headers :=
            [(lit "Content-Type", lit "application/json")] ++ bearer_if_token token in
          Ret {| req_url := finalUrl;
                 req_method := toUpperCase host httpMethod;
                 req_headers := headers;
                 req_body :=
                   if existsb (str_eqb (toLowerCase host httpMethod))
                        [lit "post"; lit "put"; lit "patch"]
                      && truthy requestBody
                   then Some bodyParams else None |}
      end
  end.

(** [`HTTP error! Status: ${res.status}. Message: ${resText}`] *)
Definition http_error_text (r : response) : jstring :=
  lit "HTTP error! Status: " ++ index_string (status r)
    ++ lit ". Message: " ++ body r.

(** The body of the [try] block. *)
Definition executeToolServer_try (token url name : jstring)
    (params serverData : value) : completion value :=
  req <- executeToolServer_request token url name params serverData ;;
  match fetch req with
  | Rejected why => Throw (ExnError (Text why))
  | Responded res =>
      if negb (ok res) then throw_error (http_error_text res)
      else JSON_parse (body res)
  end.

(** [catch (err) { error = err.message; ...; return { error }; }] *)
Definition executeToolServer_catch (err : exn) : completion value :=
  error <- exn_get err (lit "message") ;;
  Ret (VObj [(lit "error", error)]).

Definition executeToolServer (token url name : jstring)
    (params serverData : value) : completion value :=
  try_catch (executeToolServer_try token url name params serverData)
            executeToolServer_catch.


(* ===================================================================== *)
(** * 9. The model catalogue                                               *)
(* ===================================================================== *)

(** One entry of [OPENAI_API_CONFIGS].  A field that is absent reads as
    undefined; [model_ids] is the list after [?? []]. *)
Record ApiConfig := {
  enable : value;
  model_ids : list value;
  prefix_id : value;
  tags : value
}.

(** [{}], which also stands for a null entry after [?? {}] *)
Definition empty_config : ApiConfig :=
  {| enable := VUndefined; model_ids := []; prefix_id := VUndefined; tags := VUndefined |}.

(** The [connections] argument: two arrays indexed by connection and an
    object from connection index to configuration. *)
Record Connections := {
  OPENAI_API_BASE_URLS : list value;
  OPENAI_API_KEYS : list value;
  OPENAI_API_CONFIGS : list (jstring * ApiConfig)
}.

Fixpoint config_lookup (idx : jstring) (configs : list (jstring * ApiConfig))
  : option ApiConfig :=
  match configs with
  | [] => None
  | (k, c) :: r => if str_eqb idx k then Some c else config_lookup idx r
  end.

(** [idx.toString() in OPENAI_API_CONFIGS] *)
Definition has_config (configs : list (jstring * ApiConfig)) (idx : jstring) : bool :=
  match config_lookup idx configs with Some _ => true | None => false end.

(** [OPENAI_API_CONFIGS[idx.toString()] ?? {}] *)
Definition config_at (configs : list (jstring * ApiConfig)) (idx : jstring) : ApiConfig :=
  match config_lookup idx configs with Some c => c | None => empty_config end.

(** The settled outcome of the call [getOpenAIModelsDirect(url, key)]
    made for connection [idx]; the function itself lives in
    [./openai]. *)
Variable direct_outcome : jstring -> value -> value -> completion value.

Definition getModels_request (token : jstring) (base : bool) : request :=
  {| req_url := WEBUI_BASE_URL ++ lit "/api/models" ++ (if base then lit "/base" else []);
     req_method := lit "GET";
     req_headers := json_headers ++ bearer_if_token token;
     req_body := None |}.

(** The promises pushed on [requests], each with the index [idx] of the
    iteration that created it. *)
Inductive pending :=
| Synthesized (idx : jstring) (modelList : value)
| Direct (idx : jstring) (url key : value)
| Disabled (idx : jstring).

Definition origin (p : pending) : jstring :=
  match p with
  | Synthesized idx _ | Direct idx _ _ | Disabled idx => idx
  end.

(** [{ object: 'list', data: [], urlIdx: idx }] *)
Definition empty_listing (idx : jstring) : value :=
  VObj [(lit "object", VStr (lit "list")); (lit "data", VArr []);
        (lit "urlIdx", VStr idx)].

Definition synthesized_model (idx : jstring) (modelId : value) : value :=
  VObj (obj_of [(lit "id", modelId); (lit "name", modelId);
                (lit "owned_by", VStr (lit "openai"));
                (lit "openai", VObj [(lit "id", modelId)]);
                (lit "urlIdx", VStr idx)]).

(** The body of the first loop for one index of
    [OPENAI_API_BASE_URLS]: nothing is pushed for an index without a
    configuration. *)
Definition request_for (c : Connections) (i : nat) (url : value) : list pending :=
  let idx := index_string (N.of_nat i) in
  if has_config (OPENAI_API_CONFIGS c) idx then
    let apiConfig := config_at (OPENAI_API_CONFIGS c) idx in
    let enable := nullish_or (enable apiConfig) (VBool true) in
    let modelIds := model_ids apiConfig in
    if truthy enable then
      match modelIds with
      | _ :: _ =>
          [Synthesized idx
             (VObj [(lit "object", VStr (lit "list"));
                    (lit "data", VArr (map (synthesized_model idx) modelIds))])]
      | [] => [Direct idx url (nth i (OPENAI_API_KEYS c) VUndefined)]
      end
    else [Disabled idx]
  else [].

Fixpoint requests_from (c : Connections) (i : nat) (urls : list value) : list pending :=
  match urls with
  | [] => []
  | url :: r => request_for c i url ++ requests_from c (S i) r
  end.

Definition requests (c : Connections) : list pending :=
  requests_from c 0 (OPENAI_API_BASE_URLS c).

(** What a pushed promise resolves to; none of them rejects, since the
    direct call carries its own [catch]. *)
Definition settle (p : pending) : value :=
  match p with
  | Synthesized _ modelList => modelList
  | Direct idx url key =>
      match direct_outcome idx url key with
      | Ret res => res
      | Throw _ => empty_listing idx
      end
  | Disabled idx => empty_listing idx
  end.

(** [models.map((model) => ({ ...model, openai: { id: model.id }, urlIdx: idx }))] *)
Definition tag_origin (idx : jstring) (model : value) : completion props :=
  id <- get model (lit "id") ;;
  Ret (obj_assign (spread model)
         [(lit "openai", VObj [(lit "id", id)]); (lit "urlIdx", VStr idx)]).

(** [model.id = `${prefixId}.${model.id}`] *)
Definition apply_prefix (prefixId : value) (model : props) : completion props :=
  p <- ToString prefixId ;;
  id <- ToString (get_nn (VObj model) (lit "id")) ;;
  Ret (obj_set (lit "id") (VStr (p ++ [c_dot] ++ id)) model).

(** The body of the second loop for the response at position [i]. *)
Definition local_models (c : Connections) (i : nat) (response : value)
  : completion (list props) :=
  let idx := index_string (N.of_nat i) in
  let apiConfig := config_at (OPENAI_API_CONFIGS c) idx in
  let listed :=
    if Array_isArray response then response
    else nullish_or (get_opt response (lit "data")) (VArr []) in
  models <-
    (match listed with
     | VArr l => mapM (tag_origin idx) l
     | _ => raise NotAFunction
     end) ;;
  let prefixId := prefix_id apiConfig in
  models <- (if truthy prefixId then mapM (apply_prefix prefixId) models else Ret models) ;;
  let tags := tags apiConfig in
  Ret (if truthy tags then map (obj_set (lit "tags") tags) models else models).

Fixpoint local_models_from (c : Connections) (i : nat) (responses : list value)
  : completion (list props) :=
  match responses with
  | [] => Ret []
  | response :: r =>
      models <- local_models c i response ;;
      rest <- local_models_from c (S i) r ;;
      Ret (models ++ rest)
  end.

(** [{ ...model, name: model?.name ?? model?.id, direct: true }] *)
Definition mark_direct (model : props) : value :=
  VObj (obj_assign model
          [(lit "name", nullish_or (get_nn (VObj model) (lit "name"))
                                   (get_nn (VObj model) (lit "id")));
           (lit "direct", VBool true)]).

(** The units of a string as [for ... of] yields them: by code point, a
    surrogate pair staying together. *)
Fixpoint string_iter (s : jstring) : list value :=
  match s with
  | [] => []
  | c :: r =>
      match r with
      | d :: r' =>
          if is_high_surrogate c && is_low_surrogate d
          then VStr [c; d] :: string_iter r'
          else VStr [c] :: string_iter r
      | [] => [VStr [c]]
      end
  end.

(** [models.concat(more)] followed by [for (const model of models)]: the
    elements the last loop sees.  The base listing is an array in
    practice; a string has a [concat] of its own, which appends the text
    of [more], and is iterated by code point; nothing else has a
    [concat]. *)
Definition concat_then_iterate (models : value) (more : list value)
  : completion (list value) :=
  match models with
  | VArr l => Ret (l ++ more)
  | VStr s => text <- ToString (VArr more) ;; Ret (string_iter (s ++ text))
  | _ => raise NotAFunction
  end.

(** [modelsMap[model.id] = model] *)
Definition put_model (modelsMap : props) (model : value) : completion props :=
  id <- get model (lit "id") ;;
  key <- ToString id ;;
  Ret (obj_set key model modelsMap).

(** The branch [if (connections && !base)]. *)
Definition merge_connections (c : Connections) (models : value) : completion value :=
  let responses := map settle (requests c) in
  localModels <- local_models_from c 0 responses ;;
  merged <- concat_then_iterate models (map mark_direct localModels) ;;
  modelsMap <- foldM put_model merged [] ;;
  Ret (VArr (map snd modelsMap)).

Definition getModels (token : jstring) (connections : option Connections)
    (base : bool) : completion value :=
  res <-
    (match await_then_json (fetch (getModels_request token base)) with
     | Ret res => Ret res
     | Throw err => if truthy_exn err then Throw err else Ret VNull
     end) ;;
  let models := nullish_or (get_opt res (lit "data")) (VArr []) in
  match connections with
  | Some c => if negb base then merge_connections c models else Ret models
  | None => Ret models
  end.


(* ===================================================================== *)
(** * 10. The plain calls                                                  *)
(* ===================================================================== *)

(** The other calls of the file are one [fetch] each, followed by the
    [then] of [then_json] and by one of three [catch] handlers, which
    differ in what they store in [error].  [error] starts as null; each
    chain below gives the pair of [res] and [error] that the function
    goes on with. *)

(** [.catch((err) => { console.error(err); error = err; return null; })] *)
Definition catch_raw (f : fetch_result) : value * exn :=
  match await_then_json f with
  | Ret res => (res, ExnValue VNull)
  | Throw err => (VNull, err)
  end.

(** [.catch((err) => { console.error(err);
                       if ('detail' in err) { error = err.detail; }
                       else { error = err; }
                       return null; })]: the [in] test throws on a
    primitive, and that TypeError leaves the handler. *)
Definition catch_detail (f : fetch_result) : completion (value * exn) :=
  match await_then_json f with
  | Ret res => Ret (res, ExnValue VNull)
  | Throw err =>
      has <- exn_has (lit "detail") err ;;
      if (has : bool) then detail <- exn_get err (lit "detail") ;; Ret (VNull, ExnValue detail)
      else Ret (VNull, err)
  end.

(** [.catch((err) => { console.error(err); error = err.detail; return null; })] *)
Definition catch_detail_only (f : fetch_result) : completion (value * exn) :=
  match await_then_json f with
  | Ret res => Ret (res, ExnValue VNull)
  | Throw err => detail <- exn_get err (lit "detail") ;; Ret (VNull, ExnValue detail)
  end.

(** [if (error) { throw error; }] and what follows it. *)
Definition unless_error {A} (settled : value * exn) (rest : value -> completion A)
  : completion A :=
  let '(res, error) := settled in
  if truthy_exn error then Throw error else rest res.

(** The headers of the calls that always send the token. *)
Definition bearer_headers (token : jstring) : list (jstring * jstring) :=
  [(lit "Content-Type", lit "application/json");
   (lit "Authorization", lit "Bearer " ++ token)].

(** ** Chats and tasks *)

Definition chatCompleted_request (token : jstring) (body : value) : request :=
  {| req_url := WEBUI_BASE_URL ++ lit "/api/chat/completed";
     req_method := lit "POST";
     req_headers := json_headers ++ bearer_if_token token;
     req_body := Some body |}.

Definition chatCompleted (token : jstring) (body : value) : completion value :=
  settled <- catch_detail (fetch (chatCompleted_request token body)) ;;
  unless_error settled (fun res => Ret res).

Definition chatAction_request (token action_id : jstring) (body : value) : request :=
  {| req_url := WEBUI_BASE_URL ++ lit "/api/chat/actions/" ++ action_id;
     req_method := lit "POST";
     req_headers := json_headers ++ bearer_if_token token;
     req_body := Some body |}.

Definition chatAction (token action_id : jstring) (body : value) : completion value :=
  settled <- catch_detail (fetch (chatAction_request token action_id body)) ;;
  unless_error settled (fun res => Ret res).

Definition stopTask_request (token id : jstring) : request :=
  {| req_url := WEBUI_BASE_URL ++ lit "/api/tasks/stop/" ++ id;
     req_method := lit "POST";
     req_headers := json_headers ++ bearer_if_token token;
     req_body := None |}.

Definition stopTask (token id : jstring) : completion value :=
  settled <- catch_detail (fetch (stopTask_request token id)) ;;
  unless_error settled (fun res => Ret res).

Definition getTaskIdsByChatId_request (token chat_id : jstring) : request :=
  {| req_url := WEBUI_BASE_URL ++ lit "/api/tasks/chat/" ++ chat_id;
     req_method := lit "GET";
     req_headers := json_headers ++ bearer_if_token token;
     req_body := None |}.

Definition getTaskIdsByChatId (token chat_id : jstring) : completion value :=
  settled <- catch_detail (fetch (getTaskIdsByChatId_request token chat_id)) ;;
  unless_error settled (fun res => Ret res).

Definition getTaskConfig_request (token : jstring) : request :=
  {| req_url := WEBUI_BASE_URL ++ lit "/api/v1/tasks/config";
     req_method := lit "GET";
     req_headers := json_headers ++ bearer_if_token token;
     req_body := None |}.

Definition getTaskConfig (token : jstring) : completion value :=
  unless_error (catch_raw (fetch (getTaskConfig_request token))) (fun res => Ret res).

Definition updateTaskConfig_request (token : jstring) (config : value) : request :=
  {| req_url := WEBUI_BASE_URL ++ lit "/api/v1/tasks/config/update";
     req_method := lit "POST";
     req_headers := json_headers ++ bearer_if_token token;
     req_body := Some config |}.

Definition updateTaskConfig (token : jstring) (config : value) : completion value :=
  settled <- catch_detail (fetch (updateTaskConfig_request token config)) ;;
  unless_error settled (fun res => Ret res).

(** ** generateMoACompletion *)

(** The [AbortController] that the caller gets back.  The function
    creates it and hands its signal to [fetch]; nothing aborts it before
    the function returns. *)
Inductive AbortController := new_AbortController.

Definition generateMoACompletion_request (token model : jstring)
    (prompt responses : value) : request :=
  {| req_url := WEBUI_BASE_URL ++ lit "/api/v1/tasks/moa/completions";
     req_method := lit "POST";
     req_headers := json_headers ++ [(lit "Authorization", lit "Bearer " ++ token)];
     req_body := Some (VObj (obj_of [(lit "model", VStr model); (lit "prompt", prompt);
                                     (lit "responses", responses);
                                     (lit "stream", VBool true)])) |}.

(** There is no [then] here: the response itself is returned, whatever
    its status, next to the controller. *)
Definition generateMoACompletion (token model : jstring) (prompt responses : value)
  : completion (response * AbortController) :=
  let controller := new_AbortController in
  match fetch (generateMoACompletion_request token model prompt responses) with
  | Rejected why => Throw (ExnError (Text why))
  | Responded res => Ret (res, controller)
  end.

(** ** Pipelines *)

Definition getPipelinesList_request (token : jstring) : request :=
  {| req_url := WEBUI_BASE_URL ++ lit "/api/v1/pipelines/list";
     req_method := lit "GET";
     req_headers := json_headers ++ bearer_if_token token;
     req_body := None |}.

Definition getPipelinesList (token : jstring) : completion value :=
  unless_error (catch_raw (fetch (getPipelinesList_request token)))
    (fun res => Ret (nullish_or (get_opt res (lit "data")) (VArr []))).

Definition downloadPipeline_request (token url urlIdx : jstring) : request :=
  {| req_url := WEBUI_BASE_URL ++ lit "/api/v1/pipelines/add";
     req_method := lit "POST";
     req_headers := json_headers ++ bearer_if_token token;
     req_body := Some (VObj (obj_of [(lit "url", VStr url); (lit "urlIdx", VStr urlIdx)])) |}.

Definition downloadPipeline (token url urlIdx : jstring) : completion value :=
  settled <- catch_detail (fetch (downloadPipeline_request token url urlIdx)) ;;
  unless_error settled (fun res => Ret res).

Definition deletePipeline_request (token id urlIdx : jstring) : request :=
  {| req_url := WEBUI_BASE_URL ++ lit "/api/v1/pipelines/delete";
     req_method := lit "DELETE";
     req_headers := json_headers ++ bearer_if_token token;
     req_body := Some (VObj (obj_of [(lit "id", VStr id); (lit "urlIdx", VStr urlIdx)])) |}.

Definition deletePipeline (token id urlIdx : jstring) : completion value :=
  settled <- catch_detail (fetch (deletePipeline_request token id urlIdx)) ;;
  unless_error settled (fun res => Ret res).

(** [searchParams.toString()] after
    [if (urlIdx !== undefined) { searchParams.append('urlIdx', urlIdx); }];
    [None] is the argument left out. *)
Definition urlIdx_query (urlIdx : option jstring) : jstring :=
  URLSearchParams_toString
    (match urlIdx with
     | Some idx => [(lit "urlIdx", idx)]
     | None => []
     end).

Definition getPipelines_request (token : jstring) (urlIdx : option jstring) : request :=
  {| req_url := WEBUI_BASE_URL ++ lit "/api/v1/pipelines/?" ++ urlIdx_query urlIdx;
     req_method := lit "GET";
     req_headers := json_headers ++ bearer_if_token token;
     req_body := None |}.

Definition getPipelines (token : jstring) (urlIdx : option jstring) : completion value :=
  unless_error (catch_raw (fetch (getPipelines_request token urlIdx)))
    (fun res => Ret (nullish_or (get_opt res (lit "data")) (VArr []))).

Definition getPipelineValves_request (token pipeline_id : jstring)
    (urlIdx : option jstring) : request :=
  {| req_url := WEBUI_BASE_URL ++ lit "/api/v1/pipelines/" ++ pipeline_id
                  ++ lit "/valves?" ++ urlIdx_query urlIdx;
     req_method := lit "GET";
     req_headers := json_headers ++ bearer_if_token token;
     req_body := None |}.

Definition getPipelineValves (token pipeline_id : jstring) (urlIdx : option jstring)
  : completion value :=
  unless_error (catch_raw (fetch (getPipelineValves_request token pipeline_id urlIdx)))
    (fun res => Ret res).

Definition getPipelineValvesSpec_request (token pipeline_id : jstring)
    (urlIdx : option jstring) : request :=
  {| req_url := WEBUI_BASE_URL ++ lit "/api/v1/pipelines/" ++ pipeline_id
                  ++ lit "/valves/spec?" ++ urlIdx_query urlIdx;
     req_method := lit "GET";
     req_headers := json_headers ++ bearer_if_token token;
     req_body := None |}.

Definition getPipelineValvesSpec (token pipeline_id : jstring) (urlIdx : option jstring)
  : completion value :=
  unless_error (catch_raw (fetch (getPipelineValvesSpec_request token pipeline_id urlIdx)))
    (fun res => Ret res).

Definition updatePipelineValves_request (token pipeline_id : jstring) (valves : value)
    (urlIdx : option jstring) : request :=
  {| req_url := WEBUI_BASE_URL ++ lit "/api/v1/pipelines/" ++ pipeline_id
                  ++ lit "/valves/update?" ++ urlIdx_query urlIdx;
     req_method := lit "POST";
     req_headers := json_headers ++ bearer_if_token token;
     req_body := Some valves |}.

Definition updatePipelineValves (token pipeline_id : jstring) (valves : value)
    (urlIdx : option jstring) : completion value :=
  settled <- catch_detail
               (fetch (updatePipelineValves_request token pipeline_id valves urlIdx)) ;;
  unless_error settled (fun res => Ret res).

(** ** Configuration *)

(** The network as seen by a [fetch] with [credentials: 'include'],
    which [getBackendConfig] alone asks for. *)
Variable fetch_with_credentials : request -> fetch_result.

Definition getBackendConfig_request : request :=
  {| req_url := WEBUI_BASE_URL ++ lit "/api/config";
     req_method := lit "GET";
     req_headers := [(lit "Content-Type", lit "application/json")];
     req_body := None |}.

Definition getBackendConfig : completion value :=
  unless_error (catch_raw (fetch_with_credentials getBackendConfig_request))
    (fun res => Ret res).

Definition getChangelog_request : request :=
  {| req_url := WEBUI_BASE_URL ++ lit "/api/changelog";
     req_method := lit "GET";
     req_headers := [(lit "Content-Type", lit "application/json")];
     req_body := None |}.

Definition getChangelog : completion value :=
  unless_error (catch_raw (fetch getChangelog_request)) (fun res => Ret res).

Definition getVersionUpdates_request (token : jstring) : request :=
  {| req_url := WEBUI_BASE_URL ++ lit "/api/version/updates";
     req_method := lit "GET";
     req_headers := bearer_headers token;
     req_body := None |}.

Definition getVersionUpdates (token : jstring) : completion value :=
  unless_error (catch_raw (fetch (getVersionUpdates_request token))) (fun res => Ret res).

Definition getModelFilterConfig_request (token : jstring) : request :=
  {| req_url := WEBUI_BASE_URL ++ lit "/api/config/model/filter";
     req_method := lit "GET";
     req_headers := bearer_headers token;
     req_body := None |}.

Definition getModelFilterConfig (token : jstring) : completion value :=
  unless_error (catch_raw (fetch (getModelFilterConfig_request token)))
    (fun res => Ret res).

Definition updateModelFilterConfig_request (token : jstring) (enabled models : value)
  : request :=
  {| req_url := WEBUI_BASE_URL ++ lit "/api/config/model/filter";
     req_method := lit "POST";
     req_headers := bearer_headers token;
     req_body := Some (VObj (obj_of [(lit "enabled", enabled); (lit "models", models)])) |}.

Definition updateModelFilterConfig (token : jstring) (enabled models : value)
  : completion value :=
  unless_error (catch_raw (fetch (updateModelFilterConfig_request token enabled models)))
    (fun res => Ret res).

Definition getWebhookUrl_request (token : jstring) : request :=
  {| req_url := WEBUI_BASE_URL ++ lit "/api/webhook";
     req_method := lit "GET";
     req_headers := bearer_headers token;
     req_body := None |}.

(** [return res.url;]: [res] is not guarded. *)
Definition getWebhookUrl (token : jstring) : completion value :=
  unless_error (catch_raw (fetch (getWebhookUrl_request token)))
    (fun res => get res (lit "url")).

Definition updateWebhookUrl_request (token url : jstring) : request :=
  {| req_url := WEBUI_BASE_URL ++ lit "/api/webhook";
     req_method := lit "POST";
     req_headers := bearer_headers token;
     req_body := Some (VObj (obj_of [(lit "url", VStr url)])) |}.

Definition updateWebhookUrl (token url : jstring) : completion value :=
  unless_error (catch_raw (fetch (updateWebhookUrl_request token url)))
    (fun res => get res (lit "url")).

Definition getCommunitySharingEnabledStatus_request (token : jstring) : request :=
  {| req_url := WEBUI_BASE_URL ++ lit "/api/community_sharing";
     req_method := lit "GET";
     req_headers := bearer_headers token;
     req_body := None |}.

Definition getCommunitySharingEnabledStatus (token : jstring) : completion value :=
  unless_error (catch_raw (fetch (getCommunitySharingEnabledStatus_request token)))
    (fun res => Ret res).

Definition toggleCommunitySharingEnabledStatus_request (token : jstring) : request :=
  {| req_url := WEBUI_BASE_URL ++ lit "/api/community_sharing/toggle";
     req_method := lit "GET";
     req_headers := bearer_headers token;
     req_body := None |}.

Definition toggleCommunitySharingEnabledStatus (token : jstring) : completion value :=
  settled <- catch_detail_only
               (fetch (toggleCommunitySharingEnabledStatus_request token)) ;;
  unless_error settled (fun res => Ret res).

Definition getModelConfig_request (token : jstring) : request :=
  {| req_url := WEBUI_BASE_URL ++ lit "/api/config/models";
     req_method := lit "GET";
     req_headers := bearer_headers token;
     req_body := None |}.

(** [return res.models;] *)
Definition getModelConfig (token : jstring) : completion value :=
  unless_error (catch_raw (fetch (getModelConfig_request token)))
    (fun res => get res (lit "models")).

Definition updateModelConfig_request (token : jstring) (config : value) : request :=
  {| req_url := WEBUI_BASE_URL ++ lit "/api/config/models";
     req_method := lit "POST";
     req_headers := bearer_headers token;
     req_body := Some (VObj (obj_of [(lit "models", config)])) |}.

Definition updateModelConfig (token : jstring) (config : value) : completion value :=
  unless_error (catch_raw (fetch (updateModelConfig_request token config)))
    (fun res => Ret res).

(* ===================================================================== *)
(** * 11. Loading tool servers                                             *)
(* ===================================================================== *)

(** Two functions that [getToolServerData] calls are not part of the
    file: [parse] of the package [yaml], which reads a YAML text, and
    [convertOpenApiToToolPayload] of [$lib/utils], which derives the tool
    specifications from a document.  Both are taken as given, on the
    values of this model; either may throw. *)
Variable yaml_parse : jstring -> completion value.
Variable convertOpenApiToToolPayload : value -> completion value.

(** [localStorage.token]: the stored string, or undefined. *)
Variable localStorage_token : value.

(** [s.startsWith(p)], [s.endsWith(p)] and [s.includes(p)] on
    strings. *)
Definition starts_with (s p : jstring) : bool :=
  match strip_prefix p s with Some _ => true | None => false end.

Definition ends_with (s p : jstring) : bool := starts_with (rev s) (rev p).

Fixpoint string_includes (s p : jstring) : bool :=
  starts_with s p ||
  match s with
  | [] => false
  | _ :: r => string_includes r p
  end.

(** [url.toLowerCase()]: a method of strings only. *)
Definition lower_case (v : value) : completion jstring :=
  match v with
  | VUndefined | VNull => raise NullDeref
  | VStr s => Ret (toLowerCase host s)
  | _ => raise NotAFunction
  end.

(** The [then] of [getToolServerData]: a URL that ends in [.yaml] or
    [.yml] is read as YAML text, and its failure is thrown as text. *)
Definition then_document (url : value) (r : response) : completion value :=
  lower <- lower_case url ;;
  if ends_with lower (lit ".yaml") || ends_with lower (lit ".yml") then
    if negb (ok r) then Throw (ExnValue (VStr (body r)))
    else yaml_parse (body r)
  else then_json r.

(** [...(token && { authorization: `Bearer ${token}` })] for a token of
    any type. *)
Definition bearer_if_truthy (token : value) : completion (list (jstring * jstring)) :=
  if truthy token then
    text <- ToString token ;;
    Ret [(lit "authorization", lit "Bearer " ++ text)]
  else Ret [].

(** [getToolServerData], for arguments of any type: its callers pass
    what they find in the settings.  The request is that of
    [getToolServerData_request] when both are strings. *)
Definition getToolServerData (token url : value) : completion value :=
  target <- ToString url ;;
  authorization <- bearer_if_truthy token ;;
  let req := {| req_url := target;
                req_method := lit "GET";
                req_headers := json_headers ++ authorization;
                req_body := None |} in
  settled <-
    (match (match fetch req with
            | Rejected why => Throw (ExnError (Text why))
            | Responded r => then_document url r
            end) with
     | Ret res => Ret (res, ExnValue VNull)
     | Throw err =>
         has <- exn_has (lit "detail") err ;;
         if (has : bool)
         then detail <- exn_get err (lit "detail") ;; Ret (VNull, ExnValue detail)
         else Ret (VNull, err)
     end) ;;
  unless_error settled
    (fun res =>
       info <- get res (lit "info") ;;
       specs <- convertOpenApiToToolPayload res ;;
       Ret (VObj (obj_of [(lit "openapi", res); (lit "info", info);
                          (lit "specs", specs)]))).

(** [(server?.path ?? '').includes('://')]: strings and arrays have a
    method of that name, the array one comparing elements. *)
Definition includes (v : value) (p : jstring) : completion bool :=
  match v with
  | VUndefined | VNull => raise NullDeref
  | VStr s => Ret (string_includes s p)
  | VArr l => Ret (existsb (fun x => match x with
                                     | VStr s => str_eqb s p
                                     | _ => false
                                     end) l)
  | _ => raise NotAFunction
  end.

(** [(server?.path ?? '').startsWith('/')] *)
Definition startsWith (v : value) (p : jstring) : completion bool :=
  match v with
  | VUndefined | VNull => raise NullDeref
  | VStr s => Ret (starts_with s p)
  | _ => raise NotAFunction
  end.

(** The second argument of the call, and the [URL] of the message:
<<
   (server?.path ?? '').includes('://')
     ? server?.path
     : `${server?.url}${(server?.path ?? '').startsWith('/') ? '' : '/'}${server?.path}`
>> *)
Definition server_address (server : value) : completion value :=
  let path := nullish_or (get_opt server (lit "path")) (VStr []) in
  absolute <- includes path (lit "://") ;;
  if (absolute : bool) then Ret (get_opt server (lit "path"))
  else
    base <- ToString (get_opt server (lit "url")) ;;
    rooted <- startsWith path (lit "/") ;;
    rest <- ToString (get_opt server (lit "path")) ;;
    Ret (VStr (base ++ (if (rooted : bool) then [] else lit "/") ++ rest)).

(** [(server?.auth_type ?? 'bearer') === 'bearer' ? server?.key : localStorage.token] *)
Definition server_token (server : value) : value :=
  if strict_eq_string (nullish_or (get_opt server (lit "auth_type")) (VStr (lit "bearer")))
                      "bearer"
  then get_opt server (lit "key")
  else localStorage_token.

(** What the callback of [map] does for one server: the value its
    promise resolves to, and the [URL] of the message it shows when the
    server cannot be loaded (through [i18n.t] and [toast.error], which
    are taken to return).  The promise rejects when an argument of the
    call cannot be computed. *)
Definition load_server (server : value) : completion (value * list value) :=
  let token := server_token server in
  url <- server_address server ;;
  outcome <-
    (match getToolServerData token url with
     | Ret data => Ret (data, [])
     | Throw _ => URL <- server_address server ;; Ret (VNull, [URL])
     end) ;;
  let '(data, shown) := (outcome : value * list value) in
  if truthy data then
    Ret (VObj (obj_of [(lit "url", get_opt server (lit "url"));
                       (lit "openapi", get_nn data (lit "openapi"));
                       (lit "info", get_nn data (lit "info"));
                       (lit "specs", get_nn data (lit "specs"))]),
         shown)
  else Ret (VUndefined, shown).

(** [server?.config?.enable] *)
Definition server_enabled (server : value) : bool :=
  truthy (get_opt (get_opt server (lit "config")) (lit "enable")).

(** [getToolServersData]: the servers that are enabled are loaded, all
    of them awaited, and those that gave nothing are dropped. *)
Definition getToolServersData (servers : list value) : completion (list value) :=
  loaded <- mapM load_server (filter server_enabled servers) ;;
  Ret (filter truthy (map fst loaded)).

(** The messages that [getToolServersData] shows, one for each enabled
    server that could not be loaded, by server; every callback runs,
    whatever becomes of the others. *)
Definition getToolServersData_messages (servers : list value) : list value :=
  flat_map (fun server => match load_server server with
                          | Ret (_, shown) => shown
                          | Throw _ => []
                          end)
           (filter server_enabled servers).

End Program.

(* ===================================================================== *)
(** * 12. The constants                                                    *)
(* ===================================================================== *)

(** The base URLs of [$lib/constants], which the functions above take as
    [WEBUI_BASE_URL].  They depend on where the code runs: [browser] and
    [dev] are the flags of [$app/environment], and [location_hostname] is
    [location.hostname], read in the browser in development only. *)
Module constants.

Section Environment.

Variable browser : bool.
Variable dev : bool.
Variable location_hostname : jstring.

Definition WEBUI_HOSTNAME : jstring :=
  if browser then (if dev then location_hostname ++ lit ":8080" else []) else [].

Definition WEBUI_BASE_URL : jstring :=
  if browser then (if dev then lit "http://" ++ WEBUI_HOSTNAME else []) else [].

Definition WEBUI_API_BASE_URL : jstring := WEBUI_BASE_URL ++ lit "/api/v1".

Definition OLLAMA_API_BASE_URL : jstring := WEBUI_BASE_URL ++ lit "/ollama".

Definition OPENAI_API_BASE_URL : jstring := WEBUI_BASE_URL ++ lit "/openai".

Definition AUDIO_API_BASE_URL : jstring := WEBUI_BASE_URL ++ lit "/api/v1/audio".

Definition IMAGES_API_BASE_URL : jstring := WEBUI_BASE_URL ++ lit "/api/v1/images".

Definition RETRIEVAL_API_BASE_URL : jstring := WEBUI_BASE_URL ++ lit "/api/v1/retrieval".

End Environment.

End constants.

(* ===================================================================== *)
(** * 13. A host to run the model on                                       *)
(* ===================================================================== *)

(** The examples below run the model on a small host.  Its regular
    expressions cover the sources [{key}] whose key is made of ordinary
    characters and dots; its case mapping covers ASCII; it prints
    integers. *)
Module TestHost.

(** The syntax characters of a pattern. *)
Definition is_syntax_char (c : char16) : bool :=
  existsb (N.eqb c) [94; 36; 92; 46; 42; 43; 63; 40; 41; 91; 93; 123; 125; 124].

Inductive atom :=
| Exactly (c : char16)
| AnyChar.

(** A dot matches any unit but a line terminator. *)
Definition atom_matches (a : atom) (c : char16) : bool :=
  match a with
  | Exactly x => x =? c
  | AnyChar => negb (existsb (N.eqb c) [10; 13; 8232; 8233])
  end.

Fixpoint key_atoms (key : jstring) : option (list atom) :=
  match key with
  | [] => Some []
  | c :: r =>
      match key_atoms r with
      | Some rest =>
          if c =? c_dot then Some (AnyChar :: rest)
          else if is_syntax_char c then None
          else Some (Exactly c :: rest)
      | None => None
      end
  end.

(** [{n}], [{n,}] and [{n,m}] are quantifiers; at the start of a pattern
    there is nothing for them to repeat. *)
Definition is_quantifier_body (key : jstring) : bool :=
  let '(low, rest) := take_digits key [] in
  match low, rest with
  | _ :: _, [] => true
  | _ :: _, c :: high => (c =? c_comma) && forallb is_digit high
  | [], _ => false
  end.

(** The key of a source [{key}]. *)
Definition braced_key (source : jstring) : option jstring :=
  match source with
  | c :: r =>
      if c =? c_lbrace then
        match rev r with
        | d :: yek => if d =? c_rbrace then Some (rev yek) else None
        | [] => None
        end
      else None
  | [] => None
  end.

Definition compile (source : jstring) : option (list atom) :=
  match braced_key source with
  | Some key =>
      if is_quantifier_body key then None
      else match key_atoms key with
           | Some atoms => Some (Exactly c_lbrace :: atoms ++ [Exactly c_rbrace])
           | None => None
           end
  | None => None
  end.

Fixpoint matches_at (atoms : list atom) (s : jstring) : bool :=
  match atoms, s with
  | [], _ => true
  | a :: atoms', c :: s' => atom_matches a c && matches_at atoms' s'
  | _ :: _, [] => false
  end.

(** Replace every match, left to right, without overlap; a match of
    these patterns is as long as the pattern.  [skip] counts the units of
    the current match still to be dropped. *)
Fixpoint replace_matches (atoms : list atom) (replacement s : jstring) (skip : nat)
  : jstring :=
  match s with
  | [] => []
  | c :: r =>
      match skip with
      | S k => replace_matches atoms replacement r k
      | O =>
          if matches_at atoms s
          then replacement ++ replace_matches atoms replacement r (length atoms - 1)
          else c :: replace_matches atoms replacement r 0
      end
  end.

Definition valid (source : jstring) : bool :=
  match compile source with Some _ => true | None => false end.

(** The replacement is inserted as it is, which is what JavaScript does
    with a replacement that has no dollar sign. *)
Definition replace_all (source subject replacement : jstring) : jstring :=
  match compile source with
  | Some atoms => replace_matches atoms replacement subject 0
  | None => subject
  end.

Definition upper (c : char16) : char16 :=
  if (97 <=? c) && (c <=? 122) then c - 32 else c.

Definition lower (c : char16) : char16 :=
  if (65 <=? c) && (c <=? 90) then c + 32 else c.

(** The integer part of a number in decimal, which is [String(n)] for an
    integer below 2^53; the examples print no other number. *)
Definition print_number (n : number) : jstring :=
  let magnitude :=
    (if 0 <=? num_exp n then Z.of_N (num_mant n) * 10 ^ num_exp n
     else Z.of_N (num_mant n) / 10 ^ (- num_exp n))%Z in
  (if num_neg n && negb (magnitude =? 0)%Z then [45] else [])
    ++ index_string (Z.to_N magnitude).

Definition messages (f : fault) : jstring :=
  match f with
  | NullDeref => lit "Cannot read properties of undefined"
  | NotAFunction => lit "is not a function"
  | NotAnObject => lit "Cannot convert undefined or null to object"
  | NotPrimitive => lit "Cannot convert object to primitive value"
  | JsonSyntax => lit "Unexpected token in JSON"
  | UriMalformed => lit "URI malformed"
  | RegExpSyntax => lit "Invalid regular expression"
  end.

Definition host : Host :=
  {| Number_toString := print_number;
     RegExp_valid := valid;
     RegExp_replace_all := replace_all;
     toUpperCase := map upper;
     toLowerCase := map lower;
     (* the blocks U+1F300 to U+1FAFF, a part of the property *)
     Extended_Pictographic := fun cp => (127744 <=? cp) && (cp <=? 129791);
     fault_message := messages |}.

End TestHost.

(* ===================================================================== *)
(** * 14. Vocabulary of the statements                                     *)
(* ===================================================================== *)

Definition contains (c : char16) (s : jstring) : bool := existsb (N.eqb c) s.

(** The body of an answer of a task endpoint whose first choice carries
    [text]: [{ choices: [{ message: { content: text } }] }]. *)
Definition answer (text : jstring) : value :=
  VObj [(lit "choices",
         VArr [VObj [(lit "message", VObj [(lit "content", VStr text)])]])].

(** [fetch] answers [req] with a 2xx response whose JSON body holds the
    completion [text] at [choices[0].message.content]. *)
Definition answers_with (fetch : request -> fetch_result) (req : request)
    (text : jstring) : Prop :=
  exists r res,
    fetch req = Responded r /\ ok r = true /\
    JSON_parse (body r) = Ret res /\
    completion_content res = Ret (VStr text).

(** A text in which an object text, from its opening to its closing
    brace, stands between a prefix without opening brace and a suffix
    without closing brace. *)
Definition embeds (text before middle after : jstring) : Prop :=
  text = before ++ (c_lbrace :: middle ++ [c_rbrace]) ++ after /\
  contains c_lbrace before = false /\
  contains c_rbrace after = false.

(** ** The extractor of the specification

    Written from section 4.1 of the specification, to be compared with
    the decoders of the program: normalise the quote variants, locate the
    first opening brace and the last closing brace, slice the inclusive
    span between them and parse it strictly; the answer is absent when a
    brace is missing or the parse fails. *)

Definition spec_normalize (text : jstring) : jstring :=
  map (fun c => if existsb (N.eqb c) [39; 8217; 8216; 96] then 34 else c) text.

Fixpoint spec_first (c : char16) (s : jstring) : option nat :=
  match s with
  | [] => None
  | x :: r => if x =? c then Some O else option_map S (spec_first c r)
  end.

Fixpoint spec_last (c : char16) (s : jstring) : option nat :=
  match s with
  | [] => None
  | x :: r =>
      match spec_last c r with
      | Some n => Some (S n)
      | None => if x =? c then Some O else None
      end
  end.

(** The units at positions [first] to [last], both included. *)
Definition spec_slice (s : jstring) (first last : nat) : jstring :=
  firstn (last + 1 - first) (skipn first s).

Definition spec_extract (text : jstring) : option value :=
  let normalized := spec_normalize text in
  match spec_first c_lbrace normalized, spec_last c_rbrace normalized with
  | Some first, Some last =>
      match JSON_parse (spec_slice normalized first last) with
      | Ret object => Some object
      | Throw _ => None
      end
  | _, _ => None
  end.

(** What each decoder makes of the parsed value, and of its absence. *)
Definition title_of (extracted : option value) : value :=
  match extracted with
  | Some parsed =>
      if has_truthy parsed (lit "title") then get_nn parsed (lit "title") else VNull
  | None => VNull
  end.

Definition list_of (key : string) (extracted : option value) : value :=
  match extracted with
  | Some parsed =>
      if has_truthy parsed (lit key) then array_or_empty (get_nn parsed (lit key))
      else VArr []
  | None => VArr []
  end.

(** ** Responses for the examples *)

(** A JSON string literal for [s]. *)
Definition json_quote (s : jstring) : jstring :=
  [c_quote]
    ++ flat_map (fun c => if (c =? c_quote) || (c =? c_backslash)
                          then [c_backslash; c] else [c]) s
    ++ [c_quote].

(** A network that answers every request with status [code] and
    [text]. *)
Definition respond (code : N) (text : jstring) : request -> fetch_result :=
  fun _ => Responded {| status := code; body := text |}.

(** A task endpoint that answers 200 with the completion [text]. *)
Definition complete_with (text : jstring) : request -> fetch_result :=
  respond 200 (dq "{#choices#:[{#message#:{#content#:" ++ json_quote text ++ lit "}}]}").

(** ** Request headers *)

Definition ascii_lower (c : char16) : char16 :=
  if (65 <=? c) && (c <=? 90) then c + 32 else c.

(** Header names are compared without regard to case. *)
Definition header_named (name : string) (h : jstring * jstring) : bool :=
  str_eqb (map ascii_lower (fst h)) (lit name).

(** The value of the Authorization header of a request, if it has one. *)
Definition authorization (r : request) : option jstring :=
  option_map snd (find (header_named "authorization") (req_headers r)).

(** [Authorization: Bearer <token>] for a token that is not empty, no
    header for the empty one. *)
Definition bearer_unless_empty (token : jstring) : option jstring :=
  match token with
  | [] => None
  | _ :: _ => Some (lit "Bearer " ++ token)
  end.

(** ** OpenAPI documents *)

Definition operation_named (name : jstring) (operation : value) : bool :=
  match get_nn operation (lit "operationId") with
  | VStr s => str_eqb s name
  | _ => false
  end.



(** [{ error: message }] *)
Definition error_result (message : jstring) : value :=
  VObj [(lit "error", VStr message)].

(** The value of a JSON text of the examples. *)
Definition parsed (text : jstring) : value :=
  match JSON_parse text with
  | Ret v => v
  | Throw _ => VUndefined
  end.

(** A tool server with one operation, [GET /items/{id}], which takes the
    path parameter [id] and the query parameter [verbose]. *)
Definition items_server : value :=
  parsed (dq "{#openapi#: {#paths#: {#/items/{id}#: {#get#: {#operationId#: #getItem#, #parameters#: [{#name#: #id#, #in#: #path#}, {#name#: #verbose#, #in#: #query#}]}}}}}").

Definition items_arguments : value :=
  parsed (dq "{#id#: #42#, #verbose#: #true#}").

(** A tool server whose operation has two path parameters, one of them
    with a dot in its name. *)
Definition dotted_server : value :=
  parsed (dq "{#openapi#: {#paths#: {#/x/{a.b}/y/{aXb}#: {#get#: {#operationId#: #op#, #parameters#: [{#name#: #a.b#, #in#: #path#}, {#name#: #aXb#, #in#: #path#}]}}}}}").

Definition dotted_arguments : value :=
  parsed (dq "{#a.b#: #1#, #aXb#: #2#}").

(** ** The catalogue *)

(** The property key under which the last loop of [getModels] files a
    model: [model.id] as a string. *)
Definition model_key (host : Host) (model : value) : completion jstring :=
  id <- get model (lit "id") ;; ToString host id.





(** The connection indices, as the first loop of [getModels] sees
    them. *)
Definition indices (n : nat) : list jstring :=
  map (fun i => index_string (N.of_nat i)) (seq 0 n).

(** The index each pushed promise was created for. *)
Definition origins (c : Connections) : list jstring := map origin (requests c).

Fixpoint strs_eqb (a b : list jstring) : bool :=
  match a, b with
  | [], [] => true
  | x :: a', y :: b' => str_eqb x y && strs_eqb a' b'
  | _, _ => false
  end.

(** Every response sits at the position that is the index of its
    connection. *)
Definition positions_coincide (c : Connections) : bool :=
  strs_eqb (origins c) (indices (length (origins c))).

(** Every connection has an entry in [OPENAI_API_CONFIGS]. *)
Definition all_configured (c : Connections) : bool :=
  forallb (has_config (OPENAI_API_CONFIGS c))
          (indices (length (OPENAI_API_BASE_URLS c))).

(** ** A catalogue for the examples *)

(** The backend lists [gpt-4] and [llama3]. *)
Definition backend : request -> fetch_result :=
  respond 200 (dq "{#data#: [{#id#: #gpt-4#, #name#: #GPT-4#}, {#id#: #llama3#}]}").


Definition tagged : ApiConfig :=
  {| enable := VUndefined; model_ids := []; prefix_id := VUndefined;
     tags := VArr [VStr (lit "fast")] |}.

(** The first connection cannot be reached; the second lists its own
    [gpt-4]. *)
Definition first_fails : jstring -> value -> value -> completion value :=
  fun idx url key =>
    if str_eqb idx (lit "0") then Throw (ExnError (Text (lit "Failed to fetch")))
    else Ret (parsed (dq "{#data#: [{#id#: #gpt-4#, #owned_by#: #b#}]}")).

(** Two connections of which only the first has a configuration. *)
Definition one_configured : Connections :=
  {| OPENAI_API_BASE_URLS := [VStr (lit "https://a.example"); VStr (lit "https://b.example")];
     OPENAI_API_KEYS := [VStr (lit "key-a"); VStr (lit "key-b")];
     OPENAI_API_CONFIGS := [(lit "0", empty_config)] |}.

(** Two connections of which only the second has a configuration, with
    a prefix. *)
Definition second_configured : Connections :=
  {| OPENAI_API_BASE_URLS := [VStr (lit "https://a.example"); VStr (lit "https://b.example")];
     OPENAI_API_KEYS := [VStr (lit "key-a"); VStr (lit "key-b")];
     OPENAI_API_CONFIGS :=
       [(lit "1", {| enable := VUndefined; model_ids := [VStr (lit "m")];
                     prefix_id := VStr (lit "local"); tags := VUndefined |})] |}.



(** ** Well-formed listings *)





(** What the second loop of [getModels] stamps on the models of the
    response at position [i]: the position as urlIdx, and the tags and
    the prefix of the configuration at that position. *)
Definition stamped (host : Host) (c : Connections) (i : nat) (model : props) : Prop :=
  let idx := index_string (N.of_nat i) in
  let apiConfig := config_at (OPENAI_API_CONFIGS c) idx in
  obj_lookup (lit "urlIdx") model = Some (VStr idx) /\
  (truthy (tags apiConfig) = true ->
   obj_lookup (lit "tags") model = Some (tags apiConfig)) /\
  (truthy (prefix_id apiConfig) = true ->
   exists prefix rest,
     ToString host (prefix_id apiConfig) = Ret prefix /\
     obj_lookup (lit "id") model = Some (VStr (prefix ++ [c_dot] ++ rest))).

(** ** Exceptions *)


(* ===================================================================== *)
(** * 15. Vocabulary of the further results                                *)
(* ===================================================================== *)

(** ** Outcomes of a request *)

(** The network answers [req] with a response outside 2xx whose JSON
    body is [err]. *)
Definition fails_with (net : request -> fetch_result) (req : request) (err : value)
  : Prop :=
  exists r, net req = Responded r /\ ok r = false /\ JSON_parse (body r) = Ret err.

(** The network answers [req] with a 2xx response whose JSON body is
    [res]. *)
Definition succeeds_with (net : request -> fetch_result) (req : request) (res : value)
  : Prop :=
  exists r, net req = Responded r /\ ok r = true /\ JSON_parse (body r) = Ret res.

(** The network answers [req] with a response, of any status, whose
    body is not JSON. *)
Definition answers_garbage (net : request -> fetch_result) (req : request) : Prop :=
  exists r e, net req = Responded r /\ JSON_parse (body r) = Throw e.

Definition is_primitive (v : value) : bool :=
  match v with
  | VArr _ | VObj _ => false
  | _ => true
  end.

(** A network that cannot be reached. *)
Definition unreachable (why : jstring) : request -> fetch_result :=
  fun _ => Rejected why.

(** ** The plain calls, as data *)

(** One constructor for each plain call of the file, with its
    arguments. *)
Inductive call :=
| ChatCompleted (token : jstring) (body : value)
| ChatAction (token action_id : jstring) (body : value)
| StopTask (token id : jstring)
| GetTaskIdsByChatId (token chat_id : jstring)
| GetTaskConfig (token : jstring)
| UpdateTaskConfig (token : jstring) (config : value)
| GetPipelinesList (token : jstring)
| DownloadPipeline (token url urlIdx : jstring)
| DeletePipeline (token id urlIdx : jstring)
| GetPipelines (token : jstring) (urlIdx : option jstring)
| GetPipelineValves (token pipeline_id : jstring) (urlIdx : option jstring)
| GetPipelineValvesSpec (token pipeline_id : jstring) (urlIdx : option jstring)
| UpdatePipelineValves (token pipeline_id : jstring) (valves : value)
                       (urlIdx : option jstring)
| GetBackendConfig
| GetChangelog
| GetVersionUpdates (token : jstring)
| GetModelFilterConfig (token : jstring)
| UpdateModelFilterConfig (token : jstring) (enabled models : value)
| GetWebhookUrl (token : jstring)
| UpdateWebhookUrl (token url : jstring)
| GetCommunitySharingEnabledStatus (token : jstring)
| ToggleCommunitySharingEnabledStatus (token : jstring)
| GetModelConfig (token : jstring)
| UpdateModelConfig (token : jstring) (config : value).

Section Calls.

Variable host : Host.
Variable WEBUI_BASE_URL : jstring.
Variable fetch : request -> fetch_result.
Variable fetch_with_credentials : request -> fetch_result.

Definition request_of (c : call) : request :=
  match c with
  | ChatCompleted token body => chatCompleted_request WEBUI_BASE_URL token body
  | ChatAction token action_id body =>
      chatAction_request WEBUI_BASE_URL token action_id body
  | StopTask token id => stopTask_request WEBUI_BASE_URL token id
  | GetTaskIdsByChatId token chat_id =>
      getTaskIdsByChatId_request WEBUI_BASE_URL token chat_id
  | GetTaskConfig token => getTaskConfig_request WEBUI_BASE_URL token
  | UpdateTaskConfig token config => updateTaskConfig_request WEBUI_BASE_URL token config
  | GetPipelinesList token => getPipelinesList_request WEBUI_BASE_URL token
  | DownloadPipeline token url urlIdx =>
      downloadPipeline_request WEBUI_BASE_URL token url urlIdx
  | DeletePipeline token id urlIdx => deletePipeline_request WEBUI_BASE_URL token id urlIdx
  | GetPipelines token urlIdx => getPipelines_request WEBUI_BASE_URL token urlIdx
  | GetPipelineValves token pipeline_id urlIdx =>
      getPipelineValves_request WEBUI_BASE_URL token pipeline_id urlIdx
  | GetPipelineValvesSpec token pipeline_id urlIdx =>
      getPipelineValvesSpec_request WEBUI_BASE_URL token pipeline_id urlIdx
  | UpdatePipelineValves token pipeline_id valves urlIdx =>
      updatePipelineValves_request WEBUI_BASE_URL token pipeline_id valves urlIdx
  | GetBackendConfig => getBackendConfig_request WEBUI_BASE_URL
  | GetChangelog => getChangelog_request WEBUI_BASE_URL
  | GetVersionUpdates token => getVersionUpdates_request WEBUI_BASE_URL token
  | GetModelFilterConfig token => getModelFilterConfig_request WEBUI_BASE_URL token
  | UpdateModelFilterConfig token enabled models =>
      updateModelFilterConfig_request WEBUI_BASE_URL token enabled models
  | GetWebhookUrl token => getWebhookUrl_request WEBUI_BASE_URL token
  | UpdateWebhookUrl token url => updateWebhookUrl_request WEBUI_BASE_URL token url
  | GetCommunitySharingEnabledStatus token =>
      getCommunitySharingEnabledStatus_request WEBUI_BASE_URL token
  | ToggleCommunitySharingEnabledStatus token =>
      toggleCommunitySharingEnabledStatus_request WEBUI_BASE_URL token
  | GetModelConfig token => getModelConfig_request WEBUI_BASE_URL token
  | UpdateModelConfig token config => updateModelConfig_request WEBUI_BASE_URL token config
  end.

Definition run (c : call) : completion value :=
  match c with
  | ChatCompleted token body => chatCompleted host WEBUI_BASE_URL fetch token body
  | ChatAction token action_id body =>
      chatAction host WEBUI_BASE_URL fetch token action_id body
  | StopTask token id => stopTask host WEBUI_BASE_URL fetch token id
  | GetTaskIdsByChatId token chat_id =>
      getTaskIdsByChatId host WEBUI_BASE_URL fetch token chat_id
  | GetTaskConfig token => getTaskConfig WEBUI_BASE_URL fetch token
  | UpdateTaskConfig token config =>
      updateTaskConfig host WEBUI_BASE_URL fetch token config
  | GetPipelinesList token => getPipelinesList WEBUI_BASE_URL fetch token
  | DownloadPipeline token url urlIdx =>
      downloadPipeline host WEBUI_BASE_URL fetch token url urlIdx
  | DeletePipeline token id urlIdx =>
      deletePipeline host WEBUI_BASE_URL fetch token id urlIdx
  | GetPipelines token urlIdx => getPipelines WEBUI_BASE_URL fetch token urlIdx
  | GetPipelineValves token pipeline_id urlIdx =>
      getPipelineValves WEBUI_BASE_URL fetch token pipeline_id urlIdx
  | GetPipelineValvesSpec token pipeline_id urlIdx =>
      getPipelineValvesSpec WEBUI_BASE_URL fetch token pipeline_id urlIdx
  | UpdatePipelineValves token pipeline_id valves urlIdx =>
      updatePipelineValves host WEBUI_BASE_URL fetch token pipeline_id valves urlIdx
  | GetBackendConfig => getBackendConfig WEBUI_BASE_URL fetch_with_credentials
  | GetChangelog => getChangelog WEBUI_BASE_URL fetch
  | GetVersionUpdates token => getVersionUpdates WEBUI_BASE_URL fetch token
  | GetModelFilterConfig token => getModelFilterConfig WEBUI_BASE_URL fetch token
  | UpdateModelFilterConfig token enabled models =>
      updateModelFilterConfig WEBUI_BASE_URL fetch token enabled models
  | GetWebhookUrl token => getWebhookUrl WEBUI_BASE_URL fetch token
  | UpdateWebhookUrl token url => updateWebhookUrl WEBUI_BASE_URL fetch token url
  | GetCommunitySharingEnabledStatus token =>
      getCommunitySharingEnabledStatus WEBUI_BASE_URL fetch token
  | ToggleCommunitySharingEnabledStatus token =>
      toggleCommunitySharingEnabledStatus host WEBUI_BASE_URL fetch token
  | GetModelConfig token => getModelConfig WEBUI_BASE_URL fetch token
  | UpdateModelConfig token config => updateModelConfig WEBUI_BASE_URL fetch token config
  end.

(** The network a call goes through. *)
Definition network (c : call) : request -> fetch_result :=
  match c with
  | GetBackendConfig => fetch_with_credentials
  | _ => fetch
  end.

End Calls.

(** The [catch] handler of each call. *)
Inductive handler := KeepsError | PrefersDetail | OnlyDetail.

Definition handler_of (c : call) : handler :=
  match c with
  | ChatCompleted _ _ | ChatAction _ _ _ | StopTask _ _ | GetTaskIdsByChatId _ _
  | UpdateTaskConfig _ _ | DownloadPipeline _ _ _ | DeletePipeline _ _ _
  | UpdatePipelineValves _ _ _ _ => PrefersDetail
  | ToggleCommunitySharingEnabledStatus _ => OnlyDetail
  | _ => KeepsError
  end.

(** What each call returns of the answer [res]. *)
Inductive returned := Whole | Field (name : string) | DataOrEmpty.

Definition returned_of (c : call) : returned :=
  match c with
  | GetPipelinesList _ | GetPipelines _ _ => DataOrEmpty
  | GetWebhookUrl _ | UpdateWebhookUrl _ _ => Field "url"
  | GetModelConfig _ => Field "models"
  | _ => Whole
  end.

(** How each call treats its token. *)
Inductive credential := OmitsEmpty | AlwaysSends | SendsNone.

Definition credential_of (c : call) : credential :=
  match c with
  | GetBackendConfig | GetChangelog => SendsNone
  | GetVersionUpdates _ | GetModelFilterConfig _ | UpdateModelFilterConfig _ _ _
  | GetWebhookUrl _ | UpdateWebhookUrl _ _ | GetCommunitySharingEnabledStatus _
  | ToggleCommunitySharingEnabledStatus _ | GetModelConfig _ | UpdateModelConfig _ _ =>
      AlwaysSends
  | _ => OmitsEmpty
  end.

Definition token_of (c : call) : jstring :=
  match c with
  | ChatCompleted token _ | ChatAction token _ _ | StopTask token _
  | GetTaskIdsByChatId token _ | GetTaskConfig token | UpdateTaskConfig token _
  | GetPipelinesList token | DownloadPipeline token _ _ | DeletePipeline token _ _
  | GetPipelines token _ | GetPipelineValves token _ _ | GetPipelineValvesSpec token _ _
  | UpdatePipelineValves token _ _ _ | GetVersionUpdates token
  | GetModelFilterConfig token | UpdateModelFilterConfig token _ _
  | GetWebhookUrl token | UpdateWebhookUrl token _
  | GetCommunitySharingEnabledStatus token | ToggleCommunitySharingEnabledStatus token
  | GetModelConfig token | UpdateModelConfig token _ => token
  | GetBackendConfig | GetChangelog => []
  end.

(** ** What a task operation throws *)

(** [e] is thrown on behalf of the answer [f]: [f] is a response outside
    2xx with a JSON body, and [e] is the truthy [detail] of that body,
    or the TypeError of the [in] test when the body is not an object. *)
Definition detail_thrown (f : fetch_result) (e : exn) : Prop :=
  exists r err,
    f = Responded r /\ ok r = false /\ JSON_parse (body r) = Ret err /\
    ((exists o detail,
        err = VObj o /\ obj_lookup (lit "detail") o = Some detail /\
        truthy detail = true /\ e = ExnValue detail) \/
     (is_primitive err = true /\ e = ExnError (Engine NotAnObject))).

(** The request fails without a JSON body to read: [fetch] rejects, or
    the body of the response is not JSON. *)
Definition fails_unreadably (net : request -> fetch_result) (req : request) : Prop :=
  (exists why, net req = Rejected why) \/ answers_garbage net req.

(** ** Texts *)

(** A string whose units are 16-bit code units. *)
Definition code_units (s : jstring) : bool := forallb (fun c => c <? 65536) s.

(** [p] occurs in [s]. *)
Definition occurs_in (p s : jstring) : Prop :=
  exists before after, s = before ++ p ++ after.

(** A completion with the code point U+1F600 between words, for the
    examples. *)
Definition smiling : jstring := lit "Here: " ++ [55357; 56832] ++ lit " 'done'".

(** ** Operations of a document *)

(** The first route of [paths] that has an operation named [name], with
    the first such operation of that route: the route, the method key
    and the operation. *)
Definition first_declaration (name : jstring) (paths : props)
  : option (jstring * jstring * value) :=
  match find (fun route => existsb (fun method => operation_named name (snd method))
                                   (spread (snd route)))
             paths with
  | Some (routePath, methods) =>
      match find (fun method => operation_named name (snd method)) (spread methods) with
      | Some (httpMethod, operation) => Some (routePath, httpMethod, operation)
      | None => None
      end
  | None => None
  end.

(** The argument [key] with value [v] is supplied for a parameter that
    [operation] declares in [place]: some element of its [parameters]
    has that [in], its [name] is an own property of [params] and
    converts to [key], and [v] is what [params] holds there. *)
Definition supplied (host : Host) (place : string) (operation params : value)
    (key : jstring) (v : value) : Prop :=
  exists parameters param,
    get_nn operation (lit "parameters") = VArr parameters /\
    In param parameters /\
    strict_eq_string (get_nn param (lit "in")) place = true /\
    hasOwnProperty host params (get_nn param (lit "name")) = Ret true /\
    ToString host (get_nn param (lit "name")) = Ret key /\
    v = get_nn params key.

(** The methods whose request carries a body. *)
Definition carries_body (host : Host) (httpMethod : jstring) : bool :=
  existsb (str_eqb (toLowerCase host httpMethod)) [lit "post"; lit "put"; lit "patch"].

(** The request that [executeToolServer] builds for [getItem] of
    [items_server] with [items_arguments], at the base
    [https://tools.example] and with the token [token]. *)
Definition items_request : request :=
  {| req_url := lit "https://tools.example/items/42?verbose=true";
     req_method := lit "GET";
     req_headers := [(lit "Content-Type", lit "application/json");
                     (lit "authorization", lit "Bearer token")];
     req_body := None |}.

(** ** The order of the catalogue *)

(** The own-property order on keys: an array index goes before a larger
    index and before every key that is not an index. *)
Definition precedes (a b : jstring) : bool :=
  match array_index a, array_index b with
  | Some n, Some m => n <=? m
  | Some _, None => true
  | None, Some _ => false
  | None, None => true
  end.

(** A list of keys in which every key precedes the keys after it: the
    array indices first, in ascending order, then the other keys. *)
Fixpoint own_property_order (keys : list jstring) : bool :=
  match keys with
  | [] => true
  | k :: rest => forallb (precedes k) rest && own_property_order rest
  end.

(** A backend that lists the models [gpt], [10] and [9], in this order,
    and the catalogue that [getModels] makes of it. *)
Definition numbered_backend : request -> fetch_result :=
  respond 200 (dq "{#data#: [{#id#: #gpt#}, {#id#: #10#}, {#id#: #9#}]}").

Definition numbered_catalog : list value :=
  [parsed (dq "{#id#: #9#}"); parsed (dq "{#id#: #10#}"); parsed (dq "{#id#: #gpt#}")].

(** ** Tool servers *)

(** The test of [getToolServerData] on its URL: it ends in [.yaml] or
    [.yml] once in lower case. *)
Definition reads_yaml (host : Host) (url : jstring) : bool :=
  ends_with (toLowerCase host url) (lit ".yaml")
  || ends_with (toLowerCase host url) (lit ".yml").

(** The entry of [getToolServersData] for a server whose document has
    been loaded. *)
Definition server_entry (server document info specs : value) : value :=
  VObj [(lit "url", get_opt server (lit "url")); (lit "openapi", document);
        (lit "info", info); (lit "specs", specs)].

(** For the examples: a converter that finds no tool in any document,
    a tool server at [https://tools.example] that is enabled, the same
    server disabled, and a document. *)
Definition no_tools : value -> completion value := fun _ => Ret (VArr []).

Definition tools_server : value :=
  parsed (dq "{#url#: #https://tools.example#, #path#: #openapi.json#, #key#: #k#, #config#: {#enable#: true}}").

Definition disabled_server : value :=
  parsed (dq "{#url#: #https://off.example#, #path#: #openapi.json#, #config#: {#enable#: false}}").

Definition tools_document : jstring :=
  dq "{#openapi#: #3.1.0#, #info#: {#title#: #Items#}, #paths#: {}}".

(** ** URLs *)

(** The characters that delimit the parts of a URL and of its query:
    number sign, ampersand, slash, equals sign and question mark. *)
Definition delimiter (c : char16) : bool := existsb (N.eqb c) [35; 38; 47; 61; 63].

(** The requests of the functions that take no URL from their caller,
    for given arguments: [getModels], the task operations and
    [generateMoACompletion]. *)
Definition core_requests (WEBUI_BASE_URL token model : jstring)
    (messages prompt chat_id type responses : value) (base : bool) : list request :=
  [getModels_request WEBUI_BASE_URL token base;
   generateTitle_request WEBUI_BASE_URL token model messages chat_id;
   generateFollowUps_request WEBUI_BASE_URL token model messages chat_id;
   generateTags_request WEBUI_BASE_URL token model messages chat_id;
   generateEmoji_request WEBUI_BASE_URL token model prompt chat_id;
   generateQueries_request WEBUI_BASE_URL token model messages prompt type;
   generateAutoCompletion_request WEBUI_BASE_URL token model prompt messages type;
   generateMoACompletion_request WEBUI_BASE_URL token model prompt responses].


(** ** Models of a connection *)

(** The models that a response lists, as the second loop of [getModels]
    reads them: the response itself when it is an array, its [data]
    otherwise. *)
Definition listed_models (response : value) : list value :=
  match (if Array_isArray response then response
         else nullish_or (get_opt response (lit "data")) (VArr [])) with
  | VArr l => l
  | _ => []
  end.

(** ** The errors of a tool call *)

(** A computation that throws nothing but the engine's own errors and
    the [Error]s whose messages are in [texts]. *)
Definition throws_only {A} (texts : list jstring) (c : completion A) : Prop :=
  match c with
  | Ret _ => True
  | Throw (ExnError (Engine _)) => True
  | Throw (ExnError (Text s)) => In s texts
  | Throw (ExnValue _) => False
  end.

(** The three messages of [executeToolServer]. *)
Definition no_route (name : jstring) : jstring :=
  lit "No matching route found for operationId: " ++ name.

Definition no_method (name : jstring) : jstring :=
  lit "No matching method found for operationId: " ++ name.

Definition no_body (name : jstring) : jstring :=
  lit "Request body expected for operation '" ++ name ++ lit "' but none found.".
(* ===================================================================== *)
(** * 16. Strings: searching and slicing                                   *)
(* ===================================================================== *)

Lemma indexOf_from_absent c s i : ~ In c s -> indexOf_from c s i = (-1)%Z.
Proof.
  revert i; induction s as [|x r IH]; intros i H; simpl; [reflexivity|].
  destruct (N.eqb_spec x c) as [->|ne].
  - exfalso; apply H; left; reflexivity.
  - apply IH. intro; apply H; right; assumption.
Qed.

Lemma indexOf_from_first c p r i :
  ~ In c p -> indexOf_from c (p ++ c :: r) i = (i + Z.of_nat (length p))%Z.
Proof.
  revert i; induction p as [|x p IH]; intros i H; simpl.
  - rewrite N.eqb_refl. lia.
  - destruct (N.eqb_spec x c) as [->|ne].
    + exfalso; apply H; left; reflexivity.
    + rewrite IH; [lia|]. intro; apply H; right; assumption.
Qed.

Lemma indexOf_from_found c s i :
  In c s -> exists p r, s = p ++ c :: r /\ ~ In c p /\
                        indexOf_from c s i = (i + Z.of_nat (length p))%Z.
Proof.
  revert i; induction s as [|x s IH]; intros i H; [destruct H|].
  simpl. destruct (N.eqb_spec x c) as [->|ne].
  - exists [], s. repeat split; [intros [] | simpl; lia].
  - destruct H as [H|H]; [congruence|].
    destruct (IH (i + 1)%Z H) as (p & r & -> & Hp & E).
    exists (x :: p), r. repeat split.
    + intros [H'|H']; [congruence | exact (Hp H')].
    + rewrite E. simpl length. lia.
Qed.

Lemma lastIndexOf_from_absent c s i found :
  ~ In c s -> lastIndexOf_from c s i found = found.
Proof.
  revert i found; induction s as [|x r IH]; intros i found H; simpl; [reflexivity|].
  destruct (N.eqb_spec x c) as [->|ne].
  - exfalso; apply H; left; reflexivity.
  - apply IH. intro; apply H; right; assumption.
Qed.

Lemma lastIndexOf_from_last c p r i found :
  ~ In c r -> lastIndexOf_from c (p ++ c :: r) i found = (i + Z.of_nat (length p))%Z.
Proof.
  revert i found; induction p as [|x p IH]; intros i found H; simpl.
  - rewrite N.eqb_refl. rewrite lastIndexOf_from_absent by assumption. lia.
  - rewrite IH by assumption. lia.
Qed.

(** Every string that has the unit splits at its last occurrence. *)
Lemma in_split_last (c : char16) (s : jstring) :
  In c s -> exists p r, s = p ++ c :: r /\ ~ In c r.
Proof.
  induction s as [|x s IH]; intros H; [destruct H|].
  destruct (in_dec N.eq_dec c s) as [Hin|Hout].
  - destruct (IH Hin) as (p & r & -> & Hr). exists (x :: p), r. split; [reflexivity | exact Hr].
  - destruct H as [->|H]; [|contradiction].
    exists [], s. split; [reflexivity | exact Hout].
Qed.

Lemma indexOf_absent c s : ~ In c s -> indexOf c s = (-1)%Z.
Proof. apply indexOf_from_absent. Qed.

Lemma lastIndexOf_absent c s : ~ In c s -> lastIndexOf c s = (-1)%Z.
Proof. apply lastIndexOf_from_absent. Qed.

Lemma indexOf_first c p r : ~ In c p -> indexOf c (p ++ c :: r) = Z.of_nat (length p).
Proof. intros H. unfold indexOf. rewrite indexOf_from_first by assumption. lia. Qed.

Lemma lastIndexOf_last c p r : ~ In c r -> lastIndexOf c (p ++ c :: r) = Z.of_nat (length p).
Proof. intros H. unfold lastIndexOf. rewrite lastIndexOf_from_last by assumption. lia. Qed.

(** [substring] between two positions in order is [skipn] then
    [firstn]. *)
Lemma substring_middle (p o q : jstring) :
  substring (p ++ o ++ q) (Z.of_nat (length p)) (Z.of_nat (length p + length o)) = o.
Proof.
  unfold substring, clamp. rewrite !length_app.
  replace (Z.min (Z.max (Z.of_nat (length p)) 0)
                 (Z.of_nat (length p + (length o + length q))))
    with (Z.of_nat (length p)) by lia.
  replace (Z.min (Z.max (Z.of_nat (length p + length o)) 0)
                 (Z.of_nat (length p + (length o + length q))))
    with (Z.of_nat (length p + length o)) by lia.
  replace (Z.min (Z.of_nat (length p)) (Z.of_nat (length p + length o)))
    with (Z.of_nat (length p)) by lia.
  replace (Z.max (Z.of_nat (length p)) (Z.of_nat (length p + length o)))
    with (Z.of_nat (length p + length o)) by lia.
  rewrite Nat2Z.id.
  replace (Z.to_nat (Z.of_nat (length p + length o) - Z.of_nat (length p)))
    with (length o) by lia.
  rewrite skipn_app, skipn_all, Nat.sub_diag. simpl.
  rewrite firstn_app, firstn_all, Nat.sub_diag. simpl. apply app_nil_r.
Qed.

Lemma sanitize_app a b : sanitize (a ++ b) = sanitize a ++ sanitize b.
Proof. apply map_app. Qed.

Lemma sanitize_length s : length (sanitize s) = length s.
Proof. apply length_map. Qed.

(** Replacing quotes neither makes nor removes a brace. *)
Lemma sanitize_keeps (c : char16) s :
  is_quote_variant c = false -> c <> c_quote -> (In c (sanitize s) <-> In c s).
Proof.
  intros Hv Hq. unfold sanitize. rewrite in_map_iff. split.
  - intros (x & E & Hx). destruct (is_quote_variant x) eqn:V; congruence.
  - intros H. exists c. rewrite Hv. split; [reflexivity | exact H].
Qed.

Lemma sanitize_id s :
  forallb (fun c => negb (is_quote_variant c)) s = true -> sanitize s = s.
Proof.
  induction s as [|x s IH]; simpl; [reflexivity|].
  intros H. apply andb_prop in H as [Hx Hs].
  destruct (is_quote_variant x); [discriminate|]. f_equal. apply IH, Hs.
Qed.

(** The span that [parse_braces] cuts out of a text in which an object
    text sits between a prefix without opening brace and a suffix without
    closing brace. *)
Lemma parse_braces_span (before middle after : jstring) :
  ~ In c_lbrace before -> ~ In c_rbrace after ->
  parse_braces (before ++ (c_lbrace :: middle ++ [c_rbrace]) ++ after)
  = Some (JSON_parse (c_lbrace :: middle ++ [c_rbrace])).
Proof.
  intros Hb Ha. unfold parse_braces.
  set (o := c_lbrace :: middle ++ [c_rbrace]).
  assert (E1 : indexOf c_lbrace (before ++ o ++ after) = Z.of_nat (length before)).
  { unfold o. simpl. apply indexOf_first, Hb. }
  assert (E2 : lastIndexOf c_rbrace (before ++ o ++ after)
               = Z.of_nat (length before + length o - 1)).
  { unfold o.
    replace (before ++ (c_lbrace :: middle ++ [c_rbrace]) ++ after)
      with ((before ++ c_lbrace :: middle) ++ c_rbrace :: after)
      by (simpl; rewrite <- !app_assoc; reflexivity).
    rewrite lastIndexOf_last by assumption.
    f_equal. simpl. rewrite !length_app. simpl. lia. }
  rewrite E1, E2.
  assert (length o > 0)%nat by (unfold o; simpl; lia).
  replace (Z.of_nat (length before) =? -1)%Z with false by (symmetry; apply Z.eqb_neq; lia).
  replace (Z.of_nat (length before + length o - 1) =? -1)%Z with false
    by (symmetry; apply Z.eqb_neq; lia).
  simpl negb. simpl andb. cbv iota.
  replace (Z.of_nat (length before + length o - 1) + 1)%Z
    with (Z.of_nat (length before + length o)) by lia.
  rewrite substring_middle. reflexivity.
Qed.

Lemma parse_braces_none (text : jstring) :
  ~ In c_lbrace text \/ ~ In c_rbrace text -> parse_braces text = None.
Proof.
  intros [H|H]; unfold parse_braces.
  - rewrite (indexOf_absent _ _ H). reflexivity.
  - rewrite (lastIndexOf_absent _ _ H). simpl. rewrite andb_false_r. reflexivity.
Qed.

(* ===================================================================== *)
(** * 17. JSON.parse: what the parser cannot return                        *)
(* ===================================================================== *)

(** Case analysis on the scrutinee of the first [match] of the goal. *)
Ltac break_match :=
  match goal with
  | |- context [match ?x with _ => _ end] => destruct x eqn:?
  end.

Lemma skip_ws_suffix s c r : skip_ws s = c :: r -> In c s.
Proof.
  induction s as [|x s IH]; simpl; [discriminate|].
  destruct (is_ws x).
  - intros H. right. apply IH, H.
  - intros H. injection H as -> _. left. reflexivity.
Qed.

Lemma parse_elements_array fuel s acc v rest :
  parse_elements fuel s acc = POk v rest -> exists l, v = VArr l.
Proof.
  revert s acc. induction fuel as [|f IH]; intros s acc; simpl; [discriminate|].
  destruct (parse_value f s) as [v' r| |]; try discriminate.
  destruct (skip_ws r) as [|c r']; [discriminate|].
  destruct (c =? c_comma); [apply IH|].
  destruct (c =? c_rbracket); [|discriminate].
  intros H. injection H as <- _. eexists. reflexivity.
Qed.

(** An object comes from a text whose first unit after white space is an
    opening brace. *)
Lemma parse_value_object fuel s o rest :
  parse_value fuel s = POk (VObj o) rest -> In c_lbrace s.
Proof.
  destruct fuel as [|f]; simpl; [discriminate|].
  destruct (skip_ws s) as [|c r] eqn:E; [discriminate|].
  destruct (N.eqb_spec c c_lbrace) as [->|ne].
  - intros _. eapply skip_ws_suffix, E.
  - destruct (c =? c_lbracket).
    { destruct (skip_ws r) as [|c' r']; [discriminate|].
      destruct (c' =? c_rbracket); [discriminate|].
      intros H. apply parse_elements_array in H as (l & Hl). discriminate. }
    destruct (c =? c_quote).
    { destruct (parse_chars r []) as [[str r']|]; discriminate. }
    repeat (break_match; try discriminate).
Qed.

Lemma JSON_parse_object s o : JSON_parse s = Ret (VObj o) -> In c_lbrace s.
Proof.
  unfold JSON_parse.
  destruct (parse_value (parse_fuel s) s) as [v rest| |] eqn:E; try discriminate.
  destruct (skip_ws rest); [|discriminate].
  intros H. injection H as ->. eapply parse_value_object, E.
Qed.

(** [JSON.parse] throws nothing but its SyntaxError. *)
Lemma JSON_parse_throws s e : JSON_parse s = Throw e -> e = ExnError (Engine JsonSyntax).
Proof.
  unfold JSON_parse, raise.
  destruct (parse_value (parse_fuel s) s) as [v rest| |]; try congruence.
  destruct (skip_ws rest); congruence.
Qed.

(** ** Fuel *)

Lemma skip_ws_length s : (length (skip_ws s) <= length s)%nat.
Proof.
  induction s as [|x s IH]; simpl; [lia|]. destruct (is_ws x); simpl; lia.
Qed.

Lemma skip_ws_cons s c r : skip_ws s = c :: r -> (length r < length s)%nat.
Proof. intros E. pose proof (skip_ws_length s) as L. rewrite E in L. simpl in L. lia. Qed.

Lemma parse_chars_length s acc str rest :
  parse_chars s acc = Some (str, rest) -> (length rest < length s)%nat.
Proof.
  remember (length s) as n eqn:Hn. revert s acc Hn.
  induction n as [n IH] using lt_wf_ind. intros s acc Hn.
  destruct s as [|c r]; simpl; [discriminate|].
  destruct (c =? c_quote).
  { intros H. injection H as _ <-. simpl in Hn. lia. }
  destruct (c =? c_backslash).
  { destruct r as [|e r1]; [discriminate|].
    destruct (e =? 117).
    - destruct r1 as [|h1 [|h2 [|h3 [|h4 r2]]]]; try discriminate.
      destruct (hex4 h1 h2 h3 h4); [|discriminate].
      intros H. apply (IH (length r2)) in H; simpl in *; lia.
    - destruct (simple_escape e); [|discriminate].
      intros H. apply (IH (length r1)) in H; simpl in *; lia. }
  destruct (c <? 32); [discriminate|].
  intros H. apply (IH (length r)) in H; simpl in *; lia.
Qed.

Lemma take_digits_length s acc digits rest :
  take_digits s acc = (digits, rest) ->
  (length digits + length rest = length acc + length s)%nat.
Proof.
  revert acc. induction s as [|c s IH]; intros acc; simpl.
  - intros H. injection H as <- <-. rewrite length_rev. simpl. lia.
  - destruct (is_digit c).
    + intros H. apply IH in H. simpl in H. lia.
    + intros H. injection H as <- <-. rewrite length_rev. simpl. lia.
Qed.

Lemma sign_length (s s1 : jstring) (neg : bool) :
  (match s with
   | c :: r => if c =? 45 then (true, r) else (false, s)
   | [] => (false, s)
   end) = (neg, s1) -> (length s1 <= length s)%nat.
Proof.
  destruct s as [|c r]; [intros H; injection H as _ <-; lia|].
  destruct (c =? 45); intros H; injection H as _ <-; simpl; lia.
Qed.

Lemma fraction_length (s2 fd s3 : jstring) :
  (match s2 with
   | c :: r =>
       if c =? c_dot
       then let '(fd, s3) := take_digits r [] in
            match fd with [] => None | _ :: _ => Some (fd, s3) end
       else Some ([], s2)
   | [] => Some ([], s2)
   end) = Some (fd, s3) -> (length s3 <= length s2)%nat.
Proof.
  destruct s2 as [|c r]; [intros H; injection H as _ <-; lia|].
  destruct (c =? c_dot).
  - destruct (take_digits r []) as [fd' s3'] eqn:Ef. apply take_digits_length in Ef.
    destruct fd'; [discriminate|]. intros H. injection H as _ <-. simpl in *. lia.
  - intros H. injection H as _ <-. lia.
Qed.

Lemma exponent_sign_length (r r1 : jstring) (eneg : bool) :
  (match r with
   | sg :: r' => if sg =? 45 then (true, r')
                 else if sg =? 43 then (false, r') else (false, r)
   | [] => (false, r)
   end) = (eneg, r1) -> (length r1 <= length r)%nat.
Proof.
  destruct r as [|sg r']; [intros H; injection H as _ <-; lia|].
  destruct (sg =? 45); [intros H; injection H as _ <-; simpl; lia|].
  destruct (sg =? 43); intros H; injection H as _ <-; simpl; lia.
Qed.

Lemma parse_number_length s n rest :
  parse_number s = Some (n, rest) -> (length rest < length s)%nat.
Proof.
  unfold parse_number.
  destruct (match s with
            | c :: r => if c =? 45 then (true, r) else (false, s)
            | [] => (false, s)
            end) as [neg s1] eqn:Es.
  apply sign_length in Es.
  destruct (take_digits s1 []) as [int_digits s2] eqn:Ei.
  apply take_digits_length in Ei. simpl in Ei.
  destruct int_digits as [|d more]; [discriminate|]. simpl in Ei.
  destruct (_ && _); [discriminate|].
  destruct (match s2 with
            | c :: r =>
                if c =? c_dot
                then let '(fd, s3) := take_digits r [] in
                     match fd with [] => None | _ :: _ => Some (fd, s3) end
                else Some ([], s2)
            | [] => Some ([], s2)
            end) as [[frac_digits s3]|] eqn:Ef; [|discriminate].
  apply fraction_length in Ef.
  destruct s3 as [|c r]; [intros H; injection H as _ <-; simpl in *; lia|].
  destruct (_ || _); [|intros H; injection H as _ <-; simpl in *; lia].
  destruct (match r with
            | sg :: r' => if sg =? 45 then (true, r')
                          else if sg =? 43 then (false, r') else (false, r)
            | [] => (false, r)
            end) as [eneg r1] eqn:Ee.
  apply exponent_sign_length in Ee.
  destruct (take_digits r1 []) as [ed s4] eqn:Ed. apply take_digits_length in Ed.
  destruct ed; [discriminate|]. intros H. injection H as _ <-. simpl in *. lia.
Qed.

Lemma strip_prefix_length p s rest :
  strip_prefix p s = Some rest -> (length rest <= length s)%nat.
Proof.
  revert s. induction p as [|x p IH]; intros [|y s]; simpl; try discriminate.
  - intros H. injection H as <-. simpl. lia.
  - intros H. injection H as <-. simpl. lia.
  - destruct (x =? y); [|discriminate]. intros H. apply IH in H. lia.
Qed.

(** With fuel above twice the length of the text, none of the three
    productions runs out of it, and each consumes at least one unit. *)
Lemma parse_fuel_enough fuel :
  (forall s, (2 * length s + 1 <= fuel)%nat ->
     parse_value fuel s <> PFuel /\
     forall v rest, parse_value fuel s = POk v rest -> (length rest < length s)%nat) /\
  (forall s acc, (2 * length s + 2 <= fuel)%nat ->
     parse_elements fuel s acc <> PFuel /\
     forall v rest, parse_elements fuel s acc = POk v rest -> (length rest < length s)%nat) /\
  (forall s acc, (2 * length s + 2 <= fuel)%nat ->
     parse_members fuel s acc <> PFuel /\
     forall v rest, parse_members fuel s acc = POk v rest -> (length rest < length s)%nat).
Proof.
  induction fuel as [|f (IHv & IHe & IHm)].
  - repeat split; intros; lia.
  - split; [|split].
    + intros s Hf. cbn [parse_value].
      destruct (skip_ws s) as [|c r] eqn:Es; [split; [discriminate | intros; discriminate]|].
      apply skip_ws_cons in Es.
      destruct (c =? c_lbrace).
      { destruct (skip_ws r) as [|c' r'] eqn:Er; [split; [discriminate | intros; discriminate]|].
        apply skip_ws_cons in Er.
        destruct (c' =? c_rbrace).
        - split; [discriminate|]. intros v rest H. injection H as _ <-. lia.
        - destruct (IHm r [] ltac:(lia)) as [Hn Hl]. split; [exact Hn|].
          intros v rest H. apply Hl in H. lia. }
      destruct (c =? c_lbracket).
      { destruct (skip_ws r) as [|c' r'] eqn:Er; [split; [discriminate | intros; discriminate]|].
        apply skip_ws_cons in Er.
        destruct (c' =? c_rbracket).
        - split; [discriminate|]. intros v rest H. injection H as _ <-. lia.
        - destruct (IHe r [] ltac:(lia)) as [Hn Hl]. split; [exact Hn|].
          intros v rest H. apply Hl in H. lia. }
      destruct (c =? c_quote).
      { destruct (parse_chars r []) as [[str r']|] eqn:Ec;
          [|split; [discriminate | intros; discriminate]].
        apply parse_chars_length in Ec. split; [discriminate|].
        intros v rest H. injection H as _ <-. lia. }
      destruct (c =? 116).
      { destruct (strip_prefix (lit "rue") r) as [r'|] eqn:Ep;
          [|split; [discriminate | intros; discriminate]].
        apply strip_prefix_length in Ep. split; [discriminate|].
        intros v rest H. injection H as _ <-. lia. }
      destruct (c =? 102).
      { destruct (strip_prefix (lit "alse") r) as [r'|] eqn:Ep;
          [|split; [discriminate | intros; discriminate]].
        apply strip_prefix_length in Ep. split; [discriminate|].
        intros v rest H. injection H as _ <-. lia. }
      destruct (c =? 110).
      { destruct (strip_prefix (lit "ull") r) as [r'|] eqn:Ep;
          [|split; [discriminate | intros; discriminate]].
        apply strip_prefix_length in Ep. split; [discriminate|].
        intros v rest H. injection H as _ <-. lia. }
      destruct (parse_number (c :: r)) as [[n r']|] eqn:En;
        [|split; [discriminate | intros; discriminate]].
      apply parse_number_length in En. simpl in En. split; [discriminate|].
      intros v rest H. injection H as _ <-. lia.
    + intros s acc Hf. cbn [parse_elements].
      destruct (IHv s ltac:(lia)) as [Hn Hl].
      destruct (parse_value f s) as [v r| |] eqn:Ev;
        [|split; [discriminate | intros; discriminate] | congruence].
      specialize (Hl v r eq_refl).
      destruct (skip_ws r) as [|c r'] eqn:Er; [split; [discriminate | intros; discriminate]|].
      apply skip_ws_cons in Er.
      destruct (c =? c_comma).
      { destruct (IHe r' (v :: acc) ltac:(lia)) as [Hn' Hl']. split; [exact Hn'|].
        intros v' rest H. apply Hl' in H. lia. }
      destruct (c =? c_rbracket); [|split; [discriminate | intros; discriminate]].
      split; [discriminate|]. intros v' rest H. injection H as _ <-. lia.
    + intros s acc Hf. cbn [parse_members].
      destruct (skip_ws s) as [|c r] eqn:Es; [split; [discriminate | intros; discriminate]|].
      apply skip_ws_cons in Es.
      destruct (c =? c_quote); [|split; [discriminate | intros; discriminate]].
      destruct (parse_chars r []) as [[k r1]|] eqn:Ec;
        [|split; [discriminate | intros; discriminate]].
      apply parse_chars_length in Ec.
      destruct (skip_ws r1) as [|c2 r2] eqn:E1; [split; [discriminate | intros; discriminate]|].
      apply skip_ws_cons in E1.
      destruct (c2 =? c_colon); [|split; [discriminate | intros; discriminate]].
      destruct (IHv r2 ltac:(lia)) as [Hn Hl].
      destruct (parse_value f r2) as [v r3| |] eqn:Ev;
        [|split; [discriminate | intros; discriminate] | congruence].
      specialize (Hl v r3 eq_refl).
      destruct (skip_ws r3) as [|c3 r4] eqn:E3; [split; [discriminate | intros; discriminate]|].
      apply skip_ws_cons in E3.
      destruct (c3 =? c_comma).
      { destruct (IHm r4 (obj_set k v acc) ltac:(lia)) as [Hn' Hl']. split; [exact Hn'|].
        intros v' rest H. apply Hl' in H. lia. }
      destruct (c3 =? c_rbrace); [|split; [discriminate | intros; discriminate]].
      split; [discriminate|]. intros v' rest H. injection H as _ <-. lia.
Qed.

(** [JSON_parse] supplies enough fuel: a rejection is always a
    rejection by the grammar. *)
Lemma parse_value_fuel s : parse_value (parse_fuel s) s <> PFuel.
Proof. apply parse_fuel_enough. unfold parse_fuel. lia. Qed.

(* ===================================================================== *)
(** * 18. The decoders                                                     *)
(* ===================================================================== *)

Lemma contains_false c s : contains c s = false <-> ~ In c s.
Proof.
  unfold contains. split.
  - intros H Hin. assert (existsb (N.eqb c) s = true); [|congruence].
    apply existsb_exists. exists c. split; [exact Hin | apply N.eqb_refl].
  - intros H. destruct (existsb (N.eqb c) s) eqn:E; [|reflexivity].
    apply existsb_exists in E as (x & Hx & Ex). apply N.eqb_eq in Ex. subst x. contradiction.
Qed.

Lemma contains_true c s : contains c s = true <-> In c s.
Proof.
  unfold contains. rewrite existsb_exists. split.
  - intros (x & Hx & E). apply N.eqb_eq in E. subst. exact Hx.
  - intros H. exists c. split; [exact H | apply N.eqb_refl].
Qed.

Lemma parse_braces_embedded text before middle after :
  embeds text before middle after ->
  parse_braces text = Some (JSON_parse (c_lbrace :: middle ++ [c_rbrace])).
Proof.
  intros (-> & Hb & Ha). apply parse_braces_span; apply contains_false; assumption.
Qed.

Lemma parse_braces_without text :
  contains c_lbrace text = false \/ contains c_rbrace text = false ->
  parse_braces text = None.
Proof.
  intros H. apply parse_braces_none. destruct H as [H|H]; [left|right];
    apply contains_false; exact H.
Qed.

Lemma completion_content_answer text : completion_content (answer text) = Ret (VStr text).
Proof. reflexivity. Qed.

Section Decoders.

Variable host : Host.
Variable WEBUI_BASE_URL : jstring.
Variable fetch : request -> fetch_result.

(** After a 2xx answer with a JSON body, [res] is the body and [error]
    stays null. *)
Lemma task_settle_answer req text :
  answers_with fetch req text ->
  exists res, task_settle host (fetch req) = Ret (res, VNull) /\
              completion_content res = Ret (VStr text).
Proof.
  intros (r & res & Hf & Hok & Hj & Hc). exists res. split; [|exact Hc].
  unfold task_settle, await_then_json, then_json. rewrite Hf, Hok. simpl. rewrite Hj. reflexivity.
Qed.

Lemma generateQueries_answer token model messages prompt type text :
  answers_with fetch (generateQueries_request WEBUI_BASE_URL token model messages prompt type) text ->
  generateQueries host WEBUI_BASE_URL fetch token model messages prompt type
  = try_catch
      (match parse_braces text with
       | Some parsing =>
           parsed <- parsing ;;
           if has_truthy parsed (lit "queries")
           then Ret (array_or_empty (get_nn parsed (lit "queries")))
           else Ret (VArr [])
       | None => Ret (VArr [VStr text])
       end)
      (fun _ => Ret (VArr [VStr text])).
Proof.
  intros H. destruct (task_settle_answer H) as (res & E & Hc).
  unfold generateQueries. rewrite E. simpl.
  unfold generateQueries_decode. rewrite Hc. reflexivity.
Qed.

Lemma generateTags_answer token model messages chat_id text :
  answers_with fetch (generateTags_request WEBUI_BASE_URL token model messages chat_id) text ->
  generateTags host WEBUI_BASE_URL fetch token model messages chat_id
  = try_catch
      (match parse_braces (sanitize text) with
       | Some parsing =>
           parsed <- parsing ;;
           if has_truthy parsed (lit "tags")
           then Ret (array_or_empty (get_nn parsed (lit "tags")))
           else Ret (VArr [])
       | None => Ret (VArr [])
       end)
      (fun _ => Ret (VArr [])).
Proof.
  intros H. destruct (task_settle_answer H) as (res & E & Hc).
  unfold generateTags. rewrite E. simpl.
  unfold generateTags_decode. rewrite Hc. reflexivity.
Qed.

Lemma get_nn_object o k :
  get_nn (VObj o) k = match obj_lookup k o with Some x => x | None => VUndefined end.
Proof. reflexivity. Qed.

(** C7.  When the completion text has no opening brace or no closing
    brace, [generateQueries] returns the list whose one element is the
    text itself.  When the span from the first opening brace to the last
    closing brace parses to an object, the result is the empty list if
    the object has no [queries] key, and the value of [queries] if that
    value is a list. *)
Theorem generateQueries_by_text token model messages prompt type text :
  answers_with fetch
    (generateQueries_request WEBUI_BASE_URL token model messages prompt type) text ->
  (contains c_lbrace text = false \/ contains c_rbrace text = false ->
   generateQueries host WEBUI_BASE_URL fetch token model messages prompt type
   = Ret (VArr [VStr text])) /\
  (forall before middle after object,
     embeds text before middle after ->
     JSON_parse (c_lbrace :: middle ++ [c_rbrace]) = Ret (VObj object) ->
     (obj_lookup (lit "queries") object = None ->
      generateQueries host WEBUI_BASE_URL fetch token model messages prompt type
      = Ret (VArr [])) /\
     (forall queries,
        obj_lookup (lit "queries") object = Some (VArr queries) ->
        generateQueries host WEBUI_BASE_URL fetch token model messages prompt type
        = Ret (VArr queries))).
Proof.
  intros H. rewrite (generateQueries_answer H). split.
  - intros Hno. rewrite (parse_braces_without _ Hno). reflexivity.
  - intros before middle after object He Hp.
    rewrite (parse_braces_embedded He), Hp. simpl.
    unfold has_truthy. rewrite get_nn_object. split.
    + intros ->. reflexivity.
    + intros queries ->. reflexivity.
Qed.

End Decoders.

(** Witness of [generateQueries_by_text]: a text without braces, an
    object without [queries], and an object with a list of queries. *)
Lemma generateQueries_by_text_witness :
  generateQueries TestHost.host [] (complete_with (lit "weather in Paris"))
    (lit "token") (lit "model") VNull VNull VNull
  = Ret (VArr [VStr (lit "weather in Paris")]) /\
  generateQueries TestHost.host [] (complete_with (dq "Here: {#other#: 1} done"))
    (lit "token") (lit "model") VNull VNull VNull
  = Ret (VArr []) /\
  generateQueries TestHost.host [] (complete_with (dq "Here: {#queries#: [#a#]} done"))
    (lit "token") (lit "model") VNull VNull VNull
  = Ret (VArr [VStr (lit "a")]).
Proof.
  split; [|split].
  - refine (proj1 (@generateQueries_by_text TestHost.host [] _ (lit "token") (lit "model")
                     VNull VNull VNull (lit "weather in Paris") _) _).
    + eexists. eexists. repeat split; vm_compute; reflexivity.
    + left. reflexivity.
  - refine (proj1 (proj2 (@generateQueries_by_text TestHost.host [] _ (lit "token")
                     (lit "model") VNull VNull VNull (dq "Here: {#other#: 1} done") _)
              (lit "Here: ") (dq "#other#: 1") (lit " done")
              [(lit "other", VNum {| num_neg := false; num_mant := 1; num_exp := 0 |})]
              _ _) _).
    + eexists. eexists. repeat split; vm_compute; reflexivity.
    + repeat split; reflexivity.
    + vm_compute; reflexivity.
    + reflexivity.
  - refine (proj2 (proj2 (@generateQueries_by_text TestHost.host [] _ (lit "token")
                     (lit "model") VNull VNull VNull (dq "Here: {#queries#: [#a#]} done") _)
              (lit "Here: ") (dq "#queries#: [#a#]") (lit " done")
              [(lit "queries", VArr [VStr (lit "a")])] _ _) [VStr (lit "a")] _).
    + eexists. eexists. repeat split; vm_compute; reflexivity.
    + repeat split; reflexivity.
    + vm_compute; reflexivity.
    + reflexivity.
Defined.

(* ===================================================================== *)
(** * 19. The decoders against the extractor of the specification          *)
(* ===================================================================== *)

Lemma spec_normalize_sanitize text : spec_normalize text = sanitize text.
Proof.
  apply map_ext. intros c. unfold is_quote_variant, c_apostrophe, c_lsquo, c_rsquo, c_backtick, c_quote.
  simpl. destruct (c =? 39), (c =? 8217), (c =? 8216), (c =? 96); reflexivity.
Qed.

Lemma indexOf_from_spec c s i :
  indexOf_from c s i
  = match spec_first c s with Some n => (i + Z.of_nat n)%Z | None => (-1)%Z end.
Proof.
  revert i. induction s as [|x s IH]; intros i; simpl; [reflexivity|].
  destruct (x =? c); [f_equal; lia|].
  rewrite IH. destruct (spec_first c s); simpl; [lia | reflexivity].
Qed.

Lemma lastIndexOf_from_spec c s i found :
  lastIndexOf_from c s i found
  = match spec_last c s with Some n => (i + Z.of_nat n)%Z | None => found end.
Proof.
  revert i found. induction s as [|x s IH]; intros i found; simpl; [reflexivity|].
  rewrite IH. destruct (spec_last c s); [lia|].
  destruct (x =? c); [lia | reflexivity].
Qed.

Lemma spec_first_bound c s n :
  spec_first c s = Some n -> (n < length s)%nat /\ ~ In c (firstn n s).
Proof.
  revert n. induction s as [|x s IH]; intros n; simpl; [discriminate|].
  destruct (N.eqb_spec x c) as [->|ne].
  - intros H. injection H as <-. split; [lia | intros []].
  - destruct (spec_first c s) as [m|]; [|discriminate].
    intros H. injection H as <-. destruct (IH m eq_refl) as [Hm Hn].
    split; [lia|]. simpl. intros [E|E]; [congruence | exact (Hn E)].
Qed.

Lemma spec_last_bound c s n : spec_last c s = Some n -> (n < length s)%nat.
Proof.
  revert n. induction s as [|x s IH]; intros n; simpl; [discriminate|].
  destruct (spec_last c s) as [m|].
  - intros H. injection H as <-. specialize (IH m eq_refl). lia.
  - destruct (x =? c); [|discriminate]. intros H. injection H as <-. lia.
Qed.

(** [substring] on positions inside the string: in order it is the
    inclusive slice, out of order it is the stretch between them. *)
Lemma substring_positions s (i j : nat) :
  (i < length s)%nat -> (j < length s)%nat ->
  substring s (Z.of_nat i) (Z.of_nat j + 1)
  = if (i <=? j)%nat then spec_slice s i j
    else firstn (i - (j + 1)) (skipn (j + 1) s).
Proof.
  intros Hi Hj. unfold substring, clamp, spec_slice.
  destruct (Nat.leb_spec i j) as [Hle|Hgt].
  - replace (Z.min (Z.min (Z.max (Z.of_nat i) 0) (Z.of_nat (length s)))
                   (Z.min (Z.max (Z.of_nat j + 1) 0) (Z.of_nat (length s))))
      with (Z.of_nat i) by lia.
    replace (Z.max (Z.min (Z.max (Z.of_nat i) 0) (Z.of_nat (length s)))
                   (Z.min (Z.max (Z.of_nat j + 1) 0) (Z.of_nat (length s))))
      with (Z.of_nat (j + 1)) by lia.
    rewrite Nat2Z.id. f_equal. lia.
  - replace (Z.min (Z.min (Z.max (Z.of_nat i) 0) (Z.of_nat (length s)))
                   (Z.min (Z.max (Z.of_nat j + 1) 0) (Z.of_nat (length s))))
      with (Z.of_nat (j + 1)) by lia.
    replace (Z.max (Z.min (Z.max (Z.of_nat i) 0) (Z.of_nat (length s)))
                   (Z.min (Z.max (Z.of_nat j + 1) 0) (Z.of_nat (length s))))
      with (Z.of_nat i) by lia.
    rewrite Nat2Z.id. f_equal. lia.
Qed.

Lemma in_firstn_skipn (x : char16) s m n i :
  In x (firstn n (skipn m s)) -> (m + n <= i)%nat -> In x (firstn i s).
Proof.
  revert m n i. induction s as [|a s IH]; intros m n i H Hle.
  - rewrite skipn_nil, firstn_nil in H. destruct H.
  - destruct m as [|m].
    + simpl in H. destruct n as [|n]; [destruct H|].
      destruct i as [|i]; [lia|]. simpl in *. destruct H as [H|H]; [left; exact H|].
      right. apply (IH 0%nat n i); [exact H | lia].
    + destruct i as [|i]; [lia|]. simpl in *. right. apply (IH m n i); [exact H | lia].
Qed.

(** A decoder that replaces the quotes, cuts the brace span and parses it
    agrees with the extractor of the specification, whatever it then does
    with the parsed value, provided a value that is not an object gets
    the fallback. *)
Lemma sanitized_span (shape : value -> value) (fallback : value) text :
  (forall v, (forall o, v <> VObj o) -> shape v = fallback) ->
  try_catch
    (match parse_braces (sanitize text) with
     | Some parsing => parsed <- parsing ;; Ret (shape parsed)
     | None => Ret fallback
     end)
    (fun _ => Ret fallback)
  = Ret (match spec_extract text with
         | Some parsed => shape parsed
         | None => fallback
         end).
Proof.
  intros Hshape. unfold spec_extract. rewrite spec_normalize_sanitize.
  set (s := sanitize text). unfold parse_braces, indexOf, lastIndexOf.
  rewrite indexOf_from_spec, lastIndexOf_from_spec.
  destruct (spec_first c_lbrace s) as [i|] eqn:Ei; [|reflexivity].
  destruct (spec_last c_rbrace s) as [j|] eqn:Ej;
    [|replace ((0 + Z.of_nat i =? -1)%Z) with false
        by (symmetry; apply Z.eqb_neq; lia); reflexivity].
  replace ((0 + Z.of_nat i =? -1)%Z) with false by (symmetry; apply Z.eqb_neq; lia).
  replace ((0 + Z.of_nat j =? -1)%Z) with false by (symmetry; apply Z.eqb_neq; lia).
  simpl negb. simpl andb. cbv iota. rewrite !Z.add_0_l.
  destruct (spec_first_bound _ _ Ei) as [Hi Hfirst].
  pose proof (spec_last_bound _ _ Ej) as Hj.
  rewrite (substring_positions _ Hi Hj).
  destruct (Nat.leb_spec i j) as [Hle|Hgt].
  - destruct (JSON_parse (spec_slice s i j)); reflexivity.
  - replace (spec_slice s i j) with (@nil char16)
      by (unfold spec_slice; replace (j + 1 - i)%nat with 0%nat by lia; reflexivity).
    change (JSON_parse []) with (@raise value JsonSyntax). cbv iota beta.
    destruct (JSON_parse (firstn (i - (j + 1)) (skipn (j + 1) s))) as [v|e] eqn:Ep;
      [|reflexivity].
    simpl. f_equal. apply Hshape. intros o ->.
    apply JSON_parse_object in Ep. apply Hfirst.
    eapply in_firstn_skipn; [exact Ep | lia].
Qed.

Lemma if_Ret {A} (b : bool) (x y : A) : (if b then Ret x else Ret y) = Ret (if b then x else y).
Proof. destruct b; reflexivity. Qed.

(** A key that is neither [length] nor an array index is undefined on
    every value that is not an object. *)
Lemma get_nn_not_object v (key : string) :
  has_indexed 0 (lit key) = false -> array_index (lit key) = None ->
  (forall o, v <> VObj o) -> get_nn v (lit key) = VUndefined.
Proof.
  intros Hk Hi H. unfold has_indexed in Hk. rewrite Hi, orb_false_r in Hk.
  destruct v; try reflexivity.
  - simpl. rewrite Hk, Hi. reflexivity.
  - simpl. rewrite Hk, Hi. reflexivity.
  - exfalso. eapply H. reflexivity.
Qed.

Lemma title_shape v :
  (forall o, v <> VObj o) ->
  (if has_truthy v (lit "title") then get_nn v (lit "title") else VNull) = VNull.
Proof.
  intros H. unfold has_truthy.
  rewrite (@get_nn_not_object v "title" eq_refl eq_refl H).
  simpl. rewrite andb_false_r. reflexivity.
Qed.

Lemma list_shape (key : string) v :
  has_indexed 0 (lit key) = false -> array_index (lit key) = None ->
  (forall o, v <> VObj o) ->
  (if has_truthy v (lit key) then array_or_empty (get_nn v (lit key)) else VArr [])
  = VArr [].
Proof.
  intros Hk Hi H. unfold has_truthy.
  rewrite (get_nn_not_object key Hk Hi H).
  simpl. rewrite andb_false_r. reflexivity.
Qed.

(** C5, as amended.  For [generateTitle], [generateFollowUps] and
    [generateTags] and every completion text, the decoder gives what the
    extractor of the specification gives: the quote variants are
    replaced by double quotes, then the inclusive span from the first
    opening brace to the last closing brace is parsed strictly. *)
Theorem sanitizing_decoders_follow_extractor text :
  generateTitle_decode (answer text) = Ret (title_of (spec_extract text)) /\
  generateFollowUps_decode (answer text)
  = Ret (list_of "follow_ups" (spec_extract text)) /\
  generateTags_decode (answer text) = Ret (list_of "tags" (spec_extract text)).
Proof.
  unfold generateTitle_decode, generateFollowUps_decode, generateTags_decode.
  rewrite completion_content_answer. cbn [bind nullish_or is_nullish as_string].
  repeat split.
  - pose proof (@sanitized_span
        (fun v => if has_truthy v (lit "title") then get_nn v (lit "title") else VNull)
        VNull text title_shape) as E.
    unfold title_of. rewrite <- E. f_equal.
    destruct (parse_braces (sanitize text)) as [[v|e]|]; try reflexivity.
    cbn [bind]. apply if_Ret.
  - pose proof (@sanitized_span
        (fun v => if has_truthy v (lit "follow_ups")
                  then array_or_empty (get_nn v (lit "follow_ups")) else VArr [])
        (VArr []) text (fun v => @list_shape "follow_ups" v eq_refl eq_refl)) as E.
    unfold list_of. rewrite <- E. f_equal.
    destruct (parse_braces (sanitize text)) as [[v|e]|]; try reflexivity.
    cbn [bind]. apply if_Ret.
  - pose proof (@sanitized_span
        (fun v => if has_truthy v (lit "tags")
                  then array_or_empty (get_nn v (lit "tags")) else VArr [])
        (VArr []) text (fun v => @list_shape "tags" v eq_refl eq_refl)) as E.
    unfold list_of. rewrite <- E. f_equal.
    destruct (parse_braces (sanitize text)) as [[v|e]|]; try reflexivity.
    cbn [bind]. apply if_Ret.
Qed.

(** C5, counterexample.  On a completion written with apostrophes,
    [generateQueries] and [generateAutoCompletion] return the raw text:
    they parse the text as it is, where the extractor of the
    specification would find the object. *)
Lemma raw_decoders_do_not_normalize :
  generateQueries_decode (answer (lit "{'queries': ['a']}"))
  = Ret (VArr [VStr (lit "{'queries': ['a']}")]) /\
  list_of "queries" (spec_extract (lit "{'queries': ['a']}")) = VArr [VStr (lit "a")] /\
  generateAutoCompletion_decode (answer (lit "{'text': 'hi'}"))
  = Ret (VStr (lit "{'text': 'hi'}")) /\
  spec_extract (lit "{'text': 'hi'}") = Some (VObj [(lit "text", VStr (lit "hi"))]).
Proof. repeat split; vm_compute; reflexivity. Qed.

(* ===================================================================== *)
(** * 20. generateTags                                                     *)
(* ===================================================================== *)

Lemma contains_sanitize (c : char16) s :
  is_quote_variant c = false -> c <> c_quote ->
  contains c (sanitize s) = contains c s.
Proof.
  intros Hv Hq. destruct (contains c s) eqn:E.
  - apply contains_true. apply sanitize_keeps; [assumption..|]. apply contains_true, E.
  - apply contains_false. intros H.
    apply (proj1 (sanitize_keeps s Hv Hq)) in H.
    exact (proj1 (contains_false c s) E H).
Qed.

Lemma embeds_sanitize text before middle after :
  embeds text before middle after ->
  forallb (fun c => negb (is_quote_variant c)) middle = true ->
  embeds (sanitize text) (sanitize before) middle (sanitize after).
Proof.
  intros (-> & Hb & Ha) Hm. repeat split.
  - rewrite !sanitize_app. f_equal.
    change (c_lbrace :: middle ++ [c_rbrace]) with ([c_lbrace] ++ middle ++ [c_rbrace]).
    rewrite !sanitize_app, (sanitize_id _ Hm). reflexivity.
  - rewrite contains_sanitize; [exact Hb | reflexivity | discriminate].
  - rewrite contains_sanitize; [exact Ha | reflexivity | discriminate].
Qed.

Section Tags.

Variable host : Host.
Variable WEBUI_BASE_URL : jstring.
Variable fetch : request -> fetch_result.

(** C8, as amended.  When the completion text holds an object text
    between a prefix without opening brace and a suffix without closing
    brace, the object text has none of the four quote variants, and it
    parses to an object whose [tags] is a list, [generateTags] returns
    that list.  A text without an opening or without a closing brace
    gives the empty list, and so does an extracted object whose [tags]
    is missing or is not a list. *)
Theorem generateTags_by_text token model messages chat_id text :
  answers_with fetch
    (generateTags_request WEBUI_BASE_URL token model messages chat_id) text ->
  (forall before middle after object tags,
     embeds text before middle after ->
     forallb (fun c => negb (is_quote_variant c)) middle = true ->
     JSON_parse (c_lbrace :: middle ++ [c_rbrace]) = Ret (VObj object) ->
     obj_lookup (lit "tags") object = Some (VArr tags) ->
     generateTags host WEBUI_BASE_URL fetch token model messages chat_id
     = Ret (VArr tags)) /\
  (contains c_lbrace text = false \/ contains c_rbrace text = false ->
   generateTags host WEBUI_BASE_URL fetch token model messages chat_id
   = Ret (VArr [])) /\
  (forall before middle after object,
     embeds (sanitize text) before middle after ->
     JSON_parse (c_lbrace :: middle ++ [c_rbrace]) = Ret (VObj object) ->
     match obj_lookup (lit "tags") object with
     | Some (VArr _) => False
     | _ => True
     end ->
     generateTags host WEBUI_BASE_URL fetch token model messages chat_id
     = Ret (VArr [])).
Proof.
  intros H. rewrite (generateTags_answer host H). repeat split.
  - intros before middle after object tags He Hm Hp Ht.
    rewrite (parse_braces_embedded (embeds_sanitize He Hm)), Hp. simpl.
    unfold has_truthy. rewrite get_nn_object, Ht. reflexivity.
  - intros Hno. rewrite parse_braces_without; [reflexivity|].
    rewrite !contains_sanitize; [exact Hno | reflexivity | discriminate
                                | reflexivity | discriminate].
  - intros before middle after object He Hp Ht.
    rewrite (parse_braces_embedded He), Hp. simpl.
    unfold has_truthy. rewrite get_nn_object.
    destruct (obj_lookup (lit "tags") object) as [v|]; [|reflexivity].
    destruct v; try (exfalso; exact Ht); simpl;
      repeat match goal with |- context [if ?b then _ else _] => destruct b end;
      reflexivity.
Qed.

End Tags.

(** C8, counterexample.  The completion [Sure! {"tags": ["it's"]}] is
    prose around a well-formed object whose [tags] is a list of strings,
    yet [generateTags] returns the empty list: the apostrophe inside the
    tag becomes a double quote before the text is parsed. *)
Lemma generateTags_apostrophe :
  embeds (dq "Sure! {#tags#: [#it's#]}") (lit "Sure! ") (dq "#tags#: [#it's#]") [] /\
  JSON_parse (dq "{#tags#: [#it's#]}")
  = Ret (VObj [(lit "tags", VArr [VStr (lit "it's")])]) /\
  generateTags TestHost.host [] (complete_with (dq "Sure! {#tags#: [#it's#]}"))
    (lit "token") (lit "model") VNull VUndefined
  = Ret (VArr []).
Proof. repeat split; vm_compute; reflexivity. Qed.

(** Witness of [generateTags_by_text]: the example of the specification,
    a text without braces, and an object whose [tags] is a string. *)
Lemma generateTags_by_text_witness :
  generateTags TestHost.host [] (complete_with (dq "Sure! {#tags#: [#a#,#b#]}"))
    (lit "token") (lit "model") VNull VUndefined
  = Ret (VArr [VStr (lit "a"); VStr (lit "b")]) /\
  generateTags TestHost.host [] (complete_with (lit "no tags today"))
    (lit "token") (lit "model") VNull VUndefined
  = Ret (VArr []) /\
  generateTags TestHost.host [] (complete_with (dq "{#tags#: #a,b#}"))
    (lit "token") (lit "model") VNull VUndefined
  = Ret (VArr []).
Proof.
  split; [|split].
  - refine (proj1 (@generateTags_by_text TestHost.host [] _ (lit "token") (lit "model")
                     VNull VUndefined (dq "Sure! {#tags#: [#a#,#b#]}") _)
              (lit "Sure! ") (dq "#tags#: [#a#,#b#]") []
              [(lit "tags", VArr [VStr (lit "a"); VStr (lit "b")])]
              [VStr (lit "a"); VStr (lit "b")] _ _ _ _).
    + eexists. eexists. repeat split; vm_compute; reflexivity.
    + repeat split; reflexivity.
    + reflexivity.
    + vm_compute; reflexivity.
    + reflexivity.
  - refine (proj1 (proj2 (@generateTags_by_text TestHost.host [] _ (lit "token")
                     (lit "model") VNull VUndefined (lit "no tags today") _)) _).
    + eexists. eexists. repeat split; vm_compute; reflexivity.
    + left. reflexivity.
  - refine (proj2 (proj2 (@generateTags_by_text TestHost.host [] _ (lit "token")
                     (lit "model") VNull VUndefined (dq "{#tags#: #a,b#}") _))
              [] (dq "#tags#: #a,b#") [] [(lit "tags", VStr (lit "a,b"))] _ _ _).
    + eexists. eexists. repeat split; vm_compute; reflexivity.
    + repeat split; reflexivity.
    + vm_compute; reflexivity.
    + exact I.
Defined.

(* ===================================================================== *)
(** * 21. Failed task requests                                             *)
(* ===================================================================== *)

(** C1, at the failing input.  The endpoint answers 500 with the JSON
    body [{"message": "boom"}], which has no [detail]: none of the six
    operations raises anything, each returns what it returns for an empty
    completion. *)
Theorem error_without_detail_is_swallowed host WEBUI_BASE_URL token model
    messages prompt chat_id type :
  let fetch := respond 500 (dq "{#message#: #boom#}") in
  generateTitle host WEBUI_BASE_URL fetch token model messages chat_id = Ret VNull /\
  generateFollowUps host WEBUI_BASE_URL fetch token model messages chat_id
  = Ret (VArr []) /\
  generateTags host WEBUI_BASE_URL fetch token model messages chat_id = Ret (VArr []) /\
  generateEmoji host WEBUI_BASE_URL fetch token model prompt chat_id = Ret VNull /\
  generateQueries host WEBUI_BASE_URL fetch token model messages prompt type
  = Ret (VArr [VStr []]) /\
  generateAutoCompletion host WEBUI_BASE_URL fetch token model prompt messages type
  = Ret (VStr []).
Proof. repeat split. Qed.

(** The handler in general: a failed response whose JSON body is an
    object without [detail] leaves both [res] and [error] null. *)
Lemma task_settle_without_detail host r body_value :
  ok r = false ->
  JSON_parse (body r) = Ret (VObj body_value) ->
  obj_lookup (lit "detail") body_value = None ->
  task_settle host (Responded r) = Ret (VNull, VNull).
Proof.
  intros Hok Hp Hd. unfold task_settle, await_then_json, then_json.
  rewrite Hok, Hp. cbv [negb bind exn_has has_property obj_has]. rewrite Hd.
  reflexivity.
Qed.

(** What the six operations do raise: a [detail] that is truthy. *)
Lemma task_settle_detail host r body_value detail :
  ok r = false ->
  JSON_parse (body r) = Ret (VObj body_value) ->
  obj_lookup (lit "detail") body_value = Some detail ->
  task_settle host (Responded r) = Ret (VNull, detail).
Proof.
  intros Hok Hp Hd. unfold task_settle, await_then_json, then_json.
  rewrite Hok, Hp. cbv [negb bind exn_has has_property obj_has]. rewrite Hd.
  cbv [exn_get get is_nullish get_nn bind]. rewrite Hd. reflexivity.
Qed.

(* ===================================================================== *)
(** * 22. Request headers                                                  *)
(* ===================================================================== *)

Lemma authorization_conditional (fixed : list (jstring * jstring)) token url method body :
  find (header_named "authorization") fixed = None ->
  authorization {| req_url := url; req_method := method;
                   req_headers := fixed ++ bearer_if_token token; req_body := body |}
  = bearer_unless_empty token.
Proof.
  intros Hf. unfold authorization. simpl.
  assert (E : forall l, find (header_named "authorization") (fixed ++ l)
                        = find (header_named "authorization") l).
  { intros l. induction fixed as [|h t IH]; [reflexivity|].
    simpl in *. destruct (header_named "authorization" h); [discriminate|]. apply IH, Hf. }
  rewrite E. destruct token; reflexivity.
Qed.

Lemma authorization_task WEBUI_BASE_URL path token fields :
  authorization (task_request WEBUI_BASE_URL path token fields)
  = Some (lit "Bearer " ++ token).
Proof. reflexivity. Qed.

(* ===================================================================== *)
(** * 23. What can be thrown                                               *)
(* ===================================================================== *)







(** Induction on values, through the arrays and objects that hold
    them. *)
Lemma value_induction (P : value -> Prop) :
  P VUndefined -> P VNull -> (forall b, P (VBool b)) -> (forall n, P (VNum n)) ->
  (forall s, P (VStr s)) ->
  (forall l, Forall P l -> P (VArr l)) ->
  (forall o, Forall (fun kv => P (snd kv)) o -> P (VObj o)) ->
  forall v, P v.
Proof.
  intros Hu Hn Hb Hnum Hs Ha Ho.
  fix IH 1. intros [| |b|n|s|l|o].
  - exact Hu.
  - exact Hn.
  - apply Hb.
  - apply Hnum.
  - apply Hs.
  - apply Ha. induction l as [|x l IHl]; constructor; [apply IH | exact IHl].
  - apply Ho. induction o as [|[k x] o IHo]; constructor; [apply IH | exact IHo].
Qed.

Section Throws.

Variable host : Host.










Variable fetch : request -> fetch_result.


End Throws.

(* ===================================================================== *)
(** * 24. executeToolServer                                                *)
(* ===================================================================== *)

Lemma str_eqb_refl a : str_eqb a a = true.
Proof. induction a as [|x a IH]; simpl; [reflexivity|]. rewrite N.eqb_refl. exact IH. Qed.

Lemma str_eqb_eq a b : str_eqb a b = true <-> a = b.
Proof.
  split; [|intros ->; apply str_eqb_refl].
  revert b. induction a as [|x a IH]; intros [|y b]; simpl; try discriminate; [reflexivity|].
  intros H. apply andb_prop in H as [Hx Ha]. apply N.eqb_eq in Hx. f_equal; [exact Hx | apply IH, Ha].
Qed.

Lemma bind_ret_inv {A B} (c : completion A) (k : A -> completion B) b :
  bind c k = Ret b -> exists a, c = Ret a /\ k a = Ret b.
Proof. destruct c as [a|e]; simpl; [|discriminate]. intros H. exists a. auto. Qed.

(** Take a successful run apart, one step at a time. *)
Ltac invert_run H :=
  repeat
    match type of H with
    | bind ?c ?k = Ret _ =>
        let a := fresh "x" in
        let E := fresh "E" in
        apply bind_ret_inv in H as (a & E & H)
    | throw_error _ = Ret _ => discriminate H
    | raise _ = Ret _ => discriminate H
    | (match ?x with _ => _ end) = Ret _ => destruct x eqn:?; try discriminate H
    end.


Lemma find_existsb {A} (p : A -> bool) l :
  match find p l with Some _ => true | None => false end = existsb p l.
Proof. induction l as [|x l IH]; simpl; [reflexivity|]. destruct (p x); [reflexivity | exact IH]. Qed.




Section ToolServer.

Variable host : Host.
Variable fetch : request -> fetch_result.


(** The headers of the request of [executeToolServer], whenever a
    request is made. *)
Lemma executeToolServer_headers token url name params serverData req :
  executeToolServer_request host token url name params serverData = Ret req ->
  req_headers req
  = [(lit "Content-Type", lit "application/json")] ++ bearer_if_token token.
Proof.
  intros H. unfold executeToolServer_request in H. invert_run H.
  injection H as <-. reflexivity.
Qed.

End ToolServer.


(* ===================================================================== *)
(** * 25. The Authorization header                                         *)
(* ===================================================================== *)

(** C4, as amended.  [getModels], [getToolServerData] and
    [executeToolServer] send [Authorization: Bearer <token>] when the
    token is not empty and no Authorization header when it is empty.  The
    six task operations always send [Authorization: Bearer <token>],
    whatever the token. *)
Theorem authorization_by_operation host WEBUI_BASE_URL token base url name params
    serverData model messages prompt chat_id type :
  authorization (getModels_request WEBUI_BASE_URL token base)
  = bearer_unless_empty token /\
  authorization (getToolServerData_request token url) = bearer_unless_empty token /\
  (forall req,
     executeToolServer_request host token url name params serverData = Ret req ->
     authorization req = bearer_unless_empty token) /\
  authorization (generateTitle_request WEBUI_BASE_URL token model messages chat_id)
  = Some (lit "Bearer " ++ token) /\
  authorization (generateFollowUps_request WEBUI_BASE_URL token model messages chat_id)
  = Some (lit "Bearer " ++ token) /\
  authorization (generateTags_request WEBUI_BASE_URL token model messages chat_id)
  = Some (lit "Bearer " ++ token) /\
  authorization (generateEmoji_request WEBUI_BASE_URL token model prompt chat_id)
  = Some (lit "Bearer " ++ token) /\
  authorization
    (generateQueries_request WEBUI_BASE_URL token model messages prompt type)
  = Some (lit "Bearer " ++ token) /\
  authorization
    (generateAutoCompletion_request WEBUI_BASE_URL token model prompt messages type)
  = Some (lit "Bearer " ++ token).
Proof.
  split; [|split; [|split]].
  - apply authorization_conditional. reflexivity.
  - apply authorization_conditional. reflexivity.
  - intros req H. pose proof (executeToolServer_headers _ _ _ _ _ _ H) as E.
    destruct req as [u m h bd]. cbn [req_headers] in E. subst h.
    apply authorization_conditional. reflexivity.
  - repeat split; apply authorization_task.
Qed.

(** C4, counterexample.  With the empty token the six task operations
    still send an Authorization header, whose value is [Bearer ] with
    nothing after the space. *)
Lemma task_requests_send_empty_bearer :
  authorization (generateTitle_request [] [] (lit "model") VNull VUndefined)
  = Some (lit "Bearer ") /\
  authorization (generateFollowUps_request [] [] (lit "model") VNull VUndefined)
  = Some (lit "Bearer ") /\
  authorization (generateTags_request [] [] (lit "model") VNull VUndefined)
  = Some (lit "Bearer ") /\
  authorization (generateEmoji_request [] [] (lit "model") VNull VUndefined)
  = Some (lit "Bearer ") /\
  authorization (generateQueries_request [] [] (lit "model") VNull VNull VNull)
  = Some (lit "Bearer ") /\
  authorization (generateAutoCompletion_request [] [] (lit "model") VNull VNull VNull)
  = Some (lit "Bearer ").
Proof. repeat split. Qed.

(** Witness of [authorization_by_operation]: the request for the items
    server, with and without a token. *)
Lemma authorization_by_operation_witness :
  (exists req,
     executeToolServer_request TestHost.host (lit "secret") (lit "https://tools.example")
       (lit "getItem") items_arguments items_server = Ret req /\
     authorization req = Some (lit "Bearer secret")) /\
  (exists req,
     executeToolServer_request TestHost.host [] (lit "https://tools.example")
       (lit "getItem") items_arguments items_server = Ret req /\
     authorization req = None).
Proof.
  split; eexists; (split; [vm_compute; reflexivity|]).
  - refine (proj1 (proj2 (proj2
      (@authorization_by_operation TestHost.host [] (lit "secret") false
         (lit "https://tools.example") (lit "getItem") items_arguments items_server
         [] VNull VNull VNull VNull))) _ _).
    vm_compute; reflexivity.
  - refine (proj1 (proj2 (proj2
      (@authorization_by_operation TestHost.host [] [] false
         (lit "https://tools.example") (lit "getItem") items_arguments items_server
         [] VNull VNull VNull VNull))) _ _).
    vm_compute; reflexivity.
Defined.

(* ===================================================================== *)
(** * 26. Path parameters                                                  *)
(* ===================================================================== *)

(** C9, at the failing input.  The operation has the path parameters
    [a.b] and [aXb], the template is [/x/{a.b}/y/{aXb}] and the arguments
    are [{a.b: "1", aXb: "2"}].  The pattern built from the first name
    also matches the second placeholder, so both receive the first
    value: the URL ends in [/x/1/y/1], where replacing each placeholder
    by its own value gives [/x/1/y/2]. *)
Theorem dotted_parameter_overwrites_neighbour :
  exists req,
    executeToolServer_request TestHost.host [] (lit "https://tools.example")
      (lit "op") dotted_arguments dotted_server = Ret req /\
    req_url req = lit "https://tools.example/x/1/y/1" /\
    req_url req <> lit "https://tools.example/x/1/y/2".
Proof.
  eexists. split; [vm_compute; reflexivity|]. split; [reflexivity | discriminate].
Qed.

(** On a text without opening brace before the first placeholder the
    test host copies the text up to there. *)
Lemma replace_matches_prefix atoms replacement before rest :
  contains c_lbrace before = false ->
  TestHost.replace_matches (TestHost.Exactly c_lbrace :: atoms) replacement
    (before ++ rest) 0
  = before ++ TestHost.replace_matches (TestHost.Exactly c_lbrace :: atoms)
                replacement rest 0.
Proof.
  induction before as [|c before IH]; intros H; [reflexivity|].
  change (contains c_lbrace (c :: before))
    with ((c_lbrace =? c) || contains c_lbrace before) in H.
  apply orb_false_elim in H as [Hc Hb].
  change ((c :: before) ++ rest) with (c :: (before ++ rest)).
  cbn [TestHost.replace_matches TestHost.matches_at TestHost.atom_matches].
  rewrite Hc. cbn [andb]. rewrite (IH Hb). reflexivity.
Qed.

(** The example of the specification: for the template [/items/{id}]
    with the path parameter [id], the query parameter [verbose] and the
    arguments [{id: "42", verbose: "true"}], the URL is
    [{base}/items/42?verbose=true], for every base without an opening
    brace. *)
Lemma items_example base token :
  contains c_lbrace base = false ->
  exists req,
    executeToolServer_request TestHost.host token base (lit "getItem")
      items_arguments items_server = Ret req /\
    req_url req = base ++ lit "/items/42?verbose=true".
Proof.
  intros Hb.
  exists {| req_url :=
              TestHost.replace_matches
                (TestHost.Exactly c_lbrace
                   :: [TestHost.Exactly 105; TestHost.Exactly 100;
                       TestHost.Exactly c_rbrace])
                (lit "42") (base ++ lit "/items/{id}") 0
              ++ lit "?verbose=true";
            req_method := lit "GET";
            req_headers := [(lit "Content-Type", lit "application/json")]
                             ++ bearer_if_token token;
            req_body := None |}.
  split.
  - vm_compute. reflexivity.
  - cbn [req_url]. rewrite (replace_matches_prefix _ _ _ _ Hb).
    rewrite <- app_assoc. reflexivity.
Qed.

(* ===================================================================== *)
(** * 27. Objects as maps                                                  *)
(* ===================================================================== *)

Lemma str_eqb_spec a b : reflect (a = b) (str_eqb a b).
Proof.
  destruct (str_eqb a b) eqn:E; constructor.
  - apply str_eqb_eq, E.
  - intros ->. rewrite str_eqb_refl in E. discriminate.
Qed.




Lemma keys_replace k v o : map fst (obj_replace k v o) = map fst o.
Proof.
  induction o as [|[k' v'] o IH]; simpl; [reflexivity|].
  destruct (str_eqb k k'); simpl; [reflexivity | f_equal; exact IH].
Qed.

Lemma obj_lookup_replace k v o q :
  obj_has k o = true ->
  obj_lookup q (obj_replace k v o) = if str_eqb q k then Some v else obj_lookup q o.
Proof.
  unfold obj_has. induction o as [|[k' v'] o IH]; simpl; [discriminate|].
  destruct (str_eqb_spec k k') as [->|ne]; simpl.
  - intros _. destruct (str_eqb q k'); reflexivity.
  - intros H. destruct (str_eqb_spec q k') as [->|nq].
    + destruct (str_eqb_spec k' k); [congruence | reflexivity].
    + apply IH, H.
Qed.

Lemma keys_insert_index n k v o x :
  In x (map fst (obj_insert_index n k v o)) <-> x = k \/ In x (map fst o).
Proof.
  induction o as [|[k' v'] o IH]; simpl.
  - intuition.
  - destruct (array_index k') as [n'|]; [destruct (n' <? n)|]; simpl; rewrite ?IH; intuition.
Qed.


Lemma obj_lookup_insert_index n k v o q :
  obj_has k o = false ->
  obj_lookup q (obj_insert_index n k v o) = if str_eqb q k then Some v else obj_lookup q o.
Proof.
  unfold obj_has. induction o as [|[k' v'] o IH]; simpl.
  - intros _. reflexivity.
  - destruct (str_eqb_spec k k') as [->|ne]; [discriminate|]. intros H.
    destruct (array_index k') as [n'|]; [destruct (n' <? n)|]; simpl; try reflexivity.
    destruct (str_eqb_spec q k') as [->|nq].
    + destruct (str_eqb_spec k' k); [congruence | reflexivity].
    + apply IH, H.
Qed.

Lemma obj_lookup_app_new k v o q :
  obj_has k o = false ->
  obj_lookup q (o ++ [(k, v)]) = if str_eqb q k then Some v else obj_lookup q o.
Proof.
  unfold obj_has. induction o as [|[k' v'] o IH]; simpl.
  - intros _. reflexivity.
  - destruct (str_eqb_spec k k') as [->|ne]; [discriminate|]. intros H.
    destruct (str_eqb_spec q k') as [->|nq].
    + destruct (str_eqb_spec k' k); [congruence | reflexivity].
    + apply IH, H.
Qed.

(** Assignment to a property, read back. *)
Lemma obj_lookup_set k v o q :
  obj_lookup q (obj_set k v o) = if str_eqb q k then Some v else obj_lookup q o.
Proof.
  unfold obj_set. destruct (obj_has k o) eqn:E.
  - apply obj_lookup_replace, E.
  - destruct (array_index k).
    + apply obj_lookup_insert_index, E.
    + apply obj_lookup_app_new, E.
Qed.


(* ===================================================================== *)
(** * 28. The merged catalogue                                             *)
(* ===================================================================== *)

Section Catalogue.

Variable host : Host.

Lemma put_model_key modelsMap model :
  put_model host modelsMap model
  = key <- model_key host model ;; Ret (obj_set key model modelsMap).
Proof.
  unfold put_model, model_key. destruct (get model (lit "id")) as [id|e]; reflexivity.
Qed.





Variable direct_outcome : jstring -> value -> value -> completion value.


Variable WEBUI_BASE_URL : jstring.
Variable fetch : request -> fetch_result.




End Catalogue.



(* ===================================================================== *)
(** * 29. Well-formed listings go through                                  *)
(* ===================================================================== *)

Section Returns.

Variable host : Host.










Variable direct_outcome : jstring -> value -> value -> completion value.
Variable WEBUI_BASE_URL : jstring.
Variable fetch : request -> fetch_result.


End Returns.

(* ===================================================================== *)
(** * 30. A connection that fails                                          *)
(* ===================================================================== *)

Section Isolation.

Variable host : Host.
Variable WEBUI_BASE_URL : jstring.
Variable fetch : request -> fetch_result.
Variable direct_outcome : jstring -> value -> value -> completion value.




End Isolation.




(* ===================================================================== *)
(** * 31. Connections without a configuration                              *)
(* ===================================================================== *)

Lemma lit_inj a b : lit a = lit b -> a = b.
Proof.
  unfold lit. intros H.
  rewrite <- (string_of_list_ascii_of_string a), <- (string_of_list_ascii_of_string b).
  f_equal. revert H. generalize (list_ascii_of_string a) (list_ascii_of_string b).
  induction l as [|x l IH]; intros [|y l']; simpl; try discriminate; [reflexivity|].
  intros H. injection H as Hx Hl. f_equal; [|apply IH, Hl].
  rewrite <- (ascii_N_embedding x), <- (ascii_N_embedding y). f_equal. exact Hx.
Qed.

Lemma to_uint_not_nil n : N.to_uint n <> Decimal.Nil.
Proof.
  destruct n as [|p]; simpl; [discriminate|].
  apply DecimalPos.Unsigned.to_uint_nonnil.
Qed.

(** Different indices print differently. *)
Lemma index_string_inj n m : index_string n = index_string m -> n = m.
Proof.
  unfold index_string. intros H. apply lit_inj in H.
  apply DecimalN.Unsigned.to_uint_inj.
  assert (E : Some (N.to_uint n) = Some (N.to_uint m)).
  { rewrite <- (NilZero.usu (N.to_uint n)) by apply to_uint_not_nil.
    rewrite <- (NilZero.usu (N.to_uint m)) by apply to_uint_not_nil.
    rewrite H. reflexivity. }
  injection E as E. exact E.
Qed.

Lemma strs_eqb_eq a b : strs_eqb a b = true <-> a = b.
Proof.
  revert b. induction a as [|x a IH]; intros [|y b]; simpl; try (split; discriminate).
  - split; reflexivity.
  - rewrite andb_true_iff, str_eqb_eq, IH. split.
    + intros [-> ->]. reflexivity.
    + intros H. injection H as -> ->. auto.
Qed.

(** A filter of [0 .. n-1] is an initial segment exactly when the
    elements it keeps are those below some bound. *)
Lemma filter_seq_initial (p : nat -> bool) n m :
  filter p (seq 0 n) = seq 0 m <-> (m <= n)%nat /\ forall j, (j < n)%nat -> (p j = true <-> (j < m)%nat).
Proof.
  split.
  - intros E. split.
    + pose proof (filter_length_le p (seq 0 n)) as L.
      rewrite E, !length_seq in L. exact L.
    + intros j Hj.
      assert (Hin : In j (filter p (seq 0 n)) <-> In j (seq 0 m)) by (rewrite E; reflexivity).
      rewrite filter_In, !in_seq in Hin. split.
      * intros Hp. apply Hin. split; [lia | exact Hp].
      * intros Hlt. apply Hin. lia.
  - intros [Hle H]. revert m Hle H. induction n as [|n IH]; intros m Hle H.
    + replace m with 0%nat by lia. reflexivity.
    + rewrite seq_S, filter_app. simpl.
      destruct (p n) eqn:Ep.
      * assert (m = S n) as -> by (apply H in Ep; lia).
        rewrite (IH n); [rewrite seq_S; reflexivity | lia|].
        intros j Hj. split; [intros _; exact Hj | intros _; apply H; lia].
      * assert (Hm : (m <= n)%nat).
        { destruct (Nat.le_gt_cases m n) as [L|G]; [exact L|].
          assert (p n = true) by (apply H; lia). congruence. }
        rewrite (IH m Hm); [apply app_nil_r|].
        intros j Hj. apply H. lia.
Qed.

Section Skipped.

Variable host : Host.

Lemma origins_from c urls start :
  map origin (requests_from c start urls)
  = filter (has_config (OPENAI_API_CONFIGS c))
           (map (fun i => index_string (N.of_nat i)) (seq start (length urls))).
Proof.
  revert start. induction urls as [|url urls IH]; intros start; [reflexivity|].
  simpl. rewrite map_app, IH. unfold request_for.
  destruct (has_config (OPENAI_API_CONFIGS c) (index_string (N.of_nat start))); [|reflexivity].
  destruct (truthy _); [|reflexivity].
  destruct (model_ids _); reflexivity.
Qed.

(** The promises pushed by the first loop are those of the connections
    that have a configuration, in order. *)
Lemma origins_filter c :
  origins c = filter (has_config (OPENAI_API_CONFIGS c))
                     (indices (length (OPENAI_API_BASE_URLS c))).
Proof. apply origins_from. Qed.

Lemma origins_indices c :
  origins c
  = map (fun i => index_string (N.of_nat i))
        (filter (fun i => has_config (OPENAI_API_CONFIGS c) (index_string (N.of_nat i)))
                (seq 0 (length (OPENAI_API_BASE_URLS c)))).
Proof.
  rewrite origins_filter. unfold indices.
  induction (seq 0 (length (OPENAI_API_BASE_URLS c))) as [|i l IH]; [reflexivity|].
  simpl. destruct (has_config _ _); simpl; rewrite IH; reflexivity.
Qed.

Lemma map_index_string_inj a b :
  map (fun i => index_string (N.of_nat i)) a = map (fun i => index_string (N.of_nat i)) b ->
  a = b.
Proof.
  revert b. induction a as [|x a IH]; intros [|y b]; simpl; try discriminate; [reflexivity|].
  intros H. injection H as Hx Hl. f_equal; [|apply IH, Hl].
  apply index_string_inj in Hx. lia.
Qed.

Lemma mapM_Forall2 {A B} (f : A -> completion B) l ys :
  mapM f l = Ret ys -> Forall2 (fun x y => f x = Ret y) l ys.
Proof.
  revert ys. induction l as [|x l IH]; intros ys H; simpl in H.
  - injection H as <-. constructor.
  - apply bind_ret_inv in H as (y & Ey & H). apply bind_ret_inv in H as (rest & Er & H).
    injection H as <-. constructor; [exact Ey | apply IH, Er].
Qed.

Lemma local_models_stamped c i response models :
  local_models host c i response = Ret models -> Forall (stamped host c i) models.
Proof.
  unfold local_models, stamped.
  set (idx := index_string (N.of_nat i)).
  set (apiConfig := config_at (OPENAI_API_CONFIGS c) idx).
  intros H. apply bind_ret_inv in H as (tagged & Et & H).
  apply bind_ret_inv in H as (prefixed & Ep & H). injection H as <-.
  assert (Ht : Forall (fun m => obj_lookup (lit "urlIdx") m = Some (VStr idx)) tagged).
  { destruct (if Array_isArray response then response
              else nullish_or (get_opt response (lit "data")) (VArr []));
      try discriminate Et.
    apply mapM_Forall2 in Et. clear Ep.
    induction Et as [|x y l l' Hxy _ IH]; [constructor|]. constructor; [|exact IH].
    unfold tag_origin in Hxy. apply bind_ret_inv in Hxy as (id & _ & Hxy).
    injection Hxy as <-. unfold obj_assign. simpl fold_left.
    rewrite obj_lookup_set. reflexivity. }
  assert (Hp : Forall (fun m =>
                 obj_lookup (lit "urlIdx") m = Some (VStr idx) /\
                 (truthy (prefix_id apiConfig) = true ->
                  exists prefix rest,
                    ToString host (prefix_id apiConfig) = Ret prefix /\
                    obj_lookup (lit "id") m = Some (VStr (prefix ++ [c_dot] ++ rest))))
               prefixed).
  { destruct (truthy (prefix_id apiConfig)) eqn:Tp.
    - apply mapM_Forall2 in Ep. clear Et.
      induction Ep as [|x y l l' Hxy _ IH]; [constructor|].
      inversion Ht as [|? ? Hx Hl]; subst. constructor; [|apply IH, Hl].
      unfold apply_prefix in Hxy. apply bind_ret_inv in Hxy as (p & Ep' & Hxy).
      apply bind_ret_inv in Hxy as (id & _ & Hxy). injection Hxy as <-. split.
      + rewrite obj_lookup_set. exact Hx.
      + intros _. exists p, id. split; [exact Ep'|]. rewrite obj_lookup_set. reflexivity.
    - injection Ep as <-. eapply Forall_impl; [|exact Ht].
      intros m Hm. split; [exact Hm | discriminate]. }
  destruct (truthy (tags apiConfig)) eqn:Tt.
  - apply Forall_forall. intros m Hin. apply in_map_iff in Hin as (m0 & <- & Hin).
    rewrite Forall_forall in Hp. destruct (Hp m0 Hin) as (Hu & Hpre). repeat split.
    + rewrite obj_lookup_set. exact Hu.
    + intros _. rewrite obj_lookup_set. reflexivity.
    + intros T. destruct (Hpre T) as (p & rest & E1 & E2). exists p, rest.
      split; [exact E1|]. rewrite obj_lookup_set. exact E2.
  - eapply Forall_impl; [|exact Hp]. intros m (Hu & Hpre). repeat split; auto.
    discriminate.
Qed.

(** C10, as amended.  The first loop pushes a promise only for the
    connections that have an entry in [OPENAI_API_CONFIGS], so a
    connection without one issues no request and has no response.  The
    second loop takes the configuration and the urlIdx of a response from
    its position among the responses.  The positions are the connection
    indices exactly when the connections that have an entry are the
    first ones of the list: some number [m] of connections at the start
    have an entry and none after them has. *)
Theorem skipped_connections_shift_positions c :
  origins c = filter (has_config (OPENAI_API_CONFIGS c))
                     (indices (length (OPENAI_API_BASE_URLS c))) /\
  (forall i, has_config (OPENAI_API_CONFIGS c) (index_string (N.of_nat i)) = false ->
             ~ In (index_string (N.of_nat i)) (origins c)) /\
  (forall i response models,
     local_models host c i response = Ret models -> Forall (stamped host c i) models) /\
  (positions_coincide c = true <->
   exists m, (m <= length (OPENAI_API_BASE_URLS c))%nat /\
     forall j, (j < length (OPENAI_API_BASE_URLS c))%nat ->
       (has_config (OPENAI_API_CONFIGS c) (index_string (N.of_nat j)) = true
        <-> (j < m)%nat)).
Proof.
  split; [apply origins_filter|]. split; [|split].
  - intros i Hi Hin. rewrite origins_filter in Hin. apply filter_In in Hin as [_ H].
    congruence.
  - apply local_models_stamped.
  - unfold positions_coincide. rewrite strs_eqb_eq. unfold indices.
    rewrite origins_indices at 1. split.
    + intros E. apply map_index_string_inj in E.
      exists (length (origins c)). apply filter_seq_initial. exact E.
    + intros (m & Hm). apply filter_seq_initial in Hm.
      rewrite origins_indices, Hm, length_map, length_seq. reflexivity.
Qed.

End Skipped.

(** C10, counterexample.  Of two connections only the first has a
    configuration: its response is at position 0, which is its index, so
    the positions coincide with the indices although the second
    connection has no configuration. *)
Lemma positions_coincide_without_all_configured :
  positions_coincide one_configured = true /\
  all_configured one_configured = false /\
  origins one_configured = [lit "0"].
Proof. repeat split. Qed.

(** Witness of [skipped_connections_shift_positions]: when only the
    second of two connections has a configuration, its response is at
    position 0 and is read with the configuration of index 0, which does
    not exist: the prefix [local] is not applied. *)
Lemma skipped_connections_shift_positions_witness :
  ~ In (index_string 0) (origins second_configured) /\
  positions_coincide second_configured = false /\
  getModels TestHost.host [] (respond 200 (dq "{#data#: []}")) first_fails (lit "token")
    (Some second_configured) false
  = Ret (parsed (dq "[{#id#: #m#, #name#: #m#, #owned_by#: #openai#, #openai#: {#id#: #m#}, #urlIdx#: #0#, #direct#: true}]")).
Proof.
  split; [|split].
  - apply (proj1 (proj2 (skipped_connections_shift_positions TestHost.host
                           second_configured)) 0%nat).
    reflexivity.
  - reflexivity.
  - vm_compute. reflexivity.
Defined.

(* ===================================================================== *)
(** * 32. Failures of the plain calls                                      *)
(* ===================================================================== *)

Lemma await_fails net req err :
  fails_with net req err -> await_then_json (net req) = Throw (ExnValue err).
Proof.
  intros (r & -> & Hok & Hp). unfold await_then_json, then_json.
  rewrite Hok, Hp. reflexivity.
Qed.

Lemma await_succeeds net req res :
  succeeds_with net req res -> await_then_json (net req) = Ret res.
Proof.
  intros (r & -> & Hok & Hp). unfold await_then_json, then_json.
  rewrite Hok, Hp. reflexivity.
Qed.

Lemma await_garbage net req :
  answers_garbage net req ->
  await_then_json (net req) = Throw (ExnError (Engine JsonSyntax)).
Proof.
  intros (r & e & -> & Hp). unfold await_then_json, then_json.
  rewrite Hp. rewrite (JSON_parse_throws _ Hp). destruct (negb (ok r)); reflexivity.
Qed.

Lemma catch_detail_object host net req body :
  fails_with net req (VObj body) ->
  catch_detail host (net req)
  = Ret (VNull, ExnValue (match obj_lookup (lit "detail") body with
                          | Some detail => detail
                          | None => VObj body
                          end)).
Proof.
  intros H. unfold catch_detail. rewrite (await_fails H).
  cbv [exn_has has_property obj_has bind exn_get get is_nullish get_nn].
  destruct (obj_lookup (lit "detail") body); reflexivity.
Qed.

Lemma catch_detail_primitive host net req err :
  fails_with net req err -> is_primitive err = true ->
  catch_detail host (net req) = Throw (ExnError (Engine NotAnObject)).
Proof.
  intros H Hp. unfold catch_detail. rewrite (await_fails H).
  destruct err; try discriminate; reflexivity.
Qed.

Lemma catch_detail_error host f m :
  await_then_json f = Throw (ExnError m) ->
  catch_detail host f = Ret (VNull, ExnError m).
Proof. intros H. unfold catch_detail. rewrite H. reflexivity. Qed.

Lemma await_rejected (net : request -> fetch_result) req why :
  net req = Rejected why -> await_then_json (net req) = Throw (ExnError (Text why)).
Proof. intros ->. reflexivity. Qed.

(** The calls whose handler prefers [detail] unfold to the same chain. *)
Ltac unfold_calls :=
  cbv [run network request_of chatCompleted chatAction stopTask getTaskIdsByChatId
       getTaskConfig updateTaskConfig getPipelinesList downloadPipeline deletePipeline
       getPipelines getPipelineValves getPipelineValvesSpec updatePipelineValves
       getBackendConfig getChangelog getVersionUpdates getModelFilterConfig
       updateModelFilterConfig getWebhookUrl updateWebhookUrl
       getCommunitySharingEnabledStatus toggleCommunitySharingEnabledStatus
       getModelConfig updateModelConfig] in *.

Section PlainCalls.

Variable host : Host.
Variable WEBUI_BASE_URL : jstring.
Variable fetch : request -> fetch_result.
Variable fetch_with_credentials : request -> fetch_result.

(** X1.  A call whose handler prefers [detail], answered outside 2xx
    with a JSON object: it throws the [detail] of the object when there
    is one and it is truthy, and the whole object when there is no
    [detail]. *)
Theorem failed_call_throws_detail c body :
  handler_of c = PrefersDetail ->
  fails_with fetch (request_of WEBUI_BASE_URL c) (VObj body) ->
  (forall detail,
     obj_lookup (lit "detail") body = Some detail -> truthy detail = true ->
     run host WEBUI_BASE_URL fetch fetch_with_credentials c = Throw (ExnValue detail)) /\
  (obj_lookup (lit "detail") body = None ->
   run host WEBUI_BASE_URL fetch fetch_with_credentials c = Throw (ExnValue (VObj body))).
Proof.
  intros Hh Hf.
  destruct c; try discriminate Hh; unfold_calls;
    rewrite (catch_detail_object host Hf); cbn [bind unless_error];
    (split; [intros detail -> Ht; cbn [truthy_exn]; rewrite Ht; reflexivity
            | intros ->; reflexivity]).
Qed.

(** X2.  A call whose handler keeps the error, answered outside 2xx
    with a JSON body that is truthy: it throws the body as it is, whether
    or not the body has a [detail].  [getModels] does the same. *)
Theorem failed_call_throws_body err :
  truthy err = true ->
  (forall c,
     handler_of c = KeepsError ->
     fails_with (network fetch fetch_with_credentials c) (request_of WEBUI_BASE_URL c) err ->
     run host WEBUI_BASE_URL fetch fetch_with_credentials c = Throw (ExnValue err)) /\
  (forall direct_outcome token connections base,
     fails_with fetch (getModels_request WEBUI_BASE_URL token base) err ->
     getModels host WEBUI_BASE_URL fetch direct_outcome token connections base
     = Throw (ExnValue err)).
Proof.
  intros Ht. split.
  - intros c Hh Hf.
    destruct c; try discriminate Hh; unfold_calls; unfold catch_raw;
      rewrite (await_fails Hf); cbn [unless_error truthy_exn]; rewrite Ht; reflexivity.
  - intros direct_outcome token connections base Hf. unfold getModels.
    rewrite (await_fails Hf). cbn [truthy_exn]. rewrite Ht. reflexivity.
Qed.

(** X3.  When the network cannot be reached, every plain call but one
    throws the error of [fetch]; [toggleCommunitySharingEnabledStatus],
    whose handler reads [detail] only, returns null.  [getModels] and
    [generateMoACompletion] throw the error of [fetch] too. *)
Theorem unreachable_call why :
  (forall c,
     network fetch fetch_with_credentials c (request_of WEBUI_BASE_URL c) = Rejected why ->
     run host WEBUI_BASE_URL fetch fetch_with_credentials c
     = match handler_of c with
       | OnlyDetail => Ret VNull
       | _ => Throw (ExnError (Text why))
       end) /\
  (forall direct_outcome token connections base,
     fetch (getModels_request WEBUI_BASE_URL token base) = Rejected why ->
     getModels host WEBUI_BASE_URL fetch direct_outcome token connections base
     = Throw (ExnError (Text why))) /\
  (forall token model prompt responses,
     fetch (generateMoACompletion_request WEBUI_BASE_URL token model prompt responses)
     = Rejected why ->
     generateMoACompletion WEBUI_BASE_URL fetch token model prompt responses
     = Throw (ExnError (Text why))).
Proof.
  split; [|split].
  - intros c Hf.
    destruct c; unfold_calls;
      unfold catch_raw, catch_detail, catch_detail_only; rewrite Hf; reflexivity.
  - intros direct_outcome token connections base Hf. unfold getModels.
    rewrite Hf. reflexivity.
  - intros token model prompt responses Hf. unfold generateMoACompletion.
    rewrite Hf. reflexivity.
Qed.

(** X4.  A call whose handler prefers [detail], answered outside 2xx
    with a JSON body that is not an object (null, a boolean, a number or
    a string): the [in] test of the handler throws, and the call throws
    that TypeError instead of anything the server sent. *)
Theorem primitive_error_body_is_a_type_error c err :
  handler_of c = PrefersDetail ->
  fails_with fetch (request_of WEBUI_BASE_URL c) err ->
  is_primitive err = true ->
  run host WEBUI_BASE_URL fetch fetch_with_credentials c
  = Throw (ExnError (Engine NotAnObject)).
Proof.
  intros Hh Hf Hp.
  destruct c; try discriminate Hh; unfold_calls;
    rewrite (catch_detail_primitive host Hf Hp); reflexivity.
Qed.

(** X5.  [toggleCommunitySharingEnabledStatus] reports a failure only
    through a truthy [detail]: answered outside 2xx with an object that
    has no [detail] or a falsy one, or with a body that is not JSON, it
    returns null as if the server had answered null. *)
Theorem toggle_reports_only_detail token :
  let req := toggleCommunitySharingEnabledStatus_request WEBUI_BASE_URL token in
  (forall body,
     fails_with fetch req (VObj body) ->
     toggleCommunitySharingEnabledStatus host WEBUI_BASE_URL fetch token
     = match obj_lookup (lit "detail") body with
       | Some detail => if truthy detail then Throw (ExnValue detail) else Ret VNull
       | None => Ret VNull
       end) /\
  (answers_garbage fetch req ->
   toggleCommunitySharingEnabledStatus host WEBUI_BASE_URL fetch token = Ret VNull).
Proof.
  intros req. split.
  - intros body Hf. unfold toggleCommunitySharingEnabledStatus, catch_detail_only.
    fold req. rewrite (await_fails Hf).
    cbv [exn_get get is_nullish get_nn bind unless_error truthy_exn].
    destruct (obj_lookup (lit "detail") body) as [detail|]; [|reflexivity].
    destruct (truthy detail); reflexivity.
  - intros Hg. unfold toggleCommunitySharingEnabledStatus, catch_detail_only.
    fold req. rewrite (await_garbage Hg). reflexivity.
Qed.

(** X6.  An error that is falsy is not reported.  A call whose handler
    keeps the error, answered outside 2xx with a falsy JSON body (null,
    false, zero or the empty string), goes on with a null answer: it
    returns null, or the empty list where it reads [data], or throws the
    TypeError of reading a field of null.  A call whose handler prefers
    [detail], answered with an object whose [detail] is falsy, returns
    null. *)
Theorem falsy_error_is_not_reported c :
  (forall err,
     handler_of c = KeepsError ->
     fails_with (network fetch fetch_with_credentials c) (request_of WEBUI_BASE_URL c) err ->
     truthy err = false ->
     run host WEBUI_BASE_URL fetch fetch_with_credentials c
     = match returned_of c with
       | Whole => Ret VNull
       | Field _ => Throw (ExnError (Engine NullDeref))
       | DataOrEmpty => Ret (VArr [])
       end) /\
  (forall body detail,
     handler_of c = PrefersDetail ->
     fails_with fetch (request_of WEBUI_BASE_URL c) (VObj body) ->
     obj_lookup (lit "detail") body = Some detail ->
     truthy detail = false ->
     run host WEBUI_BASE_URL fetch fetch_with_credentials c = Ret VNull).
Proof.
  split.
  - intros err Hh Hf Ht.
    destruct c; try discriminate Hh; unfold_calls; unfold catch_raw;
      rewrite (await_fails Hf); cbn [unless_error truthy_exn]; rewrite Ht; reflexivity.
  - intros body detail Hh Hf Hd Ht.
    destruct c; try discriminate Hh; unfold_calls;
      rewrite (catch_detail_object host Hf), Hd; cbn [bind unless_error truthy_exn];
      rewrite Ht; reflexivity.
Qed.

(** X7.  Answered 2xx with the JSON body [res], a plain call returns
    [res], or its field [url] or [models], or its [data] with the empty
    list standing in for an absent one; reading the field of a null
    answer is a TypeError. *)
Theorem successful_call_returns c res :
  succeeds_with (network fetch fetch_with_credentials c) (request_of WEBUI_BASE_URL c) res ->
  run host WEBUI_BASE_URL fetch fetch_with_credentials c
  = match returned_of c with
    | Whole => Ret res
    | Field name =>
        if is_nullish res then Throw (ExnError (Engine NullDeref))
        else Ret (get_nn res (lit name))
    | DataOrEmpty =>
        Ret (if is_nullish (get_opt res (lit "data")) then VArr []
             else get_opt res (lit "data"))
    end.
Proof.
  intros Hs.
  destruct c; unfold_calls; unfold catch_raw, catch_detail, catch_detail_only;
    rewrite (await_succeeds Hs); reflexivity.
Qed.

(** X8.  The calls that read [data] never return null or undefined, and
    neither does [getModels]. *)
Theorem listings_are_never_nullish :
  (forall c result,
     returned_of c = DataOrEmpty ->
     run host WEBUI_BASE_URL fetch fetch_with_credentials c = Ret result ->
     is_nullish result = false) /\
  (forall direct_outcome token connections base result,
     getModels host WEBUI_BASE_URL fetch direct_outcome token connections base = Ret result ->
     is_nullish result = false).
Proof.
  assert (N : forall a, is_nullish (nullish_or a (VArr [])) = false).
  { intros a. unfold nullish_or. destruct (is_nullish a) eqn:E; [reflexivity | exact E]. }
  split.
  - intros c result Hr H.
    destruct c; try discriminate Hr; unfold_calls; unfold unless_error in H;
      destruct (catch_raw _) as [res error]; destruct (truthy_exn error);
      try discriminate H; injection H as <-; apply N.
  - intros direct_outcome token connections base result H. unfold getModels in H.
    apply bind_ret_inv in H as (res & _ & H).
    assert (M : forall c models, merge_connections host direct_outcome c models = Ret result ->
                                 is_nullish result = false).
    { intros c models Hm. unfold merge_connections in Hm.
      apply bind_ret_inv in Hm as (a & _ & Hm). apply bind_ret_inv in Hm as (b & _ & Hm).
      apply bind_ret_inv in Hm as (d & _ & Hm). injection Hm as <-. reflexivity. }
    destruct connections as [c|].
    + destruct (negb base); [exact (M _ _ H)|]. injection H as <-. apply N.
    + injection H as <-. apply N.
Qed.

(** X9.  The Authorization header of the plain calls.  The calls of
    chats, tasks and pipelines leave it out for an empty token; the calls
    of the configuration always send [Bearer] and the token, the empty
    one included, as [generateMoACompletion] does; [getBackendConfig] and
    [getChangelog] send none. *)
Theorem authorization_of_plain_calls :
  (forall c,
     authorization (request_of WEBUI_BASE_URL c)
     = match credential_of c with
       | OmitsEmpty => bearer_unless_empty (token_of c)
       | AlwaysSends => Some (lit "Bearer " ++ token_of c)
       | SendsNone => None
       end) /\
  (forall token model prompt responses,
     authorization (generateMoACompletion_request WEBUI_BASE_URL token model prompt responses)
     = Some (lit "Bearer " ++ token)).
Proof.
  split.
  - intros c. destruct c; cbn [request_of credential_of token_of];
      try reflexivity; apply authorization_conditional; reflexivity.
  - reflexivity.
Qed.

End PlainCalls.

(** A response of the examples, with its status and JSON body. *)
Ltac answered :=
  eexists; split; [reflexivity|]; split; vm_compute; reflexivity.

(** Witness of [failed_call_throws_detail]: a 401 with a [detail], and a
    500 without one. *)
Lemma failed_call_throws_detail_witness :
  chatCompleted TestHost.host [] (respond 401 (dq "{#detail#: #Not authenticated#}"))
    (lit "token") (VObj [])
  = Throw (ExnValue (VStr (lit "Not authenticated"))) /\
  stopTask TestHost.host [] (respond 500 (dq "{#message#: #boom#}")) (lit "token") (lit "t1")
  = Throw (ExnValue (VObj [(lit "message", VStr (lit "boom"))])).
Proof.
  split.
  - refine (proj1 (@failed_call_throws_detail TestHost.host []
                     (respond 401 (dq "{#detail#: #Not authenticated#}")) (respond 200 [])
                     (ChatCompleted (lit "token") (VObj []))
                     [(lit "detail", VStr (lit "Not authenticated"))] eq_refl _)
              (VStr (lit "Not authenticated")) eq_refl eq_refl).
    answered.
  - refine (proj2 (@failed_call_throws_detail TestHost.host []
                     (respond 500 (dq "{#message#: #boom#}")) (respond 200 [])
                     (StopTask (lit "token") (lit "t1"))
                     [(lit "message", VStr (lit "boom"))] eq_refl _)
              eq_refl).
    answered.
Defined.

(** Witness of [failed_call_throws_body]: the body of a 403 is thrown
    whole, [detail] and all. *)
Lemma failed_call_throws_body_witness :
  getTaskConfig [] (respond 403 (dq "{#detail#: #Forbidden#}")) (lit "token")
  = Throw (ExnValue (VObj [(lit "detail", VStr (lit "Forbidden"))])) /\
  getModels TestHost.host [] (respond 403 (dq "{#detail#: #Forbidden#}")) first_fails
    (lit "token") None false
  = Throw (ExnValue (VObj [(lit "detail", VStr (lit "Forbidden"))])).
Proof.
  destruct (@failed_call_throws_body TestHost.host []
              (respond 403 (dq "{#detail#: #Forbidden#}")) (respond 200 [])
              (VObj [(lit "detail", VStr (lit "Forbidden"))]) eq_refl) as (Hcalls & Hmodels).
  split.
  - apply (Hcalls (GetTaskConfig (lit "token")) eq_refl). answered.
  - apply Hmodels. answered.
Defined.

(** Witness of [unreachable_call]. *)
Lemma unreachable_call_witness :
  getChangelog [] (unreachable (lit "Failed to fetch"))
  = Throw (ExnError (Text (lit "Failed to fetch"))) /\
  toggleCommunitySharingEnabledStatus TestHost.host [] (unreachable (lit "Failed to fetch"))
    (lit "token")
  = Ret VNull.
Proof.
  destruct (@unreachable_call TestHost.host [] (unreachable (lit "Failed to fetch"))
              (unreachable (lit "Failed to fetch")) (lit "Failed to fetch"))
    as (Hcalls & _).
  split.
  - apply (Hcalls GetChangelog). reflexivity.
  - apply (Hcalls (ToggleCommunitySharingEnabledStatus (lit "token"))). reflexivity.
Defined.

(** Witness of [primitive_error_body_is_a_type_error]: a gateway that
    answers 502 with the JSON string [Bad Gateway]. *)
Lemma primitive_error_body_is_a_type_error_witness :
  deletePipeline TestHost.host [] (respond 502 (dq "#Bad Gateway#"))
    (lit "token") (lit "p1") (lit "0")
  = Throw (ExnError (Engine NotAnObject)).
Proof.
  apply (@primitive_error_body_is_a_type_error TestHost.host []
           (respond 502 (dq "#Bad Gateway#")) (respond 200 [])
           (DeletePipeline (lit "token") (lit "p1") (lit "0"))
           (VStr (lit "Bad Gateway")) eq_refl); [answered | reflexivity].
Defined.

(** Witness of [toggle_reports_only_detail]: a 500 without [detail] and
    a 502 with an HTML page. *)
Lemma toggle_reports_only_detail_witness :
  toggleCommunitySharingEnabledStatus TestHost.host []
    (respond 500 (dq "{#message#: #boom#}")) (lit "token") = Ret VNull /\
  toggleCommunitySharingEnabledStatus TestHost.host []
    (respond 502 (lit "<html>Bad Gateway</html>")) (lit "token") = Ret VNull.
Proof.
  split.
  - apply (proj1 (@toggle_reports_only_detail TestHost.host []
                    (respond 500 (dq "{#message#: #boom#}")) (lit "token"))
             [(lit "message", VStr (lit "boom"))]).
    answered.
  - apply (proj2 (@toggle_reports_only_detail TestHost.host []
                    (respond 502 (lit "<html>Bad Gateway</html>")) (lit "token"))).
    eexists. eexists. split; [reflexivity | vm_compute; reflexivity].
Defined.

(** Witness of [falsy_error_is_not_reported]: a 500 whose body is
    [null], and a 400 whose [detail] is the empty string. *)
Lemma falsy_error_is_not_reported_witness :
  getTaskConfig [] (respond 500 (lit "null")) (lit "token") = Ret VNull /\
  getPipelinesList [] (respond 500 (lit "null")) (lit "token") = Ret (VArr []) /\
  getWebhookUrl [] (respond 500 (lit "null")) (lit "token")
  = Throw (ExnError (Engine NullDeref)) /\
  chatCompleted TestHost.host [] (respond 400 (dq "{#detail#: ##}")) (lit "token") (VObj [])
  = Ret VNull.
Proof.
  split; [|split; [|split]].
  - apply (proj1 (@falsy_error_is_not_reported TestHost.host []
                    (respond 500 (lit "null")) (respond 200 [])
                    (GetTaskConfig (lit "token"))) VNull eq_refl);
      [answered | reflexivity].
  - apply (proj1 (@falsy_error_is_not_reported TestHost.host []
                    (respond 500 (lit "null")) (respond 200 [])
                    (GetPipelinesList (lit "token"))) VNull eq_refl);
      [answered | reflexivity].
  - apply (proj1 (@falsy_error_is_not_reported TestHost.host []
                    (respond 500 (lit "null")) (respond 200 [])
                    (GetWebhookUrl (lit "token"))) VNull eq_refl);
      [answered | reflexivity].
  - apply (proj2 (@falsy_error_is_not_reported TestHost.host []
                    (respond 400 (dq "{#detail#: ##}")) (respond 200 [])
                    (ChatCompleted (lit "token") (VObj [])))
             [(lit "detail", VStr [])] (VStr []) eq_refl);
      [answered | reflexivity | reflexivity].
Defined.

(** Witness of [successful_call_returns]. *)
Lemma successful_call_returns_witness :
  getWebhookUrl [] (respond 200 (dq "{#url#: #https://hooks.example/1#}")) (lit "token")
  = Ret (VStr (lit "https://hooks.example/1")) /\
  getModelConfig [] (respond 200 (lit "null")) (lit "token")
  = Throw (ExnError (Engine NullDeref)) /\
  getPipelines [] (respond 200 (dq "{#pipelines#: []}")) (lit "token") None
  = Ret (VArr []).
Proof.
  split; [|split].
  - apply (@successful_call_returns TestHost.host []
             (respond 200 (dq "{#url#: #https://hooks.example/1#}")) (respond 200 [])
             (GetWebhookUrl (lit "token"))
             (VObj [(lit "url", VStr (lit "https://hooks.example/1"))])).
    answered.
  - apply (@successful_call_returns TestHost.host []
             (respond 200 (lit "null")) (respond 200 [])
             (GetModelConfig (lit "token")) VNull).
    answered.
  - apply (@successful_call_returns TestHost.host []
             (respond 200 (dq "{#pipelines#: []}")) (respond 200 [])
             (GetPipelines (lit "token") None)
             (VObj [(lit "pipelines", VArr [])])).
    answered.
Defined.

(** Witness of [listings_are_never_nullish]: a server that answers
    [{"data": null}]. *)
Lemma listings_are_never_nullish_witness :
  exists result,
    getPipelinesList [] (respond 200 (dq "{#data#: null}")) (lit "token") = Ret result /\
    is_nullish result = false.
Proof.
  exists (VArr []).
  assert (H : getPipelinesList [] (respond 200 (dq "{#data#: null}")) (lit "token")
              = Ret (VArr [])) by (vm_compute; reflexivity).
  split; [exact H|].
  exact (proj1 (@listings_are_never_nullish TestHost.host []
                  (respond 200 (dq "{#data#: null}")) (respond 200 []))
           (GetPipelinesList (lit "token")) (VArr []) eq_refl H).
Defined.

(* ===================================================================== *)
(** * 33. Failures and results of the task operations                      *)
(* ===================================================================== *)

Lemma has_indexed_detail n : has_indexed n (lit "detail") = false.
Proof. reflexivity. Qed.

Lemma await_unreadable net req :
  fails_unreadably net req -> exists m, await_then_json (net req) = Throw (ExnError m).
Proof.
  intros [(why & H)|H].
  - rewrite H. eexists. reflexivity.
  - rewrite (await_garbage H). eexists. reflexivity.
Qed.

Lemma task_settle_unreadable host net req :
  fails_unreadably net req -> task_settle host (net req) = Ret (VNull, VNull).
Proof.
  intros H. destruct (await_unreadable H) as (m & E). unfold task_settle.
  rewrite E. reflexivity.
Qed.

(** What [task_settle] throws or leaves in [error] is what
    [detail_thrown] describes. *)
Lemma task_settle_thrown host f e :
  (task_settle host f = Throw e \/
   exists res error, task_settle host f = Ret (res, error) /\
                     truthy error = true /\ e = ExnValue error)
  <-> detail_thrown f e.
Proof.
  unfold task_settle, detail_thrown. split.
  - destruct f as [why|r]; cbn [await_then_json].
    + intros [H|(res & error & H & Ht & _)]; [discriminate H|].
      injection H as <- <-. discriminate Ht.
    + unfold then_json. destruct (ok r) eqn:Hok; cbn [negb].
      * destruct (JSON_parse (body r)) as [res|e'] eqn:Hp.
        -- intros [H|(res' & error & H & Ht & _)]; [discriminate H|].
           injection H as <- <-. discriminate Ht.
        -- rewrite (JSON_parse_throws _ Hp).
           intros [H|(res' & error & H & Ht & _)]; [discriminate H|].
           injection H as <- <-. discriminate Ht.
      * destruct (JSON_parse (body r)) as [err|e'] eqn:Hp; cbn [bind].
        -- intros H. exists r, err. repeat split; try assumption; try reflexivity.
           destruct err as [| |b|n|s|l|o]; cbn [exn_has has_property bind raise] in H;
             try (right; split; [reflexivity|];
                  destruct H as [H|(res' & error & H & _)]; [|discriminate H];
                  injection H as <-; reflexivity).
           ++ rewrite has_indexed_detail in H.
              destruct H as [H|(res' & error & H & Ht & _)]; [discriminate H|].
              injection H as <- <-. discriminate Ht.
           ++ left. unfold obj_has in H.
              cbv [exn_get get is_nullish get_nn bind] in H.
              destruct (obj_lookup (lit "detail") o) as [detail|] eqn:Hd.
              ** destruct H as [H|(res' & error & H & Ht & ->)]; [discriminate H|].
                 injection H as <- <-. exists o, detail. repeat split; assumption.
              ** destruct H as [H|(res' & error & H & Ht & _)]; [discriminate H|].
                 injection H as <- <-. discriminate Ht.
        -- rewrite (JSON_parse_throws _ Hp). cbn [exn_has bind].
           intros [H|(res' & error & H & Ht & _)]; [discriminate H|].
           injection H as <- <-. discriminate Ht.
  - intros (r & err & -> & Hok & Hp & H). cbn [await_then_json]. unfold then_json.
    rewrite Hok, Hp. cbn [negb bind].
    destruct H as [(o & detail & -> & Hd & Ht & ->)|(Hprim & ->)].
    + right. exists VNull, detail.
      cbv [exn_has has_property obj_has bind exn_get get is_nullish get_nn].
      rewrite Hd. repeat split. exact Ht.
    + left. destruct err; try discriminate Hprim; reflexivity.
Qed.

Lemma generateTitle_decode_returns res :
  exists v, generateTitle_decode res = Ret v /\ (v = VNull \/ truthy v = true).
Proof.
  unfold generateTitle_decode.
  destruct (completion_content res) as [content|]; cbn [bind try_catch];
    [|eexists; split; [reflexivity | left; reflexivity]].
  destruct (as_string (nullish_or content (VStr []))) as [text|]; cbn [bind try_catch];
    [|eexists; split; [reflexivity | left; reflexivity]].
  destruct (parse_braces (sanitize text)) as [[parsed|]|]; cbn [bind try_catch];
    try (eexists; split; [reflexivity | left; reflexivity]).
  destruct (has_truthy parsed (lit "title")) eqn:E; cbn [try_catch];
    eexists; (split; [reflexivity|]); [right | left; reflexivity].
  unfold has_truthy in E. apply andb_true_iff in E. apply E.
Qed.

Lemma list_decode_returns (key : string) (fallback : list value) text :
  exists l,
    try_catch
      (match parse_braces text with
       | Some parsing =>
           parsed <- parsing ;;
           if has_truthy parsed (lit key)
           then Ret (array_or_empty (get_nn parsed (lit key)))
           else Ret (VArr [])
       | None => Ret (VArr fallback)
       end)
      (fun _ => Ret (VArr fallback))
    = Ret (VArr l).
Proof.
  destruct (parse_braces text) as [[parsed|]|]; cbn [bind try_catch];
    try (eexists; reflexivity).
  destruct (has_truthy parsed (lit key)); cbn [try_catch]; [|eexists; reflexivity].
  unfold array_or_empty. destruct (get_nn parsed (lit key)); cbn [Array_isArray];
    eexists; reflexivity.
Qed.

Lemma generateFollowUps_decode_returns res :
  exists l, generateFollowUps_decode res = Ret (VArr l).
Proof.
  unfold generateFollowUps_decode.
  destruct (completion_content res) as [content|]; cbn [bind try_catch];
    [|eexists; reflexivity].
  destruct (as_string (nullish_or content (VStr []))) as [text|]; cbn [bind];
    [|eexists; reflexivity].
  apply (list_decode_returns "follow_ups" [] (sanitize text)).
Qed.

Lemma generateTags_decode_returns res :
  exists l, generateTags_decode res = Ret (VArr l).
Proof.
  unfold generateTags_decode.
  destruct (completion_content res) as [content|]; cbn [bind try_catch];
    [|eexists; reflexivity].
  destruct (as_string (nullish_or content (VStr []))) as [text|]; cbn [bind];
    [|eexists; reflexivity].
  apply (list_decode_returns "tags" [] (sanitize text)).
Qed.

Lemma generateQueries_decode_returns res result :
  generateQueries_decode res = Ret result -> exists l, result = VArr l.
Proof.
  unfold generateQueries_decode. intros H.
  apply bind_ret_inv in H as (content & _ & H).
  destruct (as_string (nullish_or content (VStr []))) as [text|]; cbn [bind try_catch] in H;
    [|injection H as <-; eexists; reflexivity].
  destruct (list_decode_returns "queries" [nullish_or content (VStr [])] text) as (l & E).
  rewrite E in H. injection H as <-. exists l. reflexivity.
Qed.

Section Tasks.

Variable host : Host.
Variable WEBUI_BASE_URL : jstring.
Variable fetch : request -> fetch_result.

(** X10.  A task operation whose request fails without a JSON body to
    read, because the network cannot be reached or because the body of
    the response is not JSON, throws nothing: it returns what it returns
    for an empty completion. *)
Theorem unreadable_task_failure_is_silent token model messages prompt chat_id type :
  (forall req, fails_unreadably fetch req) ->
  generateTitle host WEBUI_BASE_URL fetch token model messages chat_id = Ret VNull /\
  generateFollowUps host WEBUI_BASE_URL fetch token model messages chat_id
  = Ret (VArr []) /\
  generateTags host WEBUI_BASE_URL fetch token model messages chat_id = Ret (VArr []) /\
  generateEmoji host WEBUI_BASE_URL fetch token model prompt chat_id = Ret VNull /\
  generateQueries host WEBUI_BASE_URL fetch token model messages prompt type
  = Ret (VArr [VStr []]) /\
  generateAutoCompletion host WEBUI_BASE_URL fetch token model prompt messages type
  = Ret (VStr []).
Proof.
  intros H.
  unfold generateTitle, generateFollowUps, generateTags, generateEmoji, generateQueries,
    generateAutoCompletion.
  rewrite !(task_settle_unreadable host (H _)). repeat split.
Qed.

(** X11.  [generateTitle], [generateFollowUps] and [generateTags] throw
    in these cases only, and in each of them: the response is outside
    2xx and its JSON body is an object with a truthy [detail], which is
    what is thrown, or is not an object at all, and the TypeError of the
    [in] test is thrown. *)
Theorem guarded_tasks_throw_exactly_detail token model messages chat_id e :
  (generateTitle host WEBUI_BASE_URL fetch token model messages chat_id = Throw e
   <-> detail_thrown
         (fetch (generateTitle_request WEBUI_BASE_URL token model messages chat_id)) e) /\
  (generateFollowUps host WEBUI_BASE_URL fetch token model messages chat_id = Throw e
   <-> detail_thrown
         (fetch (generateFollowUps_request WEBUI_BASE_URL token model messages chat_id)) e) /\
  (generateTags host WEBUI_BASE_URL fetch token model messages chat_id = Throw e
   <-> detail_thrown
         (fetch (generateTags_request WEBUI_BASE_URL token model messages chat_id)) e).
Proof.
  assert (G : forall f (decode : value -> completion value),
             (forall res, exists v, decode res = Ret v) ->
             ((settled <- task_settle host f ;;
               let '(res, error) := settled in
               if truthy error then Throw (ExnValue error) else decode res) = Throw e
              <-> detail_thrown f e)).
  { intros f decode Hd. rewrite <- (task_settle_thrown host). split.
    - destruct (task_settle host f) as [[res error]|e'] eqn:E; cbn [bind].
      + destruct (truthy error) eqn:Ht.
        * intros H. injection H as <-. right. exists res, error. repeat split. exact Ht.
        * destruct (Hd res) as (v & ->). discriminate.
      + intros H. injection H as <-. left. reflexivity.
    - intros [->|(res & error & -> & Ht & ->)]; cbn [bind]; [reflexivity|].
      rewrite Ht. reflexivity. }
  split; [|split]; apply G; intros res.
  - destruct (generateTitle_decode_returns res) as (v & E & _). exists v. exact E.
  - destruct (generateFollowUps_decode_returns res) as (l & E). exists (VArr l). exact E.
  - destruct (generateTags_decode_returns res) as (l & E). exists (VArr l). exact E.
Qed.

(** X12.  Whatever the server answers, what [generateFollowUps],
    [generateTags] and [generateQueries] return is a list, and what
    [generateTitle] returns is null or a truthy value. *)
Theorem task_results_have_their_shape token model messages prompt chat_id type result :
  (generateFollowUps host WEBUI_BASE_URL fetch token model messages chat_id = Ret result ->
   Array_isArray result = true) /\
  (generateTags host WEBUI_BASE_URL fetch token model messages chat_id = Ret result ->
   Array_isArray result = true) /\
  (generateQueries host WEBUI_BASE_URL fetch token model messages prompt type = Ret result ->
   Array_isArray result = true) /\
  (generateTitle host WEBUI_BASE_URL fetch token model messages chat_id = Ret result ->
   result = VNull \/ truthy result = true).
Proof.
  unfold generateFollowUps, generateTags, generateQueries, generateTitle.
  repeat split; intros H; apply bind_ret_inv in H as ([res error] & _ & H);
    destruct (truthy error); try discriminate H.
  - destruct (generateFollowUps_decode_returns res) as (l & E).
    rewrite E in H. injection H as <-. reflexivity.
  - destruct (generateTags_decode_returns res) as (l & E).
    rewrite E in H. injection H as <-. reflexivity.
  - destruct (generateQueries_decode_returns _ H) as (l & ->). reflexivity.
  - destruct (generateTitle_decode_returns res) as (v & E & Hv).
    rewrite E in H. injection H as <-. exact Hv.
Qed.

(** X13.  A 2xx answer that has no [choices] (an object without that
    key, say).  The three operations that decode inside [try] return
    their fallback; [generateEmoji], [generateQueries] and
    [generateAutoCompletion], which read the content outside of it,
    throw the TypeError of indexing undefined. *)
Theorem answer_without_choices token model messages prompt chat_id type res :
  (forall req, succeeds_with fetch req res) ->
  is_nullish res = false ->
  is_nullish (get_nn res (lit "choices")) = true ->
  generateTitle host WEBUI_BASE_URL fetch token model messages chat_id = Ret VNull /\
  generateFollowUps host WEBUI_BASE_URL fetch token model messages chat_id
  = Ret (VArr []) /\
  generateTags host WEBUI_BASE_URL fetch token model messages chat_id = Ret (VArr []) /\
  generateEmoji host WEBUI_BASE_URL fetch token model prompt chat_id
  = Throw (ExnError (Engine NullDeref)) /\
  generateQueries host WEBUI_BASE_URL fetch token model messages prompt type
  = Throw (ExnError (Engine NullDeref)) /\
  generateAutoCompletion host WEBUI_BASE_URL fetch token model prompt messages type
  = Throw (ExnError (Engine NullDeref)).
Proof.
  intros Hs Hres Hc.
  assert (S : forall req, task_settle host (fetch req) = Ret (res, VNull)).
  { intros req. unfold task_settle. rewrite (await_succeeds (Hs req)). reflexivity. }
  unfold generateTitle, generateFollowUps, generateTags, generateEmoji, generateQueries,
    generateAutoCompletion.
  rewrite !S. cbn [bind truthy].
  unfold generateTitle_decode, generateFollowUps_decode, generateTags_decode,
    generateEmoji_decode, generateQueries_decode, generateAutoCompletion_decode,
    completion_content, get.
  rewrite Hres, Hc. repeat split.
Qed.

End Tasks.

(* ===================================================================== *)
(** * 34. Completions read as text                                         *)
(* ===================================================================== *)

Lemma surrogate_pair_round_trip c d :
  is_high_surrogate c = true -> is_low_surrogate d = true ->
  utf16 (65536 + (c - 55296) * 1024 + (d - 56320)) = [c; d].
Proof.
  unfold is_high_surrogate, is_low_surrogate. intros Hc Hd.
  apply andb_true_iff in Hc as (Hc1 & Hc2). apply andb_true_iff in Hd as (Hd1 & Hd2).
  apply N.leb_le in Hc1, Hc2, Hd1, Hd2.
  unfold utf16.
  replace (65536 + (c - 55296) * 1024 + (d - 56320) <? 65536) with false
    by (symmetry; apply N.ltb_ge; lia).
  replace (65536 + (c - 55296) * 1024 + (d - 56320) - 65536)
    with (1024 * (c - 55296) + (d - 56320)) by lia.
  assert (Hlt : d - 56320 < 1024) by lia.
  rewrite <- (N.div_unique _ 1024 (c - 55296) (d - 56320) Hlt eq_refl).
  rewrite <- (N.mod_unique _ 1024 (c - 55296) (d - 56320) Hlt eq_refl).
  f_equal; [|f_equal]; lia.
Qed.

Lemma code_points_cons c r :
  code_points (c :: r)
  = if is_high_surrogate c then
      match r with
      | d :: r' =>
          if is_low_surrogate d
          then Some (65536 + (c - 55296) * 1024 + (d - 56320)) :: code_points r'
          else None :: code_points r
      | [] => [None]
      end
    else if is_low_surrogate c then None :: code_points r
    else Some c :: code_points r.
Proof. reflexivity. Qed.

Lemma occurs_in_cons c p s : occurs_in p s -> occurs_in p (c :: s).
Proof. intros (b & a & ->). exists (c :: b), a. reflexivity. Qed.

(** Every code point of a string of code units occurs in it, in its
    UTF-16 form. *)
Lemma code_points_occur n : forall s cp,
  (length s <= n)%nat -> code_units s = true ->
  In (Some cp) (code_points s) -> occurs_in (utf16 cp) s.
Proof.
  induction n as [|n IH]; intros s cp Hn Hu Hin.
  - destruct s; [destruct Hin | simpl in Hn; lia].
  - destruct s as [|c r]; [destruct Hin|].
    simpl in Hn. cbn [code_units forallb] in Hu. apply andb_true_iff in Hu as (Hc & Hr).
    rewrite code_points_cons in Hin.
    destruct (is_high_surrogate c) eqn:Hh.
    + destruct r as [|d r']; [destruct Hin as [H|[]]; discriminate H|].
      destruct (is_low_surrogate d) eqn:Hl.
      * destruct Hin as [H|Hin].
        -- replace cp with (65536 + (c - 55296) * 1024 + (d - 56320)) by congruence.
           rewrite (surrogate_pair_round_trip _ _ Hh Hl).
           exists [], r'. reflexivity.
        -- cbn [forallb] in Hr. apply andb_true_iff in Hr as (_ & Hr').
           simpl in Hn. do 2 apply occurs_in_cons.
           apply IH; [lia | exact Hr' | exact Hin].
      * destruct Hin as [H|Hin]; [discriminate H|].
        apply occurs_in_cons. apply IH; [lia | exact Hr | exact Hin].
    + destruct (is_low_surrogate c).
      * destruct Hin as [H|Hin]; [discriminate H|].
        apply occurs_in_cons. apply IH; [lia | exact Hr | exact Hin].
      * destruct Hin as [H|Hin].
        -- injection H as <-. unfold utf16. rewrite Hc. exists [], r. reflexivity.
        -- apply occurs_in_cons. apply IH; [lia | exact Hr | exact Hin].
Qed.

Lemma code_units_strip_quotes s : code_units s = true -> code_units (strip_quotes s) = true.
Proof.
  unfold code_units, strip_quotes. rewrite !forallb_forall.
  intros H c Hin. apply filter_In in Hin as (Hin & _). apply H, Hin.
Qed.

Section Texts.

Variable host : Host.
Variable WEBUI_BASE_URL : jstring.
Variable fetch : request -> fetch_result.

Lemma first_pictographic_some l emoji :
  first_pictographic host l = Some emoji ->
  exists cp, In (Some cp) l /\ Extended_Pictographic host cp = true /\ emoji = utf16 cp.
Proof.
  induction l as [|[cp|] l IH]; cbn [first_pictographic]; intros H.
  - discriminate H.
  - destruct (Extended_Pictographic host cp) eqn:E.
    + injection H as <-. exists cp. repeat split; [left; reflexivity | exact E].
    + destruct (IH H) as (cp' & Hin & Hp & ->). exists cp'. repeat split; [right|]; assumption.
  - destruct (IH H) as (cp' & Hin & Hp & ->). exists cp'. repeat split; [right|]; assumption.
Qed.

Lemma first_pictographic_none l cp :
  first_pictographic host l = None -> In (Some cp) l ->
  Extended_Pictographic host cp = false.
Proof.
  induction l as [|[cp'|] l IH]; cbn [first_pictographic]; intros H Hin.
  - destruct Hin.
  - destruct (Extended_Pictographic host cp') eqn:E; [discriminate H|].
    destruct Hin as [Heq|Hin]; [injection Heq as <-; exact E | exact (IH H Hin)].
  - destruct Hin as [Heq|Hin]; [discriminate Heq | exact (IH H Hin)].
Qed.

Lemma generateEmoji_answer token model prompt chat_id text :
  answers_with fetch (generateEmoji_request WEBUI_BASE_URL token model prompt chat_id) text ->
  generateEmoji host WEBUI_BASE_URL fetch token model prompt chat_id
  = match first_pictographic host (code_points (strip_quotes text)) with
    | Some emoji => Ret (VStr emoji)
    | None => Ret VNull
    end.
Proof.
  intros H. destruct (task_settle_answer host H) as (res & E & Hc).
  unfold generateEmoji. rewrite E. cbn [bind truthy].
  unfold generateEmoji_decode. unfold completion_content in Hc.
  destruct (is_nullish res); [discriminate Hc|].
  destruct (get (get_nn res (lit "choices")) (lit "0")) as [first|]; [|discriminate Hc].
  cbn [bind] in *. injection Hc as Hc.
  destruct (is_nullish (get_opt first (lit "message"))) eqn:Hm.
  - unfold get_opt at 1 in Hc. rewrite Hm in Hc. discriminate Hc.
  - unfold get_opt at 1 in Hc. rewrite Hm in Hc. unfold get. rewrite Hm, Hc. cbn [bind].
    destruct (strip_quotes text); reflexivity.
Qed.

(** X14.  When the completion is a text of code units, [generateEmoji]
    returns either one code point, in its UTF-16 form, that has the
    property Extended_Pictographic and occurs in the text once its double
    quotes and apostrophes are removed, or null, and then no code point
    of that text has the property. *)
Theorem generateEmoji_returns_a_pictograph token model prompt chat_id text :
  answers_with fetch (generateEmoji_request WEBUI_BASE_URL token model prompt chat_id) text ->
  code_units text = true ->
  (exists cp,
     generateEmoji host WEBUI_BASE_URL fetch token model prompt chat_id
     = Ret (VStr (utf16 cp)) /\
     Extended_Pictographic host cp = true /\
     occurs_in (utf16 cp) (strip_quotes text)) \/
  (generateEmoji host WEBUI_BASE_URL fetch token model prompt chat_id = Ret VNull /\
   forall cp, In (Some cp) (code_points (strip_quotes text)) ->
              Extended_Pictographic host cp = false).
Proof.
  intros H Hu. rewrite (generateEmoji_answer H).
  destruct (first_pictographic host (code_points (strip_quotes text))) as [emoji|] eqn:E.
  - left. destruct (first_pictographic_some _ E) as (cp & Hin & Hp & ->).
    exists cp. repeat split; [exact Hp|].
    apply (@code_points_occur (length (strip_quotes text))); [lia| |exact Hin].
    apply code_units_strip_quotes, Hu.
  - right. split; [reflexivity|]. intros cp Hin. eapply first_pictographic_none; eassumption.
Qed.

Lemma generateAutoCompletion_answer token model prompt messages type text :
  answers_with fetch
    (generateAutoCompletion_request WEBUI_BASE_URL token model prompt messages type) text ->
  generateAutoCompletion host WEBUI_BASE_URL fetch token model prompt messages type
  = try_catch
      (match parse_braces text with
       | Some parsing =>
           parsed <- parsing ;;
           if has_truthy parsed (lit "text") then Ret (get_nn parsed (lit "text"))
           else Ret (VStr [])
       | None => Ret (VStr text)
       end)
      (fun _ => Ret (VStr text)).
Proof.
  intros H. destruct (task_settle_answer host H) as (res & E & Hc).
  unfold generateAutoCompletion. rewrite E. simpl.
  unfold generateAutoCompletion_decode. rewrite Hc. reflexivity.
Qed.

(** X15.  [generateAutoCompletion] by the text of the completion.  A
    text without an opening or without a closing brace is returned as it
    is.  Otherwise the span from the first opening brace to the last
    closing brace is parsed, with no quote replaced: when it is not JSON
    the whole text is returned; when it is an object, its [text] is
    returned if truthy, and the empty string if not. *)
Theorem generateAutoCompletion_by_text token model prompt messages type text :
  answers_with fetch
    (generateAutoCompletion_request WEBUI_BASE_URL token model prompt messages type) text ->
  (contains c_lbrace text = false \/ contains c_rbrace text = false ->
   generateAutoCompletion host WEBUI_BASE_URL fetch token model prompt messages type
   = Ret (VStr text)) /\
  (forall before middle after,
     embeds text before middle after ->
     (forall e,
        JSON_parse (c_lbrace :: middle ++ [c_rbrace]) = Throw e ->
        generateAutoCompletion host WEBUI_BASE_URL fetch token model prompt messages type
        = Ret (VStr text)) /\
     (forall object,
        JSON_parse (c_lbrace :: middle ++ [c_rbrace]) = Ret (VObj object) ->
        generateAutoCompletion host WEBUI_BASE_URL fetch token model prompt messages type
        = Ret (match obj_lookup (lit "text") object with
               | Some completed => if truthy completed then completed else VStr []
               | None => VStr []
               end))).
Proof.
  intros H. rewrite (generateAutoCompletion_answer H). split.
  - intros Hno. rewrite (parse_braces_without _ Hno). reflexivity.
  - intros before middle after He. rewrite (parse_braces_embedded He). split.
    + intros e ->. reflexivity.
    + intros object ->. cbn [bind]. unfold has_truthy. rewrite get_nn_object.
      cbn [truthy andb].
      destruct (obj_lookup (lit "text") object) as [completed|]; [|reflexivity].
      destruct (truthy completed); reflexivity.
Qed.

End Texts.

(** An answer of the examples that carries a completion text. *)
Ltac completed :=
  eexists; eexists; split; [reflexivity|]; repeat split; vm_compute; reflexivity.

(** Witness of [unreadable_task_failure_is_silent]: no network. *)
Lemma unreadable_task_failure_is_silent_witness :
  generateTitle TestHost.host [] (unreachable (lit "Failed to fetch"))
    (lit "token") (lit "model") (VArr []) VUndefined = Ret VNull /\
  generateQueries TestHost.host [] (unreachable (lit "Failed to fetch"))
    (lit "token") (lit "model") (VArr []) (VStr (lit "why")) (VStr (lit "web_search"))
  = Ret (VArr [VStr []]).
Proof.
  destruct (@unreadable_task_failure_is_silent TestHost.host []
              (unreachable (lit "Failed to fetch")) (lit "token") (lit "model")
              (VArr []) (VStr (lit "why")) VUndefined (VStr (lit "web_search")))
    as (Htitle & _ & _ & _ & Hqueries & _).
  - intros req. left. eexists. reflexivity.
  - split; [exact Htitle | exact Hqueries].
Defined.

(** Witness of [guarded_tasks_throw_exactly_detail]: a 401 with a
    [detail]. *)
Lemma guarded_tasks_throw_exactly_detail_witness :
  generateTitle TestHost.host [] (respond 401 (dq "{#detail#: #Not authenticated#}"))
    (lit "token") (lit "model") (VArr []) VUndefined
  = Throw (ExnValue (VStr (lit "Not authenticated"))).
Proof.
  apply (proj1 (@guarded_tasks_throw_exactly_detail TestHost.host []
                  (respond 401 (dq "{#detail#: #Not authenticated#}"))
                  (lit "token") (lit "model") (VArr []) VUndefined
                  (ExnValue (VStr (lit "Not authenticated"))))).
  eexists. exists (VObj [(lit "detail", VStr (lit "Not authenticated"))]).
  split; [reflexivity|]. split; [reflexivity|]. split; [vm_compute; reflexivity|].
  left. eexists. eexists. repeat split.
Defined.

(** Witness of [task_results_have_their_shape]: an object whose [tags]
    is a string gives the empty list. *)
Lemma task_results_have_their_shape_witness :
  generateTags TestHost.host [] (complete_with (dq "{#tags#: #a,b#}"))
    (lit "token") (lit "model") VNull VUndefined = Ret (VArr []) /\
  Array_isArray (VArr []) = true.
Proof.
  split; [vm_compute; reflexivity|].
  apply (proj1 (proj2 (@task_results_have_their_shape TestHost.host []
                         (complete_with (dq "{#tags#: #a,b#}")) (lit "token") (lit "model")
                         VNull VNull VUndefined VNull (VArr [])))).
  vm_compute. reflexivity.
Defined.

(** Witness of [answer_without_choices]: the server answers [{}]. *)
Lemma answer_without_choices_witness :
  generateTitle TestHost.host [] (respond 200 (lit "{}"))
    (lit "token") (lit "model") (VArr []) VUndefined = Ret VNull /\
  generateQueries TestHost.host [] (respond 200 (lit "{}"))
    (lit "token") (lit "model") (VArr []) (VStr (lit "why")) (VStr (lit "web_search"))
  = Throw (ExnError (Engine NullDeref)).
Proof.
  destruct (@answer_without_choices TestHost.host [] (respond 200 (lit "{}"))
              (lit "token") (lit "model") (VArr []) (VStr (lit "why")) VUndefined
              (VStr (lit "web_search")) (VObj []))
    as (Htitle & _ & _ & _ & Hqueries & _).
  - intros req. answered.
  - reflexivity.
  - reflexivity.
  - split; [exact Htitle | exact Hqueries].
Defined.

(** Witness of [generateEmoji_returns_a_pictograph]: the completion
    [smiling] holds U+1F600. *)
Lemma generateEmoji_returns_a_pictograph_witness :
  (exists cp,
     generateEmoji TestHost.host [] (complete_with smiling)
       (lit "token") (lit "model") (VStr (lit "hello")) VUndefined
     = Ret (VStr (utf16 cp)) /\
     Extended_Pictographic TestHost.host cp = true /\
     occurs_in (utf16 cp) (strip_quotes smiling)) \/
  (generateEmoji TestHost.host [] (complete_with smiling)
     (lit "token") (lit "model") (VStr (lit "hello")) VUndefined = Ret VNull /\
   forall cp, In (Some cp) (code_points (strip_quotes smiling)) ->
              Extended_Pictographic TestHost.host cp = false).
Proof.
  apply generateEmoji_returns_a_pictograph; [completed | reflexivity].
Defined.

(** Witness of [generateAutoCompletion_by_text]: a completion in plain
    words, and one that is an object. *)
Lemma generateAutoCompletion_by_text_witness :
  generateAutoCompletion TestHost.host [] (complete_with (lit "plain words"))
    (lit "token") (lit "model") (VStr (lit "pl")) VUndefined (VStr (lit "search query"))
  = Ret (VStr (lit "plain words")) /\
  generateAutoCompletion TestHost.host [] (complete_with (dq "{#text#: #done#}"))
    (lit "token") (lit "model") (VStr (lit "do")) VUndefined (VStr (lit "search query"))
  = Ret (VStr (lit "done")).
Proof.
  split.
  - apply (proj1 (@generateAutoCompletion_by_text TestHost.host []
                    (complete_with (lit "plain words")) (lit "token") (lit "model")
                    (VStr (lit "pl")) VUndefined (VStr (lit "search query"))
                    (lit "plain words") ltac:(completed))).
    left. reflexivity.
  - refine (proj2 (proj2 (@generateAutoCompletion_by_text TestHost.host []
                     (complete_with (dq "{#text#: #done#}")) (lit "token") (lit "model")
                     (VStr (lit "do")) VUndefined (VStr (lit "search query"))
                     (dq "{#text#: #done#}") ltac:(completed))
              [] (dq "#text#: #done#") [] _)
              [(lit "text", VStr (lit "done"))] _).
    + repeat split.
    + vm_compute. reflexivity.
Defined.

(* ===================================================================== *)
(** * 35. The request of executeToolServer                                 *)
(* ===================================================================== *)

Lemma Object_entries_ret v o : Object_entries v = Ret o -> o = spread v.
Proof.
  unfold Object_entries, spread. destruct (own_props v); [|discriminate].
  intros H. injection H as <-. reflexivity.
Qed.

(** A scan whose test agrees with a boolean test finds what [find]
    finds. *)
Lemma findM_find {A} (p : A -> completion bool) (q : A -> bool) l found :
  (forall y b, p y = Ret b -> q y = b) ->
  findM p l = Ret found -> find q l = found.
Proof.
  intros Hpq. induction l as [|x l IH]; cbn [findM find]; intros H.
  - injection H as <-. reflexivity.
  - apply bind_ret_inv in H as (hit & E & H). rewrite (Hpq _ _ E).
    destruct hit; [injection H as <-; reflexivity | exact (IH H)].
Qed.

Lemma is_operation_named name entry b :
  is_operation name entry = Ret b -> operation_named name (snd entry) = b.
Proof.
  unfold is_operation, operation_named, get. destruct (is_nullish (snd entry)); [discriminate|].
  cbn [bind]. intros H. injection H as <-. reflexivity.
Qed.

Lemma someM_is_operation name methods b :
  someM (is_operation name) methods = Ret b ->
  existsb (fun method => operation_named name (snd method)) methods = b.
Proof.
  unfold someM. intros H. apply bind_ret_inv in H as (found & E & H).
  rewrite <- find_existsb.
  rewrite (@findM_find _ _ (fun method => operation_named name (snd method)) _ _
             (is_operation_named name) E).
  injection H as <-. reflexivity.
Qed.

Lemma in_obj_replace k v o x :
  In x (obj_replace k v o) -> x = (k, v) \/ In x o.
Proof.
  induction o as [|[k' v'] o IH]; cbn [obj_replace]; [intros []|].
  destruct (str_eqb_spec k k') as [<-|ne].
  - intros [<-|H]; [left; reflexivity | right; right; exact H].
  - intros [<-|H]; [right; left; reflexivity|].
    destruct (IH H) as [->|H']; [left; reflexivity | right; right; exact H'].
Qed.

Lemma in_obj_insert_index n k v o x :
  In x (obj_insert_index n k v o) -> x = (k, v) \/ In x o.
Proof.
  induction o as [|[k' v'] o IH]; cbn [obj_insert_index].
  - intros [<-|[]]. left. reflexivity.
  - destruct (array_index k') as [n'|]; [destruct (n' <? n)|].
    + intros [<-|H]; [right; left; reflexivity|].
      destruct (IH H) as [->|H']; [left; reflexivity | right; right; exact H'].
    + intros [<-|H]; [left; reflexivity | right; exact H].
    + intros [<-|H]; [left; reflexivity | right; exact H].
Qed.

(** Every entry of an object after an assignment is the new entry or an
    old one. *)
Lemma in_obj_set k v o x : In x (obj_set k v o) -> x = (k, v) \/ In x o.
Proof.
  unfold obj_set. destruct (obj_has k o).
  - apply in_obj_replace.
  - destruct (array_index k).
    + apply in_obj_insert_index.
    + intros H. apply in_app_or in H as [H|[<-|[]]]; [right; exact H | left; reflexivity].
Qed.

Lemma Forall_obj_set (P : jstring * value -> Prop) k v o :
  Forall P o -> P (k, v) -> Forall P (obj_set k v o).
Proof.
  intros Ho Hkv. apply Forall_forall. intros x Hx.
  destruct (in_obj_set _ _ _ _ Hx) as [->|H]; [exact Hkv|].
  rewrite Forall_forall in Ho. exact (Ho x H).
Qed.

Section Request.

Variable host : Host.

Lemma scan_first_declaration name paths routePath methods entries httpMethod operation :
  findM (fun route => methods <- Object_entries (snd route) ;;
                      someM (is_operation name) methods) paths
  = Ret (Some (routePath, methods)) ->
  Object_entries methods = Ret entries ->
  findM (is_operation name) entries = Ret (Some (httpMethod, operation)) ->
  first_declaration name paths = Some (routePath, httpMethod, operation).
Proof.
  intros Hroute He Hm. unfold first_declaration.
  assert (Hpq : forall (route : jstring * value) b,
            (methods <- Object_entries (snd route) ;; someM (is_operation name) methods)
            = Ret b ->
            existsb (fun method => operation_named name (snd method)) (spread (snd route))
            = b).
  { intros route b H. apply bind_ret_inv in H as (ms & E & H).
    rewrite <- (Object_entries_ret _ E). apply someM_is_operation, H. }
  rewrite (@findM_find _ _ _ _ _ Hpq Hroute).
  rewrite <- (Object_entries_ret _ He).
  rewrite (@findM_find _ _ (fun method => operation_named name (snd method)) _ _
             (is_operation_named name) Hm).
  reflexivity.
Qed.

(** What the loop over the declared parameters files. *)
Lemma file_parameter_supplied operation params parameters param acc filed :
  get_nn operation (lit "parameters") = VArr parameters ->
  In param parameters ->
  file_parameter host params acc param = Ret filed ->
  Forall (fun kv => supplied host "path" operation params (fst kv) (snd kv)) (fst acc) ->
  Forall (fun kv => supplied host "query" operation params (fst kv) (snd kv)) (snd acc) ->
  Forall (fun kv => supplied host "path" operation params (fst kv) (snd kv)) (fst filed) /\
  Forall (fun kv => supplied host "query" operation params (fst kv) (snd kv)) (snd filed).
Proof.
  intros Hparams Hin E Hp Hq. unfold file_parameter in E.
  destruct acc as [pathParams queryParams].
  apply bind_ret_inv in E as (paramName & En & E).
  apply bind_ret_inv in E as (paramIn & Ei & E).
  apply bind_ret_inv in E as (has & Eh & E).
  assert (Hname : paramName = get_nn param (lit "name"))
    by (unfold get in En; destruct (is_nullish param); [discriminate | congruence]).
  assert (Hplace : paramIn = get_nn param (lit "in"))
    by (unfold get in Ei; destruct (is_nullish param); [discriminate | congruence]).
  subst paramName paramIn. cbn [fst snd] in Hp, Hq.
  destruct has; [|injection E as <-; split; assumption].
  destruct (strict_eq_string (get_nn param (lit "in")) "path") eqn:Epath.
  - apply bind_ret_inv in E as (key & Ek & E). injection E as <-. cbn [fst snd].
    split; [|exact Hq]. apply Forall_obj_set; [exact Hp|].
    exists parameters, param. repeat split; assumption.
  - destruct (strict_eq_string (get_nn param (lit "in")) "query") eqn:Equery.
    + apply bind_ret_inv in E as (key & Ek & E). injection E as <-. cbn [fst snd].
      split; [exact Hp|]. apply Forall_obj_set; [exact Hq|].
      exists parameters, param. repeat split; assumption.
    + injection E as <-. split; assumption.
Qed.

Lemma foldM_file_parameter_supplied operation params parameters :
  get_nn operation (lit "parameters") = VArr parameters ->
  forall l acc filed,
    incl l parameters ->
    foldM (file_parameter host params) l acc = Ret filed ->
    Forall (fun kv => supplied host "path" operation params (fst kv) (snd kv)) (fst acc) ->
    Forall (fun kv => supplied host "query" operation params (fst kv) (snd kv)) (snd acc) ->
    Forall (fun kv => supplied host "path" operation params (fst kv) (snd kv)) (fst filed) /\
    Forall (fun kv => supplied host "query" operation params (fst kv) (snd kv)) (snd filed).
Proof.
  intros Hparams. induction l as [|param l IH]; intros acc filed Hincl H Hp Hq.
  - injection H as <-. split; assumption.
  - cbn [foldM] in H. apply bind_ret_inv in H as (acc' & E & H).
    destruct (@file_parameter_supplied operation params parameters param acc acc'
                Hparams (Hincl param (or_introl eq_refl)) E Hp Hq) as (Hp' & Hq').
    apply (IH acc' filed); try assumption.
    intros x Hx. apply Hincl. right. exact Hx.
Qed.

Lemma get_ret v k x : get v k = Ret x -> x = get_nn v k.
Proof. unfold get. destruct (is_nullish v); [discriminate|]. congruence. Qed.

(** A request that is built, taken apart. *)
Lemma request_inversion token url name params serverData req :
  executeToolServer_request host token url name params serverData = Ret req ->
  exists routePath httpMethod operation pathParams queryParams path,
    first_declaration name
      (spread (get_nn (get_nn serverData (lit "openapi")) (lit "paths")))
    = Some (routePath, httpMethod, operation) /\
    Forall (fun kv => supplied host "path" operation params (fst kv) (snd kv)) pathParams /\
    Forall (fun kv => supplied host "query" operation params (fst kv) (snd kv))
           queryParams /\
    (truthy (get_nn operation (lit "parameters")) = false ->
     pathParams = [] /\ queryParams = []) /\
    foldM (substitute_path_param host) pathParams (url ++ routePath) = Ret path /\
    match queryParams with
    | [] => req_url req = path
    | _ :: _ =>
        exists pairs,
          query_pairs host queryParams = Ret pairs /\
          req_url req = path ++ [63] ++ URLSearchParams_toString pairs
    end /\
    req_method req = toUpperCase host httpMethod /\
    req_body req
    = (let requestBody := get_nn operation (lit "requestBody") in
       if carries_body host httpMethod && truthy requestBody
       then Some (if truthy requestBody && truthy (get_nn requestBody (lit "content"))
                  then params else VObj [])
       else None).
Proof.
  intros H. unfold executeToolServer_request in H.
  apply bind_ret_inv in H as (openapi & Eo & H). apply get_ret in Eo. subst openapi.
  apply bind_ret_inv in H as (paths & Ep & H). apply get_ret in Ep. subst paths.
  apply bind_ret_inv in H as (routes & Er & H). apply Object_entries_ret in Er. subst routes.
  apply bind_ret_inv in H as (matchingRoute & Eroute & H).
  destruct matchingRoute as [[routePath methods]|]; [|discriminate H].
  apply bind_ret_inv in H as (entries & Ee & H).
  apply bind_ret_inv in H as (methodEntry & Em & H).
  destruct methodEntry as [[httpMethod operation]|]; [|discriminate H].
  apply bind_ret_inv in H as (parameters & Eparams & H). apply get_ret in Eparams.
  apply bind_ret_inv in H as ([pathParams queryParams] & Efiled & H).
  apply bind_ret_inv in H as (path & Epath & H).
  apply bind_ret_inv in H as (finalUrl & Eurl & H).
  apply bind_ret_inv in H as (bodyParams & Ebody & H).
  assert (Hurl : req_url req = finalUrl) by (injection H as <-; reflexivity).
  assert (Hmethod : req_method req = toUpperCase host httpMethod)
    by (injection H as <-; reflexivity).
  assert (Hbody : req_body req
                  = if carries_body host httpMethod
                       && truthy (get_nn operation (lit "requestBody"))
                    then Some bodyParams else None)
    by (injection H as <-; reflexivity).
  clear H. rewrite Hurl, Hmethod, Hbody.
  exists routePath, httpMethod, operation, pathParams, queryParams, path.
  split; [exact (scan_first_declaration _ _ Eroute Ee Em)|].
  assert (Hfiled :
    Forall (fun kv => supplied host "path" operation params (fst kv) (snd kv)) pathParams /\
    Forall (fun kv => supplied host "query" operation params (fst kv) (snd kv)) queryParams /\
    (truthy (get_nn operation (lit "parameters")) = false ->
     pathParams = [] /\ queryParams = [])).
  { rewrite <- Eparams. destruct (truthy parameters) eqn:Et.
    - destruct parameters as [| | | | |l|]; try discriminate Efiled.
      destruct (@foldM_file_parameter_supplied operation params l (eq_sym Eparams)
                  l ([], []) (pathParams, queryParams) (incl_refl l) Efiled
                  (Forall_nil _) (Forall_nil _)) as (Hp & Hq).
      split; [exact Hp|]. split; [exact Hq|]. discriminate.
    - injection Efiled as <- <-. repeat split; constructor. }
  destruct Hfiled as (Hp & Hq & Hnone).
  split; [exact Hp|]. split; [exact Hq|]. split; [exact Hnone|]. split; [exact Epath|].
  split; [|split; [reflexivity|]].
  - destruct queryParams as [|q queryParams].
    + injection Eurl as <-. reflexivity.
    + apply bind_ret_inv in Eurl as (pairs & Epairs & Eurl). injection Eurl as <-.
      exists pairs. split; [exact Epairs | reflexivity].
  - cbv zeta.
    destruct (carries_body host httpMethod); cbn [andb]; [|reflexivity].
    destruct (truthy (get_nn operation (lit "requestBody"))); cbn [andb] in *;
      [|reflexivity].
    destruct (truthy (get_nn (get_nn operation (lit "requestBody")) (lit "content"))).
    + destruct params; try (injection Ebody as <-; reflexivity). discriminate Ebody.
    + injection Ebody as <-. reflexivity.
Qed.

Variable fetch : request -> fetch_result.

(** X16.  Whenever [executeToolServer] builds a request, it is for the
    first operation of the document that has the requested operationId:
    the first such operation of the first route that has one.  The
    method of the request is the key of that operation in upper case.
    The request carries a body only for [post], [put] and [patch]
    operations that declare a [requestBody]; the body is then the whole
    of the arguments when the declaration has a [content], and the empty
    object when it has none. *)
Theorem executeToolServer_calls_the_first_declaration
    token url name params serverData req :
  executeToolServer_request host token url name params serverData = Ret req ->
  exists routePath httpMethod operation,
    first_declaration name
      (spread (get_nn (get_nn serverData (lit "openapi")) (lit "paths")))
    = Some (routePath, httpMethod, operation) /\
    req_method req = toUpperCase host httpMethod /\
    req_body req
    = (let requestBody := get_nn operation (lit "requestBody") in
       if carries_body host httpMethod && truthy requestBody
       then Some (if truthy requestBody && truthy (get_nn requestBody (lit "content"))
                  then params else VObj [])
       else None).
Proof.
  intros H.
  destruct (request_inversion _ _ _ _ _ H)
    as (routePath & httpMethod & operation & pathParams & queryParams & path
        & Hd & _ & _ & _ & _ & _ & Hm & Hb).
  exists routePath, httpMethod, operation. repeat split; assumption.
Qed.

(** X17.  The URL of the request of [executeToolServer] carries the
    arguments that the operation declares and nothing else.  It is the
    base followed by the route, in which the path arguments are
    substituted one after the other, and followed, when there is a query
    argument, by a question mark and the query arguments in the form of
    [URLSearchParams].  Every path or query argument is an own property
    of the arguments that a declared parameter of that place names.  For
    an operation without [parameters] the URL is the base followed by
    the route, whatever the arguments. *)
Theorem executeToolServer_url_carries_supplied_arguments
    token url name params serverData req :
  executeToolServer_request host token url name params serverData = Ret req ->
  exists routePath httpMethod operation pathParams queryParams path,
    first_declaration name
      (spread (get_nn (get_nn serverData (lit "openapi")) (lit "paths")))
    = Some (routePath, httpMethod, operation) /\
    Forall (fun kv => supplied host "path" operation params (fst kv) (snd kv)) pathParams /\
    Forall (fun kv => supplied host "query" operation params (fst kv) (snd kv))
           queryParams /\
    foldM (substitute_path_param host) pathParams (url ++ routePath) = Ret path /\
    match queryParams with
    | [] => req_url req = path
    | _ :: _ =>
        exists pairs,
          query_pairs host queryParams = Ret pairs /\
          req_url req = path ++ [63] ++ URLSearchParams_toString pairs
    end /\
    (truthy (get_nn operation (lit "parameters")) = false ->
     req_url req = url ++ routePath).
Proof.
  intros H.
  destruct (request_inversion _ _ _ _ _ H)
    as (routePath & httpMethod & operation & pathParams & queryParams & path
        & Hd & Hp & Hq & Hnone & Hpath & Hurl & _ & _).
  exists routePath, httpMethod, operation, pathParams, queryParams, path.
  repeat split; try assumption.
  intros Ht. destruct (Hnone Ht) as (-> & ->). cbn [foldM] in Hpath.
  injection Hpath as <-. exact Hurl.
Qed.

(** X18.  What [executeToolServer] makes of the answer to the request
    it has built: the parsed body of a 2xx response; for a response
    outside 2xx, an [error] that gives the status and the text of the
    body; for a body that is not JSON, and when the network cannot be
    reached, an [error] with the message of the failure. *)
Theorem executeToolServer_by_answer token url name params serverData req :
  executeToolServer_request host token url name params serverData = Ret req ->
  executeToolServer host fetch token url name params serverData
  = match fetch req with
    | Rejected why => Ret (error_result why)
    | Responded res =>
        if ok res then
          match JSON_parse (body res) with
          | Ret answer => Ret answer
          | Throw _ => Ret (error_result (fault_message host JsonSyntax))
          end
        else
          Ret (error_result (lit "HTTP error! Status: " ++ index_string (status res)
                               ++ lit ". Message: " ++ body res))
    end.
Proof.
  intros H. unfold executeToolServer, executeToolServer_try. rewrite H. cbn [bind].
  destruct (fetch req) as [why|res]; [reflexivity|].
  destruct (ok res); cbn [negb]; [|reflexivity].
  destruct (JSON_parse (body res)) as [answer|e] eqn:E; [reflexivity|].
  rewrite (JSON_parse_throws _ E). reflexivity.
Qed.

End Request.

(** Witness of [executeToolServer_calls_the_first_declaration]: the
    operation [getItem] of the items server. *)
Lemma executeToolServer_calls_the_first_declaration_witness :
  exists routePath httpMethod operation,
    first_declaration (lit "getItem")
      (spread (get_nn (get_nn items_server (lit "openapi")) (lit "paths")))
    = Some (routePath, httpMethod, operation) /\
    req_method items_request = toUpperCase TestHost.host httpMethod /\
    req_body items_request
    = (let requestBody := get_nn operation (lit "requestBody") in
       if carries_body TestHost.host httpMethod && truthy requestBody
       then Some (if truthy requestBody && truthy (get_nn requestBody (lit "content"))
                  then items_arguments else VObj [])
       else None).
Proof.
  apply (@executeToolServer_calls_the_first_declaration TestHost.host (lit "token")
           (lit "https://tools.example") (lit "getItem") items_arguments items_server).
  vm_compute. reflexivity.
Defined.

(** Witness of [executeToolServer_url_carries_supplied_arguments]. *)
Lemma executeToolServer_url_carries_supplied_arguments_witness :
  exists routePath httpMethod operation pathParams queryParams path,
    first_declaration (lit "getItem")
      (spread (get_nn (get_nn items_server (lit "openapi")) (lit "paths")))
    = Some (routePath, httpMethod, operation) /\
    Forall (fun kv => supplied TestHost.host "path" operation items_arguments
                        (fst kv) (snd kv)) pathParams /\
    Forall (fun kv => supplied TestHost.host "query" operation items_arguments
                        (fst kv) (snd kv)) queryParams /\
    foldM (substitute_path_param TestHost.host) pathParams
      (lit "https://tools.example" ++ routePath) = Ret path /\
    match queryParams with
    | [] => req_url items_request = path
    | _ :: _ =>
        exists pairs,
          query_pairs TestHost.host queryParams = Ret pairs /\
          req_url items_request = path ++ [63] ++ URLSearchParams_toString pairs
    end /\
    (truthy (get_nn operation (lit "parameters")) = false ->
     req_url items_request = lit "https://tools.example" ++ routePath).
Proof.
  apply (@executeToolServer_url_carries_supplied_arguments TestHost.host (lit "token")
           (lit "https://tools.example") (lit "getItem") items_arguments items_server).
  vm_compute. reflexivity.
Defined.

(** Witness of [executeToolServer_by_answer]: the server answers 404. *)
Lemma executeToolServer_by_answer_witness :
  executeToolServer TestHost.host (respond 404 (lit "no such item")) (lit "token")
    (lit "https://tools.example") (lit "getItem") items_arguments items_server
  = Ret (error_result (lit "HTTP error! Status: 404. Message: no such item")).
Proof.
  apply (eq_trans
           (@executeToolServer_by_answer TestHost.host (respond 404 (lit "no such item"))
              (lit "token") (lit "https://tools.example") (lit "getItem")
              items_arguments items_server items_request ltac:(vm_compute; reflexivity))).
  vm_compute. reflexivity.
Defined.

(* ===================================================================== *)
(** * 36. The order of the catalogue and the direct calls                  *)
(* ===================================================================== *)

Lemma precedes_trans a b c :
  precedes a b = true -> precedes b c = true -> precedes a c = true.
Proof.
  unfold precedes.
  destruct (array_index a) as [n|], (array_index b) as [m|], (array_index c) as [p|];
    try discriminate; try reflexivity.
  intros H1 H2. apply N.leb_le in H1, H2. apply N.leb_le. lia.
Qed.

Lemma precedes_other a k : array_index k = None -> precedes a k = true.
Proof. unfold precedes. intros ->. destruct (array_index a); reflexivity. Qed.

Lemma own_property_order_app_other keys k :
  array_index k = None ->
  own_property_order keys = true -> own_property_order (keys ++ [k]) = true.
Proof.
  intros Hk. induction keys as [|a keys IH]; cbn [own_property_order app forallb];
    [reflexivity|].
  intros H. apply andb_true_iff in H as (Ha & Hrest).
  rewrite forallb_app, Ha, (IH Hrest). cbn [forallb].
  rewrite (@precedes_other a k Hk). reflexivity.
Qed.

Lemma own_property_order_insert n k v o :
  array_index k = Some n ->
  own_property_order (map fst o) = true ->
  own_property_order (map fst (obj_insert_index n k v o)) = true.
Proof.
  intros Hk. induction o as [|[k' v'] o IH]; cbn [obj_insert_index]; [reflexivity|].
  cbn [map fst own_property_order]. intros H. apply andb_true_iff in H as (Hhead & Hrest).
  assert (Hhere : precedes k k' = true ->
                  own_property_order (map fst ((k, v) :: (k', v') :: o)) = true).
  { intros Hkk'. cbn [map fst own_property_order forallb].
    rewrite Hkk', Hhead, Hrest. cbn [andb].
    rewrite andb_true_r. apply forallb_forall. intros x Hx.
    rewrite forallb_forall in Hhead. exact (@precedes_trans k k' x Hkk' (Hhead x Hx)). }
  destruct (array_index k') as [n'|] eqn:Hk'.
  - destruct (n' <? n) eqn:Hlt.
    + cbn [map fst own_property_order]. rewrite (IH Hrest), andb_true_r.
      apply forallb_forall. intros x Hx. apply keys_insert_index in Hx as [->|Hx].
      * unfold precedes. rewrite Hk', Hk. apply N.leb_le. apply N.ltb_lt in Hlt. lia.
      * rewrite forallb_forall in Hhead. exact (Hhead x Hx).
    + apply Hhere. unfold precedes. rewrite Hk, Hk'. apply N.leb_le.
      apply N.ltb_ge in Hlt. exact Hlt.
  - apply Hhere. unfold precedes. rewrite Hk, Hk'. reflexivity.
Qed.

(** Assignment keeps the own-property order. *)
Lemma own_property_order_set k v o :
  own_property_order (map fst o) = true ->
  own_property_order (map fst (obj_set k v o)) = true.
Proof.
  intros H. unfold obj_set. destruct (obj_has k o).
  - rewrite keys_replace. exact H.
  - destruct (array_index k) as [n|] eqn:Hk.
    + apply own_property_order_insert; assumption.
    + rewrite map_app. apply own_property_order_app_other; assumption.
Qed.

Section Order.

Variable host : Host.

Lemma foldM_put_model_order models :
  forall modelsMap catalog,
    foldM (put_model host) models modelsMap = Ret catalog ->
    own_property_order (map fst modelsMap) = true ->
    Forall (fun kv => model_key host (snd kv) = Ret (fst kv)) modelsMap ->
    own_property_order (map fst catalog) = true /\
    Forall (fun kv => model_key host (snd kv) = Ret (fst kv)) catalog.
Proof.
  induction models as [|x models IH]; intros modelsMap catalog H Ho Hk; cbn [foldM] in H.
  - injection H as <-. split; assumption.
  - apply bind_ret_inv in H as (next & E & H).
    rewrite put_model_key in E. apply bind_ret_inv in E as (k & Ek & E).
    injection E as <-. apply (IH _ _ H).
    + apply own_property_order_set, Ho.
    + apply Forall_obj_set; assumption.
Qed.

Lemma mapM_model_key catalog :
  Forall (fun kv => model_key host (snd kv) = Ret (fst kv)) catalog ->
  mapM (model_key host) (map snd catalog) = Ret (map fst catalog).
Proof.
  induction 1 as [|[k m] catalog Hk _ IH]; cbn [map mapM fst snd]; [reflexivity|].
  cbn [fst snd] in Hk. rewrite Hk. cbn [bind]. rewrite IH. reflexivity.
Qed.

Variable WEBUI_BASE_URL : jstring.
Variable fetch : request -> fetch_result.
Variable direct_outcome : jstring -> value -> value -> completion value.

(** X19.  The catalogue that [getModels] returns for connections is in
    the own-property order of its ids: the models whose id is an array
    index (a canonical decimal below 2^32 - 1) come first, by ascending
    id, whatever the order in which they were listed; the other models
    follow. *)
Theorem merged_catalog_is_in_property_order token c result :
  getModels host WEBUI_BASE_URL fetch direct_outcome token (Some c) false = Ret result ->
  exists catalog keys,
    result = VArr catalog /\
    mapM (model_key host) catalog = Ret keys /\
    own_property_order keys = true.
Proof.
  intros H. unfold getModels in H. apply bind_ret_inv in H as (res & _ & H).
  cbn [negb] in H. unfold merge_connections in H.
  apply bind_ret_inv in H as (localModels & _ & H).
  apply bind_ret_inv in H as (merged & _ & H).
  apply bind_ret_inv in H as (modelsMap & Em & H). injection H as <-.
  destruct (@foldM_put_model_order merged [] modelsMap Em eq_refl (Forall_nil _)) as (Ho & Hk).
  exists (map snd modelsMap), (map fst modelsMap).
  split; [reflexivity|]. split; [apply mapM_model_key, Hk | exact Ho].
Qed.

End Order.

Lemma settle_requests_from d1 d2 c :
  forall urls start,
    (forall j url,
       nth_error urls j = Some url ->
       let idx := index_string (N.of_nat (start + j)) in
       has_config (OPENAI_API_CONFIGS c) idx = true ->
       truthy (nullish_or (enable (config_at (OPENAI_API_CONFIGS c) idx)) (VBool true))
       = true ->
       model_ids (config_at (OPENAI_API_CONFIGS c) idx) = [] ->
       d1 idx url (nth (start + j) (OPENAI_API_KEYS c) VUndefined)
       = d2 idx url (nth (start + j) (OPENAI_API_KEYS c) VUndefined)) ->
    map (settle d1) (requests_from c start urls)
    = map (settle d2) (requests_from c start urls).
Proof.
  induction urls as [|url urls IH]; intros start H; [reflexivity|].
  cbn [requests_from]. rewrite !map_app. f_equal.
  - specialize (H 0%nat url eq_refl). rewrite Nat.add_0_r in H. cbv zeta in H.
    unfold request_for.
    destruct (has_config _ _); [|reflexivity].
    destruct (truthy _); [|reflexivity].
    destruct (model_ids _); [|reflexivity].
    cbn [map settle]. rewrite H; reflexivity.
  - apply IH. intros j url' Hj. specialize (H (S j) url' Hj).
    rewrite Nat.add_succ_r in H. exact H.
Qed.

Section DirectCalls.

Variable host : Host.
Variable WEBUI_BASE_URL : jstring.
Variable fetch : request -> fetch_result.

(** X20.  [getModels] calls [getOpenAIModelsDirect] for a connection
    only when the connection has a configuration, is enabled (its
    [enable] is absent or truthy) and lists no [model_ids], and then
    with the URL and the key at the index of the connection: two
    behaviours of the direct call that agree there give the same
    result. *)
Theorem getModels_asks_only_open_connections c d1 d2 token :
  (forall i url,
     nth_error (OPENAI_API_BASE_URLS c) i = Some url ->
     let idx := index_string (N.of_nat i) in
     has_config (OPENAI_API_CONFIGS c) idx = true ->
     truthy (nullish_or (enable (config_at (OPENAI_API_CONFIGS c) idx)) (VBool true))
     = true ->
     model_ids (config_at (OPENAI_API_CONFIGS c) idx) = [] ->
     d1 idx url (nth i (OPENAI_API_KEYS c) VUndefined)
     = d2 idx url (nth i (OPENAI_API_KEYS c) VUndefined)) ->
  getModels host WEBUI_BASE_URL fetch d1 token (Some c) false
  = getModels host WEBUI_BASE_URL fetch d2 token (Some c) false.
Proof.
  intros H. unfold getModels, merge_connections, requests.
  rewrite (@settle_requests_from d1 d2 c (OPENAI_API_BASE_URLS c) 0 H). reflexivity.
Qed.

End DirectCalls.

(** Witness of [merged_catalog_is_in_property_order]: the backend
    lists [gpt], [10] and [9], and the catalogue has them as [9], [10],
    [gpt]. *)
Lemma merged_catalog_is_in_property_order_witness :
  getModels TestHost.host [] numbered_backend first_fails (lit "token")
    (Some one_configured) false
  = Ret (VArr numbered_catalog) /\
  exists catalog keys,
    VArr numbered_catalog = VArr catalog /\
    mapM (model_key TestHost.host) catalog = Ret keys /\
    own_property_order keys = true.
Proof.
  assert (H : getModels TestHost.host [] numbered_backend first_fails (lit "token")
                (Some one_configured) false = Ret (VArr numbered_catalog))
    by (vm_compute; reflexivity).
  split; [exact H|].
  exact (@merged_catalog_is_in_property_order TestHost.host [] numbered_backend
           first_fails (lit "token") one_configured (VArr numbered_catalog) H).
Defined.

(** Witness of [getModels_asks_only_open_connections]: the one
    configured connection of [second_configured] lists its models, so
    nothing depends on the direct call. *)
Lemma getModels_asks_only_open_connections_witness :
  getModels TestHost.host [] backend first_fails (lit "token")
    (Some second_configured) false
  = getModels TestHost.host [] backend (fun _ _ _ => Ret VNull) (lit "token")
      (Some second_configured) false.
Proof.
  apply getModels_asks_only_open_connections.
  intros [|[|[|i]]] url Hu; cbv zeta; intros Hc He Hm;
    try discriminate Hc; try discriminate Hm; discriminate Hu.
Defined.

(* ===================================================================== *)
(** * 37. Searching in strings                                             *)
(* ===================================================================== *)

Lemma strip_prefix_app p : forall s rest, strip_prefix p s = Some rest <-> s = p ++ rest.
Proof.
  induction p as [|c p IH]; intros s rest; cbn [strip_prefix app].
  - split; [intros H; injection H as ->; reflexivity | intros ->; reflexivity].
  - destruct s as [|d s]; [split; discriminate|].
    destruct (N.eqb_spec c d) as [->|ne].
    + rewrite IH. split; [intros ->; reflexivity | intros H; injection H as ->; reflexivity].
    + split; [discriminate | intros H; injection H as E _; congruence].
Qed.

(** [starts_with], [ends_with] and [string_includes] are the prefix, the
    suffix and the occurrence of one string in another. *)
Lemma starts_with_prefix s p : starts_with s p = true <-> exists rest, s = p ++ rest.
Proof.
  unfold starts_with. destruct (strip_prefix p s) as [rest|] eqn:E.
  - split; [|reflexivity]. intros _. exists rest. apply strip_prefix_app, E.
  - split; [discriminate|]. intros (rest & H). apply strip_prefix_app in H. congruence.
Qed.

Lemma ends_with_suffix s p : ends_with s p = true <-> exists front, s = front ++ p.
Proof.
  unfold ends_with. rewrite starts_with_prefix. split.
  - intros (rest & H). exists (rev rest).
    rewrite <- (rev_involutive s), H, rev_app_distr, rev_involutive. reflexivity.
  - intros (front & ->). exists (rev front). apply rev_app_distr.
Qed.

Lemma string_includes_occurs s p : string_includes s p = true <-> occurs_in p s.
Proof.
  unfold occurs_in. induction s as [|c s IH]; cbn [string_includes].
  - rewrite orb_false_r, starts_with_prefix. split.
    + intros (rest & H). exists [], rest. exact H.
    + intros (before & after & H). destruct before; [|discriminate H].
      exists after. exact H.
  - rewrite orb_true_iff, starts_with_prefix, IH. split.
    + intros [(rest & H)|(before & after & H)].
      * exists [], rest. exact H.
      * exists (c :: before), after. rewrite H. reflexivity.
    + intros (before & after & H). destruct before as [|d before].
      * left. exists after. exact H.
      * right. injection H as _ H. exists before, after. exact H.
Qed.

(* ===================================================================== *)
(** * 38. Loading tool servers                                             *)
(* ===================================================================== *)

Lemma mapM_app {A B} (f : A -> completion B) a b :
  mapM f (a ++ b) = x <- mapM f a ;; y <- mapM f b ;; Ret (x ++ y).
Proof.
  induction a as [|h a IH]; cbn [app mapM bind].
  - destruct (mapM f b); reflexivity.
  - destruct (f h) as [y|e]; cbn [bind]; [|reflexivity]. rewrite IH.
    destruct (mapM f a) as [ys|e]; cbn [bind]; [|reflexivity].
    destruct (mapM f b) as [zs|e]; reflexivity.
Qed.

Lemma bearer_if_truthy_string host token :
  bearer_if_truthy host (VStr token) = Ret (bearer_if_token token).
Proof. destruct token; reflexivity. Qed.

Section Loading.

Variable host : Host.
Variable fetch : request -> fetch_result.
Variable yaml_parse : jstring -> completion value.
Variable convertOpenApiToToolPayload : value -> completion value.
Variable localStorage_token : value.

Local Abbreviation loaded :=
  (getToolServersData host fetch yaml_parse convertOpenApiToToolPayload localStorage_token).
Local Abbreviation shown :=
  (getToolServersData_messages host fetch yaml_parse convertOpenApiToToolPayload
     localStorage_token).
Local Abbreviation document_of :=
  (getToolServerData host fetch yaml_parse convertOpenApiToToolPayload).

(** [getToolServerData] on strings, after the answer has come. *)
Lemma getToolServerData_answered token url r :
  fetch (getToolServerData_request token url) = Responded r ->
  getToolServerData host fetch yaml_parse convertOpenApiToToolPayload (VStr token) (VStr url)
  = settled <-
      (match then_document host yaml_parse (VStr url) r with
       | Ret res => Ret (res, ExnValue VNull)
       | Throw err =>
           has <- exn_has (lit "detail") err ;;
           if (has : bool)
           then detail <- exn_get host err (lit "detail") ;; Ret (VNull, ExnValue detail)
           else Ret (VNull, err)
       end) ;;
    unless_error settled
      (fun res =>
         info <- get res (lit "info") ;;
         specs <- convertOpenApiToToolPayload res ;;
         Ret (VObj (obj_of [(lit "openapi", res); (lit "info", info);
                            (lit "specs", specs)]))).
Proof.
  intros Hf. unfold getToolServerData. cbn [ToString bind].
  rewrite bearer_if_truthy_string. cbn [bind].
  change {| req_url := url; req_method := lit "GET";
            req_headers := json_headers ++ bearer_if_token token; req_body := None |}
    with (getToolServerData_request token url).
  rewrite Hf. reflexivity.
Qed.

(** X21.  [getToolServerData] for a URL that ends in [.yaml] or [.yml],
    in any letter case, answered outside 2xx: the text of the response is
    thrown inside the chain, the [in] test of the handler throws on it,
    and the caller gets that TypeError, whatever the text says. *)
Theorem yaml_failure_is_a_type_error token url r :
  reads_yaml host url = true ->
  fetch (getToolServerData_request token url) = Responded r ->
  ok r = false ->
  getToolServerData host fetch yaml_parse convertOpenApiToToolPayload (VStr token) (VStr url)
  = Throw (ExnError (Engine NotAnObject)).
Proof.
  unfold reads_yaml. intros Hy Hf Hok. rewrite (getToolServerData_answered Hf).
  unfold then_document. cbn [lower_case bind]. rewrite Hy, Hok. reflexivity.
Qed.

(** X22.  [getToolServerData] answered 2xx.  The body is read as YAML
    when the URL ends in [.yaml] or [.yml], in any letter case, and as
    JSON otherwise.  For a document that is not null the result holds the
    document as [openapi], its [info] and the converted specifications
    as [specs]; a null document is a TypeError. *)
Theorem getToolServerData_returns_the_document token url r document :
  fetch (getToolServerData_request token url) = Responded r ->
  ok r = true ->
  (if reads_yaml host url then yaml_parse (body r) else JSON_parse (body r)) = Ret document ->
  (is_nullish document = true ->
   getToolServerData host fetch yaml_parse convertOpenApiToToolPayload
     (VStr token) (VStr url)
   = Throw (ExnError (Engine NullDeref))) /\
  (forall specs,
     is_nullish document = false ->
     convertOpenApiToToolPayload document = Ret specs ->
     getToolServerData host fetch yaml_parse convertOpenApiToToolPayload
       (VStr token) (VStr url)
     = Ret (VObj [(lit "openapi", document);
                  (lit "info", get_nn document (lit "info"));
                  (lit "specs", specs)])).
Proof.
  unfold reads_yaml. intros Hf Hok Hd. rewrite (getToolServerData_answered Hf).
  assert (E : then_document host yaml_parse (VStr url) r = Ret document).
  { unfold then_document, then_json. cbn [lower_case bind]. rewrite Hok. cbn [negb].
    destruct (ends_with (toLowerCase host url) (lit ".yaml")
              || ends_with (toLowerCase host url) (lit ".yml")); exact Hd. }
  rewrite E. cbn [bind unless_error truthy_exn truthy]. unfold get. split.
  - intros ->. reflexivity.
  - intros specs -> ->. reflexivity.
Qed.

(** How [getToolServersData] composes over a list of servers. *)
Lemma getToolServersData_app a b :
  getToolServersData host fetch yaml_parse convertOpenApiToToolPayload localStorage_token
    (a ++ b)
  = x <- getToolServersData host fetch yaml_parse convertOpenApiToToolPayload
           localStorage_token a ;;
    y <- getToolServersData host fetch yaml_parse convertOpenApiToToolPayload
           localStorage_token b ;;
    Ret (x ++ y).
Proof.
  unfold getToolServersData. rewrite filter_app, mapM_app.
  destruct (mapM _ (filter server_enabled a)) as [xs|e]; cbn [bind]; [|reflexivity].
  destruct (mapM _ (filter server_enabled b)) as [ys|e]; cbn [bind]; [|reflexivity].
  rewrite map_app, filter_app. reflexivity.
Qed.

Lemma getToolServersData_messages_app a b :
  getToolServersData_messages host fetch yaml_parse convertOpenApiToToolPayload
    localStorage_token (a ++ b)
  = getToolServersData_messages host fetch yaml_parse convertOpenApiToToolPayload
      localStorage_token a
    ++ getToolServersData_messages host fetch yaml_parse convertOpenApiToToolPayload
         localStorage_token b.
Proof. unfold getToolServersData_messages. rewrite filter_app, flat_map_app. reflexivity. Qed.

Lemma getToolServerData_object token url data :
  document_of token url = Ret data ->
  exists document info specs,
    data = VObj [(lit "openapi", document); (lit "info", info); (lit "specs", specs)].
Proof.
  unfold getToolServerData. intros H.
  apply bind_ret_inv in H as (target & _ & H).
  apply bind_ret_inv in H as (authorization & _ & H).
  apply bind_ret_inv in H as ([res error] & _ & H).
  unfold unless_error in H. destruct (truthy_exn error); [discriminate H|].
  apply bind_ret_inv in H as (info & _ & H).
  apply bind_ret_inv in H as (specs & _ & H).
  injection H as <-. exists res, info, specs. reflexivity.
Qed.



Lemma load_loaded server address document info specs :
  server_enabled server = true ->
  server_address host server = Ret address ->
  document_of (server_token localStorage_token server) address
  = Ret (VObj [(lit "openapi", document); (lit "info", info); (lit "specs", specs)]) ->
  loaded [server] = Ret [server_entry server document info specs] /\ shown [server] = [].
Proof.
  intros He Ha Hd. unfold getToolServersData, getToolServersData_messages.
  cbn [filter flat_map]. rewrite He. cbn [mapM flat_map]. unfold load_server.
  rewrite Ha. cbn [bind]. rewrite Hd. split; reflexivity.
Qed.

Lemma loaded_around before server after :
  loaded (before ++ server :: after)
  = x <- loaded before ;; y <- loaded [server] ;; z <- loaded after ;; Ret (x ++ y ++ z).
Proof.
  change (server :: after) with ([server] ++ after).
  rewrite !getToolServersData_app.
  destruct (loaded before) as [x|e]; cbn [bind]; [|reflexivity].
  destruct (loaded [server]) as [y|e]; cbn [bind]; [|reflexivity].
  destruct (loaded after) as [z|e]; reflexivity.
Qed.



(** X24.  An enabled server whose document is loaded contributes one
    entry to what [getToolServersData] returns, at its place among the
    entries of the servers before and after it: its [url] next to the
    document, the [info] and the [specs] that [getToolServerData]
    returned.  No message is shown for it. *)
Theorem loaded_server_contributes_its_entry before server after address data :
  server_enabled server = true ->
  server_address host server = Ret address ->
  document_of (server_token localStorage_token server) address = Ret data ->
  exists document info specs,
    data = VObj [(lit "openapi", document); (lit "info", info); (lit "specs", specs)] /\
    loaded (before ++ server :: after)
    = (x <- loaded before ;;
       z <- loaded after ;;
       Ret (x ++ server_entry server document info specs :: z)) /\
    shown (before ++ server :: after) = shown before ++ shown after.
Proof.
  intros He Ha Hd.
  destruct (@getToolServerData_object _ _ _ Hd) as (document & info & specs & ->).
  exists document, info, specs. split; [reflexivity|].
  destruct (@load_loaded server address document info specs He Ha Hd) as (Hl & Hs). split.
  - rewrite loaded_around, Hl. reflexivity.
  - change (server :: after) with ([server] ++ after).
    rewrite !getToolServersData_messages_app, Hs. reflexivity.
Qed.

(** X25.  The address from which a server is loaded, for a server
    whose [url] is a string.  With a [path] that is a string: the path
    itself when [://] occurs in it; else the url followed by the path,
    with a slash between them unless the path starts with one.  A server
    without a path is loaded from its url followed by [/undefined]. *)
Theorem address_of_a_server server url :
  get_opt server (lit "url") = VStr url ->
  (forall path,
     get_opt server (lit "path") = VStr path ->
     (occurs_in (lit "://") path ->
      server_address host server = Ret (VStr path)) /\
     (~ occurs_in (lit "://") path ->
      (exists rest, path = lit "/" ++ rest) ->
      server_address host server = Ret (VStr (url ++ path))) /\
     (~ occurs_in (lit "://") path ->
      ~ (exists rest, path = lit "/" ++ rest) ->
      server_address host server = Ret (VStr (url ++ lit "/" ++ path)))) /\
  (get_opt server (lit "path") = VUndefined ->
   server_address host server = Ret (VStr (url ++ lit "/undefined"))).
Proof.
  intros Hu. unfold server_address. rewrite Hu. split.
  - intros path ->. cbn [nullish_or is_nullish includes bind].
    destruct (string_includes path (lit "://")) eqn:Ei.
    + apply string_includes_occurs in Ei.
      split; [intros _; reflexivity|]. split; intros Hn; contradiction.
    + assert (Hno : ~ occurs_in (lit "://") path)
        by (intros H; apply string_includes_occurs in H; congruence).
      cbn [ToString startsWith bind].
      destruct (starts_with path (lit "/")) eqn:Es.
      * apply starts_with_prefix in Es.
        split; [intros H; contradiction|]. split; [intros _ _; reflexivity|].
        intros _ H. contradiction.
      * assert (Hnr : ~ (exists rest, path = lit "/" ++ rest))
          by (intros H; apply starts_with_prefix in H; congruence).
        split; [intros H; contradiction|]. split; [intros _ H; contradiction|].
        intros _ _. reflexivity.
  - intros ->. reflexivity.
Qed.

End Loading.

(** Witness of [yaml_failure_is_a_type_error]. *)
Lemma yaml_failure_is_a_type_error_witness :
  getToolServerData TestHost.host (respond 500 (lit "out of order")) JSON_parse no_tools
    (VStr (lit "k")) (VStr (lit "https://tools.example/openapi.YAML"))
  = Throw (ExnError (Engine NotAnObject)).
Proof.
  apply (@yaml_failure_is_a_type_error TestHost.host (respond 500 (lit "out of order"))
           JSON_parse no_tools (lit "k") (lit "https://tools.example/openapi.YAML")
           {| status := 500; body := lit "out of order" |});
    reflexivity.
Defined.

(** Witness of [getToolServerData_returns_the_document]. *)
Lemma getToolServerData_returns_the_document_witness :
  getToolServerData TestHost.host (respond 200 tools_document) JSON_parse no_tools
    (VStr (lit "k")) (VStr (lit "https://tools.example/openapi.json"))
  = Ret (VObj [(lit "openapi", parsed tools_document);
               (lit "info", get_nn (parsed tools_document) (lit "info"));
               (lit "specs", VArr [])]).
Proof.
  apply (proj2 (@getToolServerData_returns_the_document TestHost.host
                  (respond 200 tools_document) JSON_parse no_tools (lit "k")
                  (lit "https://tools.example/openapi.json")
                  {| status := 200; body := tools_document |} (parsed tools_document)
                  eq_refl eq_refl ltac:(vm_compute; reflexivity)));
    reflexivity.
Defined.


(** Witness of [loaded_server_contributes_its_entry]. *)
Lemma loaded_server_contributes_its_entry_witness :
  exists document info specs,
    VObj [(lit "openapi", parsed tools_document);
          (lit "info", get_nn (parsed tools_document) (lit "info"));
          (lit "specs", VArr [])]
    = VObj [(lit "openapi", document); (lit "info", info); (lit "specs", specs)] /\
    getToolServersData TestHost.host (respond 200 tools_document) JSON_parse no_tools
      VUndefined ([disabled_server] ++ tools_server :: [])
    = (x <- getToolServersData TestHost.host (respond 200 tools_document) JSON_parse
              no_tools VUndefined [disabled_server] ;;
       z <- getToolServersData TestHost.host (respond 200 tools_document) JSON_parse
              no_tools VUndefined [] ;;
       Ret (x ++ server_entry tools_server document info specs :: z)) /\
    getToolServersData_messages TestHost.host (respond 200 tools_document) JSON_parse
      no_tools VUndefined ([disabled_server] ++ tools_server :: [])
    = getToolServersData_messages TestHost.host (respond 200 tools_document) JSON_parse
        no_tools VUndefined [disabled_server]
      ++ getToolServersData_messages TestHost.host (respond 200 tools_document) JSON_parse
           no_tools VUndefined [].
Proof.
  apply (@loaded_server_contributes_its_entry TestHost.host (respond 200 tools_document)
           JSON_parse no_tools VUndefined [disabled_server] tools_server []
           (VStr (lit "https://tools.example/openapi.json")));
    vm_compute; reflexivity.
Defined.

(** Witness of [address_of_a_server]: a relative path, and no path. *)
Lemma address_of_a_server_witness :
  server_address TestHost.host tools_server
  = Ret (VStr (lit "https://tools.example/openapi.json")) /\
  server_address TestHost.host (parsed (dq "{#url#: #https://tools.example#}"))
  = Ret (VStr (lit "https://tools.example/undefined")).
Proof.
  split.
  - apply (proj2 (proj2 (proj1 (@address_of_a_server TestHost.host tools_server
                                  (lit "https://tools.example") eq_refl)
                           (lit "openapi.json") eq_refl))).
    + intros H. apply string_includes_occurs in H. discriminate H.
    + intros H. apply starts_with_prefix in H. discriminate H.
  - apply (proj2 (@address_of_a_server TestHost.host
                    (parsed (dq "{#url#: #https://tools.example#}"))
                    (lit "https://tools.example") eq_refl) eq_refl).
Defined.

(* ===================================================================== *)
(** * 39. The URLs of the requests                                         *)
(* ===================================================================== *)

Lemma hex_digit_no_delimiter n : delimiter (hex_digit n) = false.
Proof.
  unfold hex_digit, delimiter. cbn [existsb].
  destruct (n <? 10) eqn:E; [apply N.ltb_lt in E | apply N.ltb_ge in E];
    repeat match goal with
           | |- context [N.eqb ?a ?b] =>
               replace (N.eqb a b) with false by (symmetry; apply N.eqb_neq; lia)
           end; reflexivity.
Qed.

Lemma delimiter_cases c :
  delimiter c = true -> c = 35 \/ c = 38 \/ c = 47 \/ c = 61 \/ c = 63.
Proof.
  unfold delimiter. cbn [existsb]. rewrite !orb_true_iff, !N.eqb_eq.
  intros [H|[H|[H|[H|[H|H]]]]]; try discriminate H; subst; auto 6.
Qed.

Lemma form_byte_no_delimiter b :
  forallb (fun c => negb (delimiter c)) (form_byte b) = true.
Proof.
  unfold form_byte. destruct (b =? 32); [reflexivity|].
  destruct (is_alnum b || existsb (N.eqb b) [42; 45; 46; 95]) eqn:E.
  - cbn [forallb]. rewrite andb_true_r. destruct (delimiter b) eqn:D; [|reflexivity].
    apply delimiter_cases in D as [->|[->|[->|[->| ->]]]]; discriminate E.
  - unfold percent. cbn [forallb]. rewrite !hex_digit_no_delimiter. reflexivity.
Qed.

Lemma forallb_flat_map {A B} (p : B -> bool) (f : A -> list B) l :
  (forall x, forallb p (f x) = true) -> forallb p (flat_map f l) = true.
Proof.
  intros H. induction l as [|x l IH]; [reflexivity|].
  cbn [flat_map]. rewrite forallb_app, H, IH. reflexivity.
Qed.

(** The form encoding of a text has no delimiter in it. *)
Lemma form_encode_no_delimiter s :
  forallb (fun c => negb (delimiter c)) (form_encode s) = true.
Proof.
  unfold form_encode. apply forallb_flat_map. intros p.
  apply forallb_flat_map. intros b. apply form_byte_no_delimiter.
Qed.

(** Letters and digits are encoded as themselves. *)
Lemma form_encode_alnum s : forallb is_alnum s = true -> form_encode s = s.
Proof.
  unfold form_encode. induction s as [|c s IH]; [reflexivity|].
  cbn [forallb]. intros H. apply andb_true_iff in H as (Hc & Hs).
  assert (Hr : c < 128).
  { unfold is_alnum, is_digit in Hc.
    rewrite !orb_true_iff, !andb_true_iff, !N.leb_le in Hc. lia. }
  assert (Hh : is_high_surrogate c = false).
  { unfold is_high_surrogate. apply andb_false_iff. left. apply N.leb_gt. lia. }
  assert (Hl : is_low_surrogate c = false).
  { unfold is_low_surrogate. apply andb_false_iff. left. apply N.leb_gt. lia. }
  rewrite code_points_cons, Hh, Hl. cbn [flat_map]. rewrite (IH Hs).
  unfold utf8. replace (c <? 128) with true by (symmetry; apply N.ltb_lt; exact Hr).
  cbn [flat_map app]. unfold form_byte.
  replace (c =? 32) with false.
  - rewrite Hc. reflexivity.
  - symmetry. apply N.eqb_neq. intros ->. discriminate Hc.
Qed.

(** X26.  The query of the pipeline requests.  Without [urlIdx] it is
    empty.  With one it is [urlIdx=] followed by the form encoding of
    the index, in which no number sign, ampersand, slash, equals sign or
    question mark occurs, so that the index stays within its parameter;
    an index of letters and digits is sent as it is.  The four requests
    put the query after the question mark of their path. *)
Theorem urlIdx_stays_within_its_parameter WEBUI_BASE_URL token pipeline_id valves urlIdx :
  urlIdx_query None = [] /\
  (forall idx,
     exists encoded,
       urlIdx_query (Some idx) = lit "urlIdx=" ++ encoded /\
       forallb (fun c => negb (delimiter c)) encoded = true /\
       (forallb is_alnum idx = true -> encoded = idx)) /\
  req_url (getPipelines_request WEBUI_BASE_URL token urlIdx)
  = WEBUI_BASE_URL ++ lit "/api/v1/pipelines/?" ++ urlIdx_query urlIdx /\
  req_url (getPipelineValves_request WEBUI_BASE_URL token pipeline_id urlIdx)
  = WEBUI_BASE_URL ++ lit "/api/v1/pipelines/" ++ pipeline_id ++ lit "/valves?"
      ++ urlIdx_query urlIdx /\
  req_url (getPipelineValvesSpec_request WEBUI_BASE_URL token pipeline_id urlIdx)
  = WEBUI_BASE_URL ++ lit "/api/v1/pipelines/" ++ pipeline_id ++ lit "/valves/spec?"
      ++ urlIdx_query urlIdx /\
  req_url (updatePipelineValves_request WEBUI_BASE_URL token pipeline_id valves urlIdx)
  = WEBUI_BASE_URL ++ lit "/api/v1/pipelines/" ++ pipeline_id ++ lit "/valves/update?"
      ++ urlIdx_query urlIdx.
Proof.
  split; [reflexivity|]. split; [|repeat split].
  intros idx. exists (form_encode idx). split; [reflexivity|]. split.
  - apply form_encode_no_delimiter.
  - apply form_encode_alnum.
Qed.

(** Witness of [urlIdx_stays_within_its_parameter]: the index [0]. *)
Lemma urlIdx_stays_within_its_parameter_witness :
  exists encoded,
    urlIdx_query (Some (lit "0")) = lit "urlIdx=" ++ encoded /\
    forallb (fun c => negb (delimiter c)) encoded = true /\
    (forallb is_alnum (lit "0") = true -> encoded = lit "0").
Proof.
  exact (proj1 (proj2 (@urlIdx_stays_within_its_parameter [] [] [] VNull None)) (lit "0")).
Defined.

Lemma starts_with_after b s p :
  starts_with s p = true -> starts_with (b ++ s) (b ++ p) = true.
Proof.
  unfold starts_with. intros H. induction b as [|c b IH]; cbn [app strip_prefix].
  - exact H.
  - rewrite N.eqb_refl. exact IH.
Qed.

(** X27.  Where the requests go.  Outside the browser, and in the
    browser outside development, [WEBUI_BASE_URL] is empty and the URL of
    every request that the file addresses to the backend starts with
    [/api/], relative to the origin of the page.  In the browser in
    development it starts with [http://], the host name of the page and
    [:8080/api/]. *)
Theorem requests_go_to_the_backend browser dev location_hostname
    token model messages prompt chat_id type responses base req :
  let WEBUI_BASE_URL := constants.WEBUI_BASE_URL browser dev location_hostname in
  (exists c, req = request_of WEBUI_BASE_URL c) \/
  In req (core_requests WEBUI_BASE_URL token model messages prompt chat_id type
            responses base) ->
  starts_with (req_url req)
    ((if browser && dev then lit "http://" ++ location_hostname ++ lit ":8080" else [])
       ++ lit "/api/") = true.
Proof.
  intros WEBUI_BASE_URL H.
  assert (E : (if browser && dev then lit "http://" ++ location_hostname ++ lit ":8080"
               else []) = WEBUI_BASE_URL).
  { unfold WEBUI_BASE_URL, constants.WEBUI_BASE_URL, constants.WEBUI_HOSTNAME.
    destruct browser, dev; reflexivity. }
  rewrite E. clearbody WEBUI_BASE_URL. clear E.
  destruct H as [(c & ->)|H].
  - destruct c; apply starts_with_after; reflexivity.
  - unfold core_requests in H. cbn [In] in H.
    repeat (destruct H as [<-|H]; [apply starts_with_after; reflexivity|]).
    destruct H.
Qed.

(** Witness of [requests_go_to_the_backend]: a production build, and a
    development server on [localhost]. *)
Lemma requests_go_to_the_backend_witness :
  starts_with (req_url (getChangelog_request [])) (lit "/api/") = true /\
  starts_with (req_url (generateTitle_request (lit "http://localhost:8080") (lit "token")
                          (lit "model") (VArr []) VUndefined))
              (lit "http://localhost:8080/api/") = true.
Proof.
  split.
  - apply (@requests_go_to_the_backend true false (lit "localhost") (lit "token")
             (lit "model") (VArr []) VNull VUndefined VNull VNull false
             (getChangelog_request [])).
    left. exists GetChangelog. reflexivity.
  - apply (@requests_go_to_the_backend true true (lit "localhost") (lit "token")
             (lit "model") (VArr []) VNull VUndefined VNull VNull false
             (generateTitle_request (lit "http://localhost:8080") (lit "token")
                (lit "model") (VArr []) VUndefined)).
    right. right. left. reflexivity.
Defined.

(* ===================================================================== *)
(** * 40. Arguments in the URL of a tool call                              *)
(* ===================================================================== *)











Section Confinement.

Variable host : Host.


End Confinement.


(* ===================================================================== *)
(** * 41. The models of a connection                                       *)
(* ===================================================================== *)

Section Upstream.

Variable host : Host.

Lemma tag_origin_openai idx listed tagged :
  tag_origin idx listed = Ret tagged ->
  obj_lookup (lit "openai") tagged = Some (VObj [(lit "id", get_nn listed (lit "id"))]) /\
  (forall o, listed = VObj o -> get_nn (VObj tagged) (lit "id") = get_nn listed (lit "id")).
Proof.
  unfold tag_origin. intros H. apply bind_ret_inv in H as (id & Ei & H).
  apply get_ret in Ei. subst id.
  assert (E : tagged = obj_assign (spread listed)
                         [(lit "openai", VObj [(lit "id", get_nn listed (lit "id"))]);
                          (lit "urlIdx", VStr idx)]) by congruence.
  clear H. subst tagged. unfold obj_assign. cbn [fold_left fst snd]. split.
  - rewrite !obj_lookup_set. reflexivity.
  - intros o ->. cbn [get_nn spread own_props]. rewrite !obj_lookup_set. reflexivity.
Qed.

Lemma mark_direct_fields model :
  get_nn (mark_direct model) (lit "openai") = get_nn (VObj model) (lit "openai") /\
  get_nn (mark_direct model) (lit "id") = get_nn (VObj model) (lit "id") /\
  get_nn (mark_direct model) (lit "direct") = VBool true.
Proof.
  unfold mark_direct, obj_assign. cbn [fold_left fst snd get_nn].
  rewrite !obj_lookup_set. repeat split.
Qed.

(** X29.  The models that [getModels] takes from the response of a
    connection keep the id under which the connection knows them: each
    entry has [openai.id] equal to the [id] of the listed model it comes
    from, in the order of the listing, and is marked [direct].  For a
    listed model that is an object, the [id] of the entry is that same id
    when the configuration has no prefix, and the prefix, a dot and that
    id as text when it has one. *)
Theorem connection_models_keep_their_upstream_id c i response models :
  local_models host c i response = Ret models ->
  let prefixId := prefix_id (config_at (OPENAI_API_CONFIGS c) (index_string (N.of_nat i))) in
  Forall2
    (fun listed entry =>
       get_nn entry (lit "openai") = VObj [(lit "id", get_nn listed (lit "id"))] /\
       get_nn entry (lit "direct") = VBool true /\
       (forall o,
          listed = VObj o ->
          (truthy prefixId = false ->
           get_nn entry (lit "id") = get_nn listed (lit "id")) /\
          (truthy prefixId = true ->
           exists prefix id,
             ToString host prefixId = Ret prefix /\
             ToString host (get_nn listed (lit "id")) = Ret id /\
             get_nn entry (lit "id") = VStr (prefix ++ [c_dot] ++ id))))
    (listed_models response) (map mark_direct models).
Proof.
  unfold local_models, listed_models.
  set (idx := index_string (N.of_nat i)).
  set (apiConfig := config_at (OPENAI_API_CONFIGS c) idx).
  intros H.
  apply bind_ret_inv in H as (tagged & Et & H).
  apply bind_ret_inv in H as (prefixed & Ep & H).
  destruct (if Array_isArray response then response
            else nullish_or (get_opt response (lit "data")) (VArr []))
    as [| | | | |l|]; try discriminate Et.
  apply mapM_Forall2 in Et.
  set (tag := fun m : props => if truthy (tags apiConfig)
                               then obj_set (lit "tags") (tags apiConfig) m else m).
  assert (Em : models = map tag prefixed).
  { revert H. unfold tag. destruct (truthy (tags apiConfig)); intros H.
    - assert (E : models = map (obj_set (lit "tags") (tags apiConfig)) prefixed)
        by congruence.
      exact E.
    - rewrite map_id. congruence. }
  clear H. subst models. rewrite map_map.
  assert (Htag : forall m q, str_eqb q (lit "tags") = false ->
                             get_nn (VObj (tag m)) q = get_nn (VObj m) q).
  { intros m q Hq. unfold tag. destruct (truthy (tags apiConfig)); [|reflexivity].
    cbn [get_nn]. rewrite obj_lookup_set, Hq. reflexivity. }
  assert (Hp : Forall2 (fun m m' =>
                          if truthy (prefix_id apiConfig)
                          then apply_prefix host (prefix_id apiConfig) m = Ret m'
                          else m' = m) tagged prefixed).
  { revert Ep. destruct (truthy (prefix_id apiConfig)); intros Ep.
    - apply mapM_Forall2, Ep.
    - replace prefixed with tagged by congruence. clear.
      induction tagged; constructor; auto. }
  clear Ep. revert prefixed Hp.
  induction Et as [|listed m l tagged Hm _ IH]; intros prefixed Hp;
    inversion Hp as [|? m' ? prefixed' Hm' Hp']; subst; [constructor|].
  cbn [map]. constructor; [|exact (IH _ Hp')].
  destruct (tag_origin_openai _ _ Hm) as (Ho & Hid).
  destruct (mark_direct_fields (tag m')) as (Fo & Fi & Fd).
  rewrite Fo, Fi, Fd, !Htag by reflexivity.
  destruct (truthy (prefix_id apiConfig)) eqn:Tp.
  - unfold apply_prefix in Hm'. apply bind_ret_inv in Hm' as (p & Eprefix & Hm').
    apply bind_ret_inv in Hm' as (id & Eid & Hm').
    assert (Em' : m' = obj_set (lit "id") (VStr (p ++ [c_dot] ++ id)) m) by congruence.
    subst m'. cbn [get_nn]. rewrite !obj_lookup_set. cbn [str_eqb N.eqb Pos.eqb lit].
    split; [|split; [reflexivity|]].
    + change (str_eqb (lit "openai") (lit "id")) with false. cbv iota. rewrite Ho. reflexivity.
    + intros o ->. split; [discriminate|]. intros _. exists p, id.
      split; [exact Eprefix|]. split; [|reflexivity].
      rewrite <- (Hid o eq_refl). exact Eid.
  - subst m'. cbn [get_nn]. rewrite Ho. split; [reflexivity|]. split; [reflexivity|].
    intros o Hl. split; [|discriminate]. intros _. exact (Hid o Hl).
Qed.

End Upstream.

(** Witness of [connection_models_keep_their_upstream_id]: a connection
    with the prefix [local] that lists [m]. *)
Lemma connection_models_keep_their_upstream_id_witness :
  Forall2
    (fun listed entry =>
       get_nn entry (lit "openai") = VObj [(lit "id", get_nn listed (lit "id"))] /\
       get_nn entry (lit "direct") = VBool true /\
       (forall o,
          listed = VObj o ->
          (truthy (VStr (lit "local")) = false ->
           get_nn entry (lit "id") = get_nn listed (lit "id")) /\
          (truthy (VStr (lit "local")) = true ->
           exists prefix id,
             ToString TestHost.host (VStr (lit "local")) = Ret prefix /\
             ToString TestHost.host (get_nn listed (lit "id")) = Ret id /\
             get_nn entry (lit "id") = VStr (prefix ++ [c_dot] ++ id))))
    (listed_models (parsed (dq "{#data#: [{#id#: #m#}]}")))
    (map mark_direct
       [[(lit "id", VStr (lit "local.m"));
         (lit "openai", VObj [(lit "id", VStr (lit "m"))]);
         (lit "urlIdx", VStr (lit "1"))]]).
Proof.
  apply (@connection_models_keep_their_upstream_id TestHost.host second_configured 1
           (parsed (dq "{#data#: [{#id#: #m#}]}"))).
  vm_compute. reflexivity.
Defined.

(* ===================================================================== *)
(** * 42. The errors of a tool call                                        *)
(* ===================================================================== *)

Lemma throws_only_bind {A B} texts (c : completion A) (k : A -> completion B) :
  throws_only texts c -> (forall a, c = Ret a -> throws_only texts (k a)) ->
  throws_only texts (bind c k).
Proof. destruct c as [a|[v|[s|f]]]; simpl; auto. Qed.

Lemma throws_only_weaken {A} texts (c : completion A) :
  throws_only [] c -> throws_only texts c.
Proof. destruct c as [a|[v|[s|f]]]; simpl; auto. intros []. Qed.

Lemma throws_only_mapM {A B} texts (f : A -> completion B) l :
  (forall a, throws_only texts (f a)) -> throws_only texts (mapM f l).
Proof.
  intros Hf. induction l as [|x l IH]; simpl; [exact I|].
  apply throws_only_bind; [apply Hf|]. intros y _.
  apply throws_only_bind; [exact IH|]. intros ys _. exact I.
Qed.

Lemma throws_only_foldM {A B} texts (f : A -> B -> completion A) l a :
  (forall a b, throws_only texts (f a b)) -> throws_only texts (foldM f l a).
Proof.
  intros Hf. revert a. induction l as [|x l IH]; intros a; simpl; [exact I|].
  apply throws_only_bind; [apply Hf|]. intros a' _. apply IH.
Qed.

Lemma throws_only_findM {A} texts (p : A -> completion bool) l :
  (forall a, throws_only texts (p a)) -> throws_only texts (findM p l).
Proof.
  intros Hp. induction l as [|x l IH]; simpl; [exact I|].
  apply throws_only_bind; [apply Hp|]. intros [|] _; [exact I | exact IH].
Qed.

Lemma throws_only_encode_points l : throws_only [] (encode_points l).
Proof.
  induction l as [|[cp|] l IH]; simpl; try exact I.
  apply throws_only_bind; [exact IH|]. intros; exact I.
Qed.

(** What a scan returns passed its test. *)
Lemma findM_hit {A} (p : A -> completion bool) l x :
  findM p l = Ret (Some x) -> p x = Ret true.
Proof.
  induction l as [|y l IH]; cbn [findM]; [discriminate|]. intros H.
  apply bind_ret_inv in H as (hit & E & H). destruct hit.
  - assert (y = x) by congruence. subst y. exact E.
  - exact (IH H).
Qed.

Lemma someM_hit {A} (p : A -> completion bool) l :
  someM p l = Ret true -> exists x, findM p l = Ret (Some x).
Proof.
  unfold someM. intros H. apply bind_ret_inv in H as (found & E & H).
  destruct found as [x|]; [exists x; exact E | discriminate].
Qed.

Lemma no_method_is_no_route name : no_method name <> no_route name.
Proof.
  intros H. apply (f_equal (fun s => nth 12 s 0)) in H. discriminate.
Qed.

Lemma no_method_is_no_body name : no_method name <> no_body name.
Proof.
  intros H. apply (f_equal (fun s => nth 0 s 0)) in H. discriminate.
Qed.

Section Errors.

Variable host : Host.

Lemma throws_only_ToString v : throws_only [] (ToString host v).
Proof.
  induction v as [| |b|n|s|l IH|o IH] using value_induction; try exact I.
  - destruct b; exact I.
  - simpl. apply throws_only_bind; [|intros; exact I].
    induction IH as [|x l Hx Hl IHl]; [exact I|].
    apply throws_only_bind.
    + destruct (is_nullish x); [exact I | exact Hx].
    + intros a _. apply throws_only_bind; [exact IHl | intros; exact I].
  - simpl. destruct (obj_has (lit "toString") o); exact I.
Qed.

Lemma throws_only_get v k : throws_only [] (get v k).
Proof. unfold get. destruct (is_nullish v); exact I. Qed.

Lemma throws_only_Object_entries v : throws_only [] (Object_entries v).
Proof. unfold Object_entries. destruct (own_props v); exact I. Qed.

Lemma throws_only_hasOwnProperty v name : throws_only [] (hasOwnProperty host v name).
Proof.
  destruct v as [| |b|n|s|l|o]; simpl; try exact I;
    try (apply throws_only_bind; [apply throws_only_ToString | intros; exact I]).
  destruct (obj_has _ o); [exact I|].
  apply throws_only_bind; [apply throws_only_ToString | intros; exact I].
Qed.

Lemma throws_only_encodeURIComponent v : throws_only [] (encodeURIComponent host v).
Proof.
  unfold encodeURIComponent. apply throws_only_bind; [apply throws_only_ToString|].
  intros s _. apply throws_only_encode_points.
Qed.

Lemma throws_only_is_operation name entry : throws_only [] (is_operation name entry).
Proof.
  unfold is_operation. apply throws_only_bind; [apply throws_only_get | intros; exact I].
Qed.

Lemma throws_only_file_parameter params acc param :
  throws_only [] (file_parameter host params acc param).
Proof.
  unfold file_parameter. destruct acc as [pathParams queryParams].
  apply throws_only_bind; [apply throws_only_get|]. intros paramName _.
  apply throws_only_bind; [apply throws_only_get|]. intros paramIn _.
  apply throws_only_bind; [apply throws_only_hasOwnProperty|]. intros [|] _; [|exact I].
  destruct (strict_eq_string paramIn "path").
  { apply throws_only_bind; [apply throws_only_ToString | intros; exact I]. }
  destruct (strict_eq_string paramIn "query"); [|exact I].
  apply throws_only_bind; [apply throws_only_ToString | intros; exact I].
Qed.

Lemma throws_only_substitute finalUrl kv :
  throws_only [] (substitute_path_param host finalUrl kv).
Proof.
  unfold substitute_path_param. destruct (RegExp_valid host _); [|exact I].
  apply throws_only_bind; [apply throws_only_encodeURIComponent | intros; exact I].
Qed.

(** The request of a tool call is built, or the engine faults, or one of
    two [Error]s is thrown. *)
Lemma throws_only_request token url name params serverData :
  throws_only [no_route name; no_body name]
    (executeToolServer_request host token url name params serverData).
Proof.
  unfold executeToolServer_request.
  set (texts := [no_route name; no_body name]).
  apply throws_only_bind; [apply throws_only_weaken, throws_only_get|]. intros openapi _.
  apply throws_only_bind; [apply throws_only_weaken, throws_only_get|]. intros paths _.
  apply throws_only_bind; [apply throws_only_weaken, throws_only_Object_entries|].
  intros routes _.
  apply throws_only_bind.
  { apply throws_only_findM. intros route.
    apply throws_only_bind; [apply throws_only_weaken, throws_only_Object_entries|].
    intros methods _.
    unfold someM. apply throws_only_bind; [|intros; exact I].
    apply throws_only_findM. intros entry.
    apply throws_only_weaken, throws_only_is_operation. }
  intros [[routePath methods]|] Hroute; [|left; reflexivity].
  apply findM_hit in Hroute. cbn [snd] in Hroute.
  apply bind_ret_inv in Hroute as (entries & He & Hsome).
  rewrite He. cbn [bind].
  destruct (someM_hit _ _ Hsome) as ([httpMethod operation] & Hm).
  rewrite Hm. cbn [bind].
  apply throws_only_bind; [apply throws_only_weaken, throws_only_get|].
  intros parameters _.
  apply throws_only_bind.
  { destruct (truthy parameters); [|exact I].
    destruct parameters; try exact I.
    apply throws_only_foldM. intros acc param.
    apply throws_only_weaken, throws_only_file_parameter. }
  intros [pathParams queryParams] _.
  apply throws_only_bind.
  { apply throws_only_foldM. intros acc kv.
    apply throws_only_weaken, throws_only_substitute. }
  intros finalUrl _.
  apply throws_only_bind.
  { destruct queryParams; [exact I|].
    apply throws_only_bind; [|intros; exact I].
    apply throws_only_mapM. intros kv.
    apply throws_only_bind; [apply throws_only_weaken, throws_only_ToString|].
    intros; exact I. }
  intros finalUrl' _.
  apply throws_only_bind; [|intros; exact I].
  destruct (_ && _); [|exact I]. destruct params; try exact I.
  right. left. reflexivity.
Qed.

(** X30. Whatever stops [executeToolServer] before its request is sent
    is an error of the engine, the [Error] that no route declares the
    operation, or the [Error] that the operation expects a body: the
    third [Error] of the function, that a route matches and none of its
    methods does, is never thrown. *)
Theorem executeToolServer_never_misses_the_method token url name params serverData e :
  executeToolServer_request host token url name params serverData = Throw e ->
  ((exists f, e = ExnError (Engine f)) \/
   e = ExnError (Text (no_route name)) \/
   e = ExnError (Text (no_body name))) /\
  e <> ExnError (Text (no_method name)).
Proof.
  intros H. pose proof (throws_only_request token url name params serverData) as T.
  rewrite H in T. destruct e as [v|[s|f]]; cbn [throws_only] in T.
  - destruct T.
  - destruct T as [<-|[<-|[]]].
    + split; [right; left; reflexivity|].
      intros E. apply (@no_method_is_no_route name). congruence.
    + split; [right; right; reflexivity|].
      intros E. apply (@no_method_is_no_body name). congruence.
  - split; [left; exists f; reflexivity | discriminate].
Qed.

End Errors.

Lemma executeToolServer_never_misses_the_method_witness :
  let name := lit "op" in
  let e := ExnError (Text (no_route name)) in
  ((exists f, e = ExnError (Engine f)) \/
   e = ExnError (Text (no_route name)) \/
   e = ExnError (Text (no_body name))) /\
  e <> ExnError (Text (no_method name)).
Proof.
  apply (@executeToolServer_never_misses_the_method TestHost.host (lit "t") (lit "https://a")
           (lit "op") (VObj [])
           (VObj [(lit "openapi", VObj [(lit "paths", VObj [])])])).
  reflexivity.
Defined.
